(** * neuro-kl: entropy and KL divergence estimation (kl_tools.py)

    A shallow embedding of [python/neuro_kl/kl_tools.py] and the
    properties of its functions.

    Conventions of the embedding.
    - A Python call either returns a value or raises: [result A].
    - A bare name of a function body ([log], [array], [zeros]) is looked
      up in the module's global namespace when the body runs; the
      namespace is a parameter [g] of every function that does such a
      lookup, and [module_globals] is the namespace the file's own
      [import] lines and [def]s create.
    - Arrays of floating point numbers are idealised: exact rationals
      ([Q]) in the data preparation functions, which only count, add,
      multiply and compare, and real numbers ([R]) in the estimators,
      which apply [log2], [log] and [digamma].  Rounding is not modelled.
      A division by zero of floats, [nan] or [inf] in numpy, is the 0
      of [Qdiv] and [Rdiv] here; the properties below either exclude
      a zero divisor by hypothesis or leave the quotient as it is
      written.  [astype('int32')] is the truncation
      toward zero; the overflow of a count beyond 32 bits is not
      modelled.
    - Integers are Python ints ([Z]); [/] and [//] between them are the
      floor division of Python 2.
    - [scipy.special.digamma] and [scipy.polyfit] are library functions
      and are parameters of the estimators; the permutation that
      [scipy.random.permutation] draws is an argument of [states2dict]. *)

From Stdlib Require Import List String Bool ZArith QArith Qround Reals Lia Lra.
From Stdlib Require Import Permutation Qreals.
Import ListNotations.

(** ** Python values and control *)

Module Py.

(** The exception classes the module can raise. *)
Inductive exn : Type :=
| NameError (name : string)
| ValueError (msg : string)
| Exception (msg : string)
| AssertionError
| KeyError (key : Z)
| IndexError
| ZeroDivisionError.

Inductive result (A : Type) : Type :=
| Ok (a : A)
| Raise (e : exn).

Arguments Ok {A} a.
Arguments Raise {A} e.

Definition bind {A B : Type} (m : result A) (k : A -> result B) : result B :=
  match m with
  | Ok a => k a
  | Raise e => Raise e
  end.

Definition returns {A : Type} (m : result A) : bool :=
  match m with Ok _ => true | Raise _ => false end.

(** [for x in l: ... f(x) ...], collecting the values. *)
Fixpoint mapM {A B : Type} (f : A -> result B) (l : list A) : result (list B) :=
  match l with
  | [] => Ok []
  | x :: l' =>
      bind (f x) (fun y => bind (mapM f l') (fun ys => Ok (y :: ys)))
  end.

(** [for x in l: f(x)], for the effect (an exception) only. *)
Fixpoint forM_ {A : Type} (f : A -> result unit) (l : list A) : result unit :=
  match l with
  | [] => Ok tt
  | x :: l' => bind (f x) (fun _ => forM_ f l')
  end.

(** The global namespace: the names that are bound. *)
Definition globals : Type := list string.

Definition bound (g : globals) (name : string) : bool :=
  existsb (String.eqb name) g.

Definition lookup_name (g : globals) (name : string) : result unit :=
  if bound g name then Ok tt else Raise (NameError name).

(** [l[i]] for a list and [0 <= i]. *)
Definition list_get {A : Type} (l : list A) (i : nat) : result A :=
  match nth_error l i with
  | Some x => Ok x
  | None => Raise IndexError
  end.

(** A dict with integer keys, as an association list; the first
    binding of a key is the live one. *)
Definition dict (V : Type) : Type := list (Z * V).

Fixpoint dict_find {V : Type} (d : dict V) (k : Z) : option V :=
  match d with
  | [] => None
  | (k', v) :: d' => if Z.eqb k k' then Some v else dict_find d' k
  end.

(** [d[k]] *)
Definition dict_get {V : Type} (d : dict V) (k : Z) : result V :=
  match dict_find d k with
  | Some v => Ok v
  | None => Raise (KeyError k)
  end.

(** [d[k] = v] *)
Fixpoint dict_set {V : Type} (d : dict V) (k : Z) (v : V) : dict V :=
  match d with
  | [] => [(k, v)]
  | (k', v') :: d' =>
      if Z.eqb k k' then (k, v) :: d' else (k', v') :: dict_set d' k v
  end.

(** [k in d.keys()] *)
Definition dict_mem {V : Type} (d : dict V) (k : Z) : bool :=
  match dict_find d k with Some _ => true | None => false end.


(** [range(n)] *)
Definition range (n : Z) : list Z := map Z.of_nat (seq 0 (Z.to_nat n)).

(** A slice bound, as Python normalises it against the length [n]. *)
Definition slice_bound (n i : Z) : Z :=
  if (i <? 0)%Z then Z.max 0 (i + n) else Z.min i n.

(** [l[a:b]] *)
Definition slice {A : Type} (l : list A) (a b : Z) : list A :=
  let n := Z.of_nat (List.length l) in
  let a' := slice_bound n a in
  let b' := slice_bound n b in
  firstn (Z.to_nat (b' - a')) (skipn (Z.to_nat a') l).

End Py.

Import Py.

Declare Scope py_scope.
Delimit Scope py_scope with py.
Notation "x <- m ;; k" := (bind m (fun x => k))
  (at level 61, m at next level, right associativity) : py_scope.
Notation "m ;;; k" := (bind m (fun _ => k))
  (at level 61, right associativity) : py_scope.

(** ** The module's global namespace *)

(** Lines 5-7 import [scipy], [log2] and [digamma]; every [def] binds
    its own name.  Nothing else is bound at module level. *)
Definition module_globals : globals :=
  [ "scipy"; "log2"; "digamma";
    "kl"; "entropy"; "mean_H_estimate"; "mean_KL_estimate";
    "kl_estimation"; "h_estimation";
    "spikes2states"; "states2distr"; "states2dict"; "spikes2indep_dict";
    "_check_dict_consistency"; "transition_matrix";
    "states2transition_dict" ]%string.

(** The namespace after [log], [array] and [zeros] have been bound to
    the numpy functions of these names as well. *)
Definition numpy_globals : globals :=
  ("log" :: "array" :: "zeros" :: module_globals)%string.

(** ** Estimators over real-valued arrays *)

Section Estimators.

Local Open Scope R_scope.
Local Open Scope py_scope.

(** [a.sum()] *)
Definition array_sum (a : list R) : R := fold_right Rplus 0 a.

(** [a.mean()] *)
Definition array_mean (a : list R) : R := array_sum a / INR (List.length a).

(** [scipy.log2] on positive arguments. *)
Definition log2 (x : R) : R := ln x / ln 2.

Definition is_zero (x : R) : bool :=
  if Req_dec_T x 0 then true else false.

(** [(p==0.).sum()] *)
Definition count_zeros (p : list R) : nat :=
  List.length (filter is_zero p).

(** Element-wise binary operation on two arrays of one shape. *)
Fixpoint zip_with {A B C : Type} (f : A -> B -> C) (a : list A) (b : list B)
  : list C :=
  match a, b with
  | x :: a', y :: b' => f x y :: zip_with f a' b'
  | _, _ => []
  end.

(** Lines 9-20.  [p] and [q] have one shape. *)
Definition kl (p q : list R) : result R :=
  if (0 <? count_zeros p + count_zeros q)%nat
  then Raise (Exception "Zero bins found")
  else Ok (array_sum (zip_with (fun x y => x * (log2 x - log2 y)) p q)).

(** Lines 22-33. *)
Definition entropy (p : list R) : result R :=
  if (0 <? count_zeros p)%nat
  then Raise (Exception "Zero bins found")
  else Ok (array_sum (map (fun x => x * log2 x) p)).

Variable g : globals.
Variable digamma : R -> R.
Variable polyfit : list R -> list R -> nat -> list R.

(** Lines 35-47.  [res] is computed before [log] is looked up. *)
Definition mean_H_estimate (alpha : list R) : result R :=
  let alpha0 := array_sum alpha in
  let res :=
    array_sum (map (fun a => a * digamma (a + 1)) alpha) / alpha0
    - digamma (alpha0 + 1) in
  lookup_name g "log" ;;;
  Ok (res / ln 2).

(** Lines 49-66.  The call of [mean_H_estimate] comes first, the
    second [log] after the sum. *)
Definition mean_KL_estimate (alpha beta : list R) : result R :=
  let alpha0 := array_sum alpha in
  let beta0 := array_sum beta in
  h <- mean_H_estimate alpha ;;
  let cross :=
    array_sum
      (zip_with (fun a b => a / alpha0 * (digamma b - digamma beta0))
         alpha beta) in
  lookup_name g "log" ;;;
  Ok (h - cross / ln 2).

(** [p + alpha] for an array [p] and a scalar [alpha]. *)
Definition add_scalar (p : list R) (alpha : R) : list R :=
  map (fun x => x + alpha) p.

(** A block partition: block count [d] to the list of its blocks. *)
Definition partition : Type := dict (list (list R)).

(** [p_dict[d][i].flatten()]; a block is held flat already. *)
Definition block (p_dict : partition) (d : Z) (i : nat) : result (list R) :=
  blocks <- dict_get p_dict d ;;
  list_get blocks i.

(** The block counts both estimation loops run over, in this order. *)
Definition ns : list Z := [4; 2; 1]%Z.

(** [Ns = npoints/ns], Python 2 division of an int by an int64 array,
    then [astype('d')]; or the caller's [Ns]. *)
Definition sample_sizes (npoints : Z) (Ns : option (list R)) : list R :=
  match Ns with
  | Some l => l
  | None => map (fun d => IZR (npoints / d)) ns
  end.

(** [Ns*Ns * estimate] *)
Definition fit_targets (Ns estimate : list R) : list R :=
  zip_with Rmult (zip_with Rmult Ns Ns) estimate.

(** The body of the [for i in range(d)] loop of [h_estimation]. *)
Definition h_block (p_dict : partition) (alpha : R) (d : Z) (i : nat)
  : result R :=
  p <- block p_dict d i ;;
  mean_H_estimate (add_scalar p alpha).

(** The body of the [for i in range(d)] loop of [kl_estimation]: the
    pair ([h_est[i]], [kl_est[i]]). *)
Definition kl_block (p_dict q_dict : partition) (alpha : R) (d : Z) (i : nat)
  : result (R * R) :=
  p <- block p_dict d i ;;
  q <- block q_dict d i ;;
  h <- mean_H_estimate (add_scalar p alpha) ;;
  k <- mean_KL_estimate (add_scalar p alpha) (add_scalar q alpha) ;;
  Ok (h, k).

(** Lines 68-89. *)
Definition kl_estimation (p_dict q_dict : partition) (npoints : Z)
    (alpha : R) (Ns : option (list R)) : result (R * R) :=
  lookup_name g "array" ;;;
  lookup_name g "zeros" ;;;
  lookup_name g "zeros" ;;;
  ests <- mapM (fun d =>
                  lookup_name g "zeros" ;;;
                  lookup_name g "zeros" ;;;
                  hk <- mapM (kl_block p_dict q_dict alpha d)
                          (seq 0 (Z.to_nat d)) ;;
                  Ok (array_mean (map fst hk), array_mean (map snd hk)))
            ns ;;
  let h_estimate := map fst ests in
  let kl_estimate := map snd ests in
  let Ns' := sample_sizes npoints Ns in
  let h_extr := polyfit Ns' (fit_targets Ns' h_estimate) 2 in
  let kl_extr := polyfit Ns' (fit_targets Ns' kl_estimate) 2 in
  k0 <- list_get kl_extr 0 ;;
  h0 <- list_get h_extr 0 ;;
  Ok (k0, h0).

(** Lines 91-105. *)
Definition h_estimation (p_dict : partition) (npoints : Z)
    (alpha : R) (Ns : option (list R)) : result R :=
  lookup_name g "array" ;;;
  lookup_name g "zeros" ;;;
  h_estimate <- mapM (fun d =>
                        lookup_name g "zeros" ;;;
                        h_est <- mapM (h_block p_dict alpha d)
                                   (seq 0 (Z.to_nat d)) ;;
                        Ok (array_mean h_est))
                  ns ;;
  let Ns' := sample_sizes npoints Ns in
  let h_extr := polyfit Ns' (fit_targets Ns' h_estimate) 2 in
  list_get h_extr 0.

End Estimators.

(** ** Data preparation over rational-valued arrays *)

(** A two-dimensional array: [shape1] columns, [length rows] rows. *)
Record ndarray2 : Type := Ndarray2 {
  shape1 : nat;
  rows : list (list Q)
}.

Definition shape0 (a : ndarray2) : nat := List.length (rows a).

(** Every row has [shape1] entries. *)
Definition rectangular (a : ndarray2) : Prop :=
  Forall (fun r => List.length r = shape1 a) (rows a).

Section DataManipulation.

Local Open Scope Q_scope.
Local Open Scope py_scope.

Definition Qltb (x y : Q) : bool := negb (Qle_bool y x).

(** [a.sum()] of a one-dimensional array. *)
Definition qsum (a : list Q) : Q := fold_right Qplus 0 a.

(** [scipy.prod] *)
Definition qprod (a : list Q) : Q := fold_right Qmult 1 a.

(** [spikes>=0] and [spikes<=1], at one element. *)
Definition in_unit_range (x : Q) : bool := Qle_bool 0 x && Qle_bool x 1.

(** [[2**i for i in range(nchannels-1,-1,-1)]] *)
Definition pow2 (nchannels : nat) : list Q :=
  map (fun i => inject_Z (2 ^ Z.of_nat i)) (rev (seq 0 nchannels)).

(** Lines 109-120.  The rows of [spikes] have [shape1 spikes] entries.
    The arithmetic is exact: what numpy computes while every product
    and every partial sum is a number of the array's type, as for
    binary rows of at most 53 columns, whose states are below [2^53]
    and so are both int64 and float64 numbers;
    [spikes2states_float64] below is the function on a float64
    array. *)
Definition spikes2states (spikes : ndarray2) : result (list Q) :=
  if negb (forallb (forallb in_unit_range) (rows spikes))
  then Raise (ValueError "Input array must be binary")
  else
    let nchannels := shape1 spikes in
    let pow2 := pow2 nchannels in
    Ok (map (fun row => qsum (zip_with Qmult row pow2)) (rows spikes)).

(** Whether [s] falls into bin [k] of [nbins] unit bins with edges
    [0, 1, ..., nbins]: half-open, the last one closed. *)
Definition in_bin (nbins k : nat) (s : Q) : bool :=
  Qle_bool (inject_Z (Z.of_nat k)) s
  && (if (S k =? nbins)%nat
      then Qle_bool s (inject_Z (Z.of_nat (S k)))
      else Qltb s (inject_Z (Z.of_nat (S k)))).

(** The counts of [scipy.histogram(states, bins=arange(nbins+1))]. *)
Definition histogram (states : list Q) (nbins : nat) : list Z :=
  map (fun k => Z.of_nat (List.length (filter (in_bin nbins k) states)))
    (seq 0 nbins).

(** Lines 122-144.  With [normed] the counts are divided by their
    total, the bins having width 1. *)
Definition states2distr (states : list Q) (nchannels : nat) (normed : bool)
  : list Q :=
  let counts := histogram states (2 ^ nchannels) in
  if normed
  then map (fun c => inject_Z c / inject_Z (fold_right Z.add 0%Z counts))
         counts
  else map inject_Z counts.

(** A block partition of count distributions. *)
Definition count_partition : Type := dict (list (list Q)).

(** The accumulator [sm]: the float [0.] until an array is added. *)
Inductive accum : Type :=
| Scalar (x : Q)
| Array (a : list Q).

(** [sm += a] *)
Definition iadd (sm : accum) (a : list Q) : accum :=
  match sm with
  | Scalar x => Array (map (Qplus x) a)
  | Array s => Array (zip_with Qplus s a)
  end.

Definition accum_items (sm : accum) : list Q :=
  match sm with Scalar x => [x] | Array a => a end.

(** [x.astype('int32')] of a float in range: truncation. *)
Definition trunc (x : Q) : Z := Z.quot (Qnum x) (Z.pos (Qden x)).

Definition tolerance : Q := 1 # 10000.

(** [assert c] *)
Definition assert (c : bool) : result unit :=
  if c then Ok tt else Raise AssertionError.

Variable g : globals.

(** Lines 195-197: [sm] after the loop over the [d] blocks. *)
Definition sum_blocks (distr : count_partition) (d : Z) : result accum :=
  fold_left
    (fun acc i =>
       sm <- acc ;;
       lookup_name g "array" ;;;
       blocks <- dict_get distr d ;;
       b <- list_get blocks i ;;
       Ok (iadd sm b))
    (seq 0 (Z.to_nat d)) (Ok (Scalar 0)).

(** Lines 195-199: the body of the loop over [control]. *)
Definition check_key (distr : count_partition) (npoints : Z) (d : Z)
  : result unit :=
  sm <- sum_blocks distr d ;;
  assert (Qltb (qsum (accum_items sm) - inject_Z npoints) tolerance) ;;;
  let sm_int := map (fun x => inject_Z (trunc x)) (accum_items sm) in
  lookup_name g "array" ;;;
  blocks1 <- dict_get distr 1 ;;
  b1 <- list_get blocks1 0 ;;
  assert (forallb (fun x => Qltb x tolerance) (zip_with Qminus sm_int b1)).

(** Lines 190-199. *)
Definition _check_dict_consistency (distr : count_partition) (npoints : Z)
  : result unit :=
  let control :=
    (if dict_mem distr 2 then [2%Z] else [])
    ++ (if dict_mem distr 4 then [4%Z] else []) in
  forM_ (check_key distr npoints) control.

(** Lines 151-154.  [shuffle] is [None] for [shuffle=False] and
    [Some p] for [shuffle=True], [p] being the permutation of the
    indices that [scipy.random.permutation] draws; [scipy.take]
    raises on an index out of range. *)
Definition shuffled (all_y : list Q) (shuffle : option (list nat))
  : result (list Q) :=
  match shuffle with
  | Some p => mapM (list_get all_y) p
  | None => Ok all_y
  end.

(** Lines 146-163.  [npoints//d] raises for [d = 0]; a negative [d]
    gives no block. *)
Definition states2dict (all_y : list Q) (nchannels : nat) (npoints : Z)
    (fractions : list Z) (shuffle : option (list nat))
  : result count_partition :=
  all_y <- shuffled all_y shuffle ;;
  distr <- fold_left
             (fun acc d =>
                distr <- acc ;;
                (if (d =? 0)%Z then Raise ZeroDivisionError else Ok tt) ;;;
                let block_len := (npoints / d)%Z in
                let blocks :=
                  map (fun i =>
                         let part_y :=
                           slice all_y (i * block_len) ((i + 1) * block_len) in
                         states2distr part_y nchannels false)
                    (range d) in
                Ok (dict_set distr d blocks))
             fractions (Ok []) ;;
  _check_dict_consistency distr npoints ;;;
  Ok distr.

(** [scipy.binary_repr(s, width)] for [0 <= s < 2**width], as the
    list of its characters being ['1'], most significant first. *)
Definition binary_repr (s : Z) (width : nat) : list bool :=
  map (fun k => Z.testbit s (Z.of_nat (width - 1 - k))) (seq 0 width).

(** Lines 165-188.  [npoints/d] is the division of two ints. *)
Definition spikes2indep_dict (spikes : ndarray2) (nchannels : nat)
    (npoints : Z) (fractions : list Z) : result count_partition :=
  let p1 :=
    map (fun k =>
           qsum (map (fun row => nth k row 0) (rows spikes))
           / inject_Z (Z.of_nat (shape0 spikes)))
      (seq 0 (shape1 spikes)) in
  let nbins := (2 ^ nchannels)%nat in
  lookup_name g "zeros" ;;;
  indep_distr <-
    mapM (fun s =>
            let s_bin := binary_repr (Z.of_nat s) nchannels in
            prob <- mapM (fun k =>
                            p <- list_get p1 k ;;
                            Ok (if nth k s_bin false then p else 1 - p))
                      (seq 0 nchannels) ;;
            Ok (qprod prob))
      (seq 0 nbins) ;;
  distr <- fold_left
             (fun acc d =>
                distr <- acc ;;
                (if (d =? 0)%Z then Raise ZeroDivisionError else Ok tt) ;;;
                let l := (npoints / d)%Z in
                Ok (dict_set distr d
                      (repeat (map (fun x => x * inject_Z l) indep_distr)
                         (Z.to_nat d))))
             fractions (Ok []) ;;
  _check_dict_consistency distr npoints ;;;
  Ok distr.

End DataManipulation.

(** ** Definitions the statements below use *)

(** The entropy as the specification writes it: minus the sum of
    [p(x) log2 p(x)]. *)
Definition shannon_entropy (p : list R) : R :=
  (- array_sum (map (fun x => x * log2 x) p))%R.

(** The uniform distribution over [2^C] states. *)
Definition uniform (C : nat) : list R := repeat (/ 2 ^ C)%R (2 ^ C).

(** The inverse of the bit weighting: the row of [C] channels whose
    channel [k] is bit [C-1-k] of [n]. *)
Definition decode (C : nat) (n : Z) : list Q :=
  map (fun k => if Z.testbit n (Z.of_nat (C - 1 - k)) then 1%Q else 0%Q)
    (seq 0 C).

(** A row of a binary matrix: every entry is 0 or 1. *)
Definition binary_row (r : list Q) : Prop :=
  Forall (fun x => x = 0%Q \/ x = 1%Q) r.

(** Value of a list of bits, most significant first. *)
Fixpoint bits_value (bs : list bool) : Z :=
  match bs with
  | [] => 0%Z
  | b :: bs' => ((if b then 2 ^ Z.of_nat (List.length bs') else 0) + bits_value bs')%Z
  end.

(** The bits of a binary row. *)
Definition row_bits (r : list Q) : list bool := map (fun x => Qeq_bool x 1) r.



(** The closed form of the specification, in nats: the sum of
    [alpha[x] * psi(alpha[x] + 1)] over [alpha0], minus
    [psi(alpha0 + 1)]. *)
Definition mean_entropy_formula (psi : R -> R) (alpha : list R) : R :=
  (array_sum (map (fun a => a * psi (a + 1)) alpha) / array_sum alpha
   - psi (array_sum alpha + 1))%R.

(** Two properties of the digamma function on the positive reals. *)
Definition digamma_recurrence (psi : R -> R) : Prop :=
  forall x : R, (0 < x)%R -> psi (x + 1)%R = (psi x + / x)%R.

Definition nondecreasing_on_positive (psi : R -> R) : Prop :=
  forall x y : R, (0 < x)%R -> (x <= y)%R -> (psi x <= psi y)%R.

(** A probability vector. *)
Definition probability_vector (p : list R) : Prop :=
  Forall (fun x => 0 <= x)%R p /\ array_sum p = 1%R.


(** The estimate [E(d)] of the extrapolation: the mean over the first
    [d] blocks under the key [d] of the closed form at
    [block + alpha], in bits. *)
Definition block_entropies (psi : R -> R) (p_dict : partition) (alpha : R)
    (d : Z) : list R :=
  match dict_find p_dict d with
  | Some blocks =>
      map (fun b => (mean_entropy_formula psi (add_scalar b alpha) / ln 2)%R)
        (firstn (Z.to_nat d) blocks)
  | None => []
  end.

(** Every key of [ns] is present with at least that many blocks. *)
Definition has_blocks (p_dict : partition) : Prop :=
  forall d, In d ns ->
            exists blocks, dict_find p_dict d = Some blocks
                           /\ (Z.to_nat d <= List.length blocks)%nat.


(** Element-wise sum of two count vectors, and of a list of count
    vectors of [nbins] entries. *)
Definition vadd (a b : list Q) : list Q := zip_with Qplus a b.

Definition vsum (nbins : nat) (vs : list (list Q)) : list Q :=
  fold_right vadd (repeat 0%Q nbins) vs.

(** The states lie in [[0, 2^C)]. *)
Definition states_in_range (C : nat) (states : list Q) : Prop :=
  Forall (fun s => 0 <= s /\ s < inject_Z (2 ^ Z.of_nat C))%Q states.

(** The blocks [states2dict] stores under the key [d]. *)
Definition blocks_of (ys : list Q) (C : nat) (npoints d : Z) : list (list Q) :=
  map (fun i =>
         states2distr (slice ys (i * (npoints / d)) ((i + 1) * (npoints / d)))
           C false) (range d).

(** The number of 1s in channel [k]. *)
Definition count_ones (spikes : ndarray2) (k : nat) : Z :=
  Z.of_nat
    (List.length
       (filter (fun row => Qeq_bool (nth k row 0%Q) 1) (rows spikes))).

(** The marginal firing probability of channel [k]: its number of 1s
    over [denominator]. *)
Definition marginal (denominator : Z) (spikes : ndarray2) (k : nat) : Q :=
  (inject_Z (count_ones spikes k) / inject_Z denominator)%Q.

(** The probability of state [s] under independent channels of marginals
    [p1]: the product over the channels [k] of [p1 k] where the digit
    [s_bin[k]] is 1 and of [1 - p1 k] where it is 0. *)
Definition independence_entry (p1 : nat -> Q) (C : nat) (s : Z) : Q :=
  qprod (map (fun k => if nth k (binary_repr s C) false
                       then p1 k else (1 - p1 k)%Q)
           (seq 0 C)).

Definition independence_vector (p1 : nat -> Q) (C : nat) : list Q :=
  map (fun s => independence_entry p1 C (Z.of_nat s)) (seq 0 (2 ^ C)).

(** The blocks [spikes2indep_dict] stores under the key [d]. *)
Definition indep_blocks (spikes : ndarray2) (C : nat) (npoints d : Z)
  : list (list Q) :=
  repeat
    (map (fun x => (x * inject_Z (npoints / d))%Q)
       (independence_vector (marginal (Z.of_nat (shape0 spikes)) spikes) C))
    (Z.to_nat d).




(** The closed form of the mean KL divergence of the specification, in
    bits: the mean entropy form at [alpha], minus the sum of
    [(alpha[x] / alpha0) * (psi(beta[x]) - psi(beta0))] over [ln 2]. *)
Definition mean_kl_formula (psi : R -> R) (alpha beta : list R) : R :=
  (mean_entropy_formula psi alpha / ln 2
   - array_sum
       (zip_with (fun a b => a / array_sum alpha
                             * (psi b - psi (array_sum beta)))
          alpha beta) / ln 2)%R.

(** The KL estimates of the first [d] blocks under the key [d]. *)
Definition block_kls (psi : R -> R) (p_dict q_dict : partition) (alpha : R)
    (d : Z) : list R :=
  match dict_find p_dict d, dict_find q_dict d with
  | Some bp, Some bq =>
      zip_with (fun p q => mean_kl_formula psi (add_scalar p alpha)
                             (add_scalar q alpha))
        (firstn (Z.to_nat d) bp) (firstn (Z.to_nat d) bq)
  | _, _ => []
  end.

(** The sample sizes as the specification words them: the exact quotients of
    [npoints] by 4, 2 and 1. *)
Definition claimed_sample_sizes (npoints : Z) : list R :=
  map (fun d => (IZR npoints / IZR d)%R) ns.

(** A partition with the keys 1, 2 and 4 over two states. *)
Definition three_key_partition : partition :=
  [(1%Z, [[4; 4]%R]);
   (2%Z, [[2; 2]%R; [2; 2]%R]);
   (4%Z, [[1; 1]%R; [1; 1]%R; [1; 1]%R; [1; 1]%R])].

(** The sum of the squared residuals of the quadratic
    [c2 x^2 + c1 x + c0] at the points [(xs, ys)]. *)
Definition sum_squares (xs ys : list R) (c2 c1 c0 : R) : R :=
  array_sum
    (zip_with (fun x y => ((c2 * x * x + c1 * x + c0 - y)
                           * (c2 * x * x + c1 * x + c0 - y))%R) xs ys).

(** [coeffs] holds the coefficients, highest power first, of a
    quadratic that minimises the sum of the squared residuals: what
    [polyfit(xs, ys, 2)] is documented to return. *)
Definition least_squares_quadratic (xs ys coeffs : list R) : Prop :=
  exists c2 c1 c0 : R,
    coeffs = [c2; c1; c0]
    /\ forall a b c : R,
         (sum_squares xs ys c2 c1 c0 <= sum_squares xs ys a b c)%R.

(** The second divided difference of three points. *)
Definition divided_difference_2 (x1 x2 x3 y1 y2 y3 : R) : R :=
  (((y3 - y2) / (x3 - x2) - (y2 - y1) / (x2 - x1)) / (x3 - x1))%R.

(** The bin a state can fall into, if any: the last one from the right
    edge on, its integer part below. *)
Definition bin_of (nbins : nat) (s : Q) : Z :=
  if Qle_bool (inject_Z (Z.of_nat nbins)) s
  then (Z.of_nat nbins - 1)%Z
  else Qfloor s.

(** Entry by entry equality of rational vectors. *)
Definition veq (a b : list Q) : Prop := Forall2 Qeq a b.

(** A function on the reals with the recurrence of the digamma
    function, [psi (x + 1) = psi x + 1 / x] for [0 < x]: the sum of
    [1 / (x - k)] over the integers [1 <= k < x]. *)
Fixpoint harmonic_tail (x : R) (n : nat) : R :=
  match n with
  | O => 0%R
  | S n' => (/ (x - 1) + harmonic_tail (x - 1) n')%R
  end.

Definition harmonic_psi (x : R) : R :=
  harmonic_tail x (Z.to_nat (up x - 1)).

(** Whether [s] lies between the first and the last bin edge. *)
Definition in_edges (nbins : nat) (s : Q) : bool :=
  Qle_bool 0 s && Qle_bool s (inject_Z (Z.of_nat nbins)).

(** The weight a vector [v] over the [2^C] states gives to the states
    whose binary pattern has a 1 at position [k]. *)
Definition firing_weight (v : list Q) (C k : nat) : Q :=
  qsum (map (fun s => if nth k (binary_repr (Z.of_nat s) C) false
                      then nth s v 0%Q else 0%Q)
          (seq 0 (2 ^ C))).

(** The counts of [scipy.histogram2d(x, y, bins=range(nbins+1))] for
    two arrays of integers of one length and [2 <= nbins] (a list of
    one or two bins is read as numbers of bins, not as edges): entry
    [i][j] counts the positions [t] with [x[t]] in bin [i] and [y[t]]
    in bin [j], the bins being those of [histogram] in each
    coordinate. *)
Definition histogram2d (x y : list Q) (nbins : nat) : list (list Z) :=
  map (fun i =>
         map (fun j =>
                Z.of_nat
                  (List.length
                     (filter (fun p => in_bin nbins i (fst p)
                                       && in_bin nbins j (snd p))
                        (combine x y))))
           (seq 0 nbins))
    (seq 0 nbins).

(** Lines 201-206, for [dt <> 0]: the slices [y[:-dt]] and [y[dt:]]
    have one length then (at [dt = 0] the first one is empty and the
    second one is [y]). *)
Definition transition_matrix (y : list Q) (nstates : nat) (dt : Z)
  : list (list Q) :=
  map (map inject_Z)
    (histogram2d (slice y 0 (- dt)) (slice y dt (Z.of_nat (List.length y)))
       nstates).

(** [outer(a, b)] as numpy defines it, and [m * c] for a matrix [m]. *)
Definition outer (a b : list Q) : list (list Q) :=
  map (fun x => map (Qmult x) b) a.

Definition matrix_scale (m : list (list Q)) (c : Q) : list (list Q) :=
  map (map (fun x => (x * c)%Q)) m.

(** A block partition of transition tables. *)
Definition transition_partition : Type := dict (list (list (list Q))).

Section Transitions.

Local Open Scope py_scope.

Variable g : globals.

(** Lines 208-229.  [npoints/d] is the division of two ints and raises
    for [d = 0]; a negative [d] gives no block; [outer] is a bare name
    of the body, looked up when the [else] branch runs. *)
Definition states2transition_dict (states : list Q) (nchannels : nat)
    (dt : Z) (ds : list Z) (indep : bool) : result transition_partition :=
  let npoints := Z.of_nat (List.length states) in
  let nstates := (2 ^ nchannels)%nat in
  fold_left
    (fun acc d =>
       distr <- acc ;;
       (if (d =? 0)%Z then Raise ZeroDivisionError else Ok tt) ;;;
       let block_len := (npoints / d)%Z in
       blocks <-
         mapM (fun i =>
                 let part_y :=
                   slice states (i * block_len) ((i + 1) * block_len) in
                 if negb indep
                 then Ok (transition_matrix part_y nstates dt)
                 else
                   let marg_distr := states2distr part_y nchannels true in
                   lookup_name g "outer" ;;;
                   Ok (matrix_scale (outer marg_distr marg_distr)
                         (inject_Z (Z.of_nat (List.length part_y) - 1))))
           (range d) ;;
       Ok (dict_set distr d blocks))
    ds (Ok []).

End Transitions.

(** The states are integers of [[0, 2^C)], as [spikes2states] computes
    them from a binary array of [C] columns. *)
Definition integer_states (C : nat) (states : list Q) : Prop :=
  Forall (fun s => exists z, s = inject_Z z /\ (0 <= z < 2 ^ Z.of_nat C)%Z)
    states.

(** The tables [states2transition_dict] stores under the key [d] with
    [indep=False]. *)
Definition transition_blocks (states : list Q) (C : nat) (dt d : Z)
  : list (list (list Q)) :=
  map (fun i =>
         transition_matrix
           (slice states (i * (Z.of_nat (List.length states) / d))
              ((i + 1) * (Z.of_nat (List.length states) / d)))
           (2 ^ C) dt)
    (range d).

(** The tables it stores with [indep=True], where [outer] is bound. *)
Definition independent_blocks (states : list Q) (C : nat) (d : Z)
  : list (list (list Q)) :=
  map (fun i =>
         let part_y :=
           slice states (i * (Z.of_nat (List.length states) / d))
             ((i + 1) * (Z.of_nat (List.length states) / d)) in
         let marg_distr := states2distr part_y C true in
         matrix_scale (outer marg_distr marg_distr)
           (inject_Z (Z.of_nat (List.length part_y) - 1)))
    (range d).

(** A dictionary of count blocks as the estimators read it: the same
    keys and blocks, the counts as floats. *)
Definition real_partition (distr : count_partition) : partition :=
  map (fun kv => (fst kv, map (map Q2R) (snd kv))) distr.

(** *** The extrapolation in the words of the specification *)

(** "Add [pseudocount] to its CountDistribution." *)
Definition with_pseudocount (counts : list R) (pseudocount : R) : list R :=
  map (fun c => (c + pseudocount)%R) counts.

(** "Average the d per-block estimates": their sum over their number. *)
Definition average (estimates : list R) : R :=
  (fold_right Rplus 0 estimates / INR (List.length estimates))%R.

(** The blocks a partition holds under the key [d]; none where the key
    is missing. *)
Definition blocks_under (p_dict : partition) (d : Z) : list (list R) :=
  match dict_find p_dict d with
  | Some blocks => blocks
  | None => []
  end.

(** [E(d)] for the entropy: the average over the first [d] blocks under
    the key [d] of the mean entropy, in bits, of block plus
    pseudocount. *)
Definition entropy_estimate (psi : R -> R) (p_dict : partition)
    (pseudocount : R) (d : Z) : R :=
  average
    (map (fun b =>
            (mean_entropy_formula psi (with_pseudocount b pseudocount)
             / ln 2)%R)
       (firstn (Z.to_nat d) (blocks_under p_dict d))).

(** [E(d)] for the KL divergence: the same average of the mean KL
    divergence of the blocks of [p_dict] from those of [q_dict]. *)
Definition kl_estimate (psi : R -> R) (p_dict q_dict : partition)
    (pseudocount : R) (d : Z) : R :=
  average
    (map (fun pq =>
            mean_kl_formula psi (with_pseudocount (fst pq) pseudocount)
              (with_pseudocount (snd pq) pseudocount))
       (combine (firstn (Z.to_nat d) (blocks_under p_dict d))
          (firstn (Z.to_nat d) (blocks_under q_dict d)))).

(** The blocks the loops read hold counts: none is empty and no entry
    is negative. *)
Definition count_blocks (p_dict : partition) : Prop :=
  forall d : Z,
    d = 4%Z \/ d = 2%Z \/ d = 1%Z ->
    Forall (fun b => b <> [] /\ Forall (fun c => (0 <= c)%R) b)
      (firstn (Z.to_nat d) (blocks_under p_dict d)).

(** Block by block, the two partitions have one shape. *)
Definition same_shapes (p_dict q_dict : partition) : Prop :=
  forall d : Z,
    d = 4%Z \/ d = 2%Z \/ d = 1%Z ->
    Forall2 (fun p q => List.length p = List.length q)
      (firstn (Z.to_nat d) (blocks_under p_dict d))
      (firstn (Z.to_nat d) (blocks_under q_dict d)).

(** A [polyfit] for three points and degree 2: the coefficients,
    highest power first, of the quadratic through the points. *)
Definition interpolating_polyfit (xs ys : list R) (deg : nat) : list R :=
  match xs, ys with
  | [x1; x2; x3], [y1; y2; y3] =>
      let c2 := divided_difference_2 x1 x2 x3 y1 y2 y3 in
      let c1 := ((y2 - y1) / (x2 - x1) - c2 * (x1 + x2))%R in
      [c2; c1; (y1 - c2 * x1 * x1 - c1 * x1)%R]
  | _, _ => []
  end.

(** *** float64 arithmetic *)

(** [2^e] for an integer exponent [e]. *)
Definition two_power (e : Z) : Q :=
  if (0 <=? e)%Z then inject_Z (2 ^ e) else 1 # Z.to_pos (2 ^ (- e)).

(** The binade of a positive rational [x]: the [k] with
    [2^k <= x < 2^(k+1)]. *)
Definition binade (x : Q) : Z :=
  let a := (Z.log2 (Qnum x) - Z.log2 (Z.pos (Qden x)))%Z in
  if Qle_bool (two_power a) x then a else (a - 1)%Z.

(** The integer nearest to [y], the even one of two at equal
    distance. *)
Definition round_half_even (y : Q) : Z :=
  let f := Qfloor y in
  match Qcompare (y - inject_Z f) (1 # 2) with
  | Lt => f
  | Gt => (f + 1)%Z
  | Eq => if Z.even f then f else (f + 1)%Z
  end.

(** The float64 nearest to a rational: 53 significant bits, rounding
    to nearest, ties to even.  The range of the exponent (overflow,
    subnormal numbers) is left out. *)
Definition float64_pos (x : Q) : Q :=
  let e := (binade x - 52)%Z in
  Qred (inject_Z (round_half_even (x / two_power e)) * two_power e).

Definition float64 (x : Q) : Q :=
  match Qnum x with
  | Z0 => 0
  | Z.pos _ => float64_pos x
  | Z.neg _ => - float64_pos (- x)
  end.

(** [a.sum()] of a float64 array: every addition rounds.  The entries
    are added from the left; the versions of numpy differ in the order
    of the additions, which the rows considered below do not feel:
    the partial sums of a binary row of at most 53 columns are
    integers below [2^53] in every order, and the rows of 54 columns
    have two entries other than 0. *)
Definition float64_sum (a : list Q) : Q :=
  fold_left (fun acc x => float64 (acc + x)) a 0.

(** Lines 109-120 on an array of dtype float64.  [spikes*pow2] and
    its sum along the rows are float64 arrays: every product and
    every addition rounds to a float64. *)
Definition spikes2states_float64 (spikes : ndarray2) : result (list Q) :=
  if negb (forallb (forallb in_unit_range) (rows spikes))
  then Raise (ValueError "Input array must be binary")
  else
    let nchannels := shape1 spikes in
    let pow2 := pow2 nchannels in
    Ok (map (fun row =>
               float64_sum (zip_with (fun x p => float64 (x * p)) row pow2))
          (rows spikes)).

(** Two binary rows of 54 channels that differ in the last channel
    only. *)
Definition first_and_last_54 : list Q := (1 :: repeat 0 52 ++ [1])%Q.

Definition first_only_54 : list Q := (1 :: repeat 0 53)%Q.

(** The sum of a list of counts. *)
Definition zsum (l : list Z) : Z := fold_right Z.add 0%Z l.

(** ** Properties *)

Example spikes2states_scenario :
  spikes2states (Ndarray2 2 [[0; 0]; [1; 0]; [0; 1]; [1; 1]]%Q)
  = Ok [0; 2; 1; 3]%Q.
Proof. reflexivity. Qed.

Example states2distr_scenario :
  states2distr [0; 2; 1; 3]%Q 2 false = [1; 1; 1; 1]%Q.
Proof. reflexivity. Qed.

Example states2dict_numpy :
  states2dict numpy_globals [0; 1; 1; 0; 1]%Q 1 5 [1; 2; 4]%Z None
  = Ok [(1%Z, [[2; 3]]); (2%Z, [[1; 1]; [1; 1]]);
        (4%Z, [[1; 0]; [0; 1]; [0; 1]; [1; 0]])]%Q.
Proof. vm_compute. reflexivity. Qed.

Example spikes2indep_numpy :
  spikes2indep_dict numpy_globals (Ndarray2 1 [[1]; [1]]%Q) 1 4 [1; 2]%Z
  = Ok [(1%Z, [[0 # 2; 8 # 2]]); (2%Z, [[0 # 2; 4 # 2]; [0 # 2; 4 # 2]])]%Q.
Proof. vm_compute. reflexivity. Qed.

(** *** Histograms *)

Lemma qsum_inject_Z (l : list Z) : qsum (map inject_Z l) = inject_Z (zsum l).
Proof.
  induction l as [|c l IH]; simpl; [reflexivity|].
  now rewrite IH, inject_Z_plus.
Qed.

Lemma in_bin_floor (nbins k : nat) (s : Q) :
  (0 <= s)%Q -> (s < inject_Z (Z.of_nat nbins))%Q -> (k < nbins)%nat ->
  in_bin nbins k s = (Z.of_nat k =? Qfloor s)%Z.
Proof.
  intros H0 Hn Hk. unfold in_bin, Qltb.
  pose proof (Qfloor_le s) as Hfl. pose proof (Qlt_floor s) as Hfu.
  assert (Hle : Qle_bool (inject_Z (Z.of_nat k)) s = (Z.of_nat k <=? Qfloor s)%Z).
  { apply eq_true_iff_eq. rewrite Qle_bool_iff, Z.leb_le. split; intro H.
    - assert (inject_Z (Z.of_nat k) < inject_Z (Qfloor s + 1))%Q as H1
        by (eapply Qle_lt_trans; eauto).
      rewrite <- Zlt_Qlt in H1. lia.
    - eapply Qle_trans; [|exact Hfl]. rewrite <- Zle_Qle. exact H. }
  assert (Hlt : (s < inject_Z (Z.of_nat (S k)))%Q <-> (Qfloor s <= Z.of_nat k)%Z).
  { split; intro H.
    - assert (inject_Z (Qfloor s) < inject_Z (Z.of_nat (S k)))%Q as H1
        by (eapply Qle_lt_trans; eauto).
      rewrite <- Zlt_Qlt in H1. lia.
    - eapply Qlt_le_trans; [exact Hfu|]. rewrite <- Zle_Qle. lia. }
  rewrite Hle.
  assert (Hup : (if (S k =? nbins)%nat
                 then Qle_bool s (inject_Z (Z.of_nat (S k)))
                 else negb (Qle_bool (inject_Z (Z.of_nat (S k))) s))
                = (Qfloor s <=? Z.of_nat k)%Z).
  { apply eq_true_iff_eq. rewrite Z.leb_le, <- Hlt.
    destruct (Nat.eqb_spec (S k) nbins) as [E|E].
    - rewrite Qle_bool_iff. split; intro H; [now rewrite E | now apply Qlt_le_weak].
    - rewrite negb_true_iff, <- not_true_iff_false, Qle_bool_iff.
      split; intro H; [now apply Qnot_le_lt | now apply Qlt_not_le]. }
  rewrite Hup.
  destruct (Z.leb_spec (Z.of_nat k) (Qfloor s)), (Z.leb_spec (Qfloor s) (Z.of_nat k)),
    (Z.eqb_spec (Z.of_nat k) (Qfloor s)); simpl; try reflexivity; lia.
Qed.

Lemma zsum_indicator (k0 : Z) (a n : nat) :
  zsum (map (fun k => if (Z.of_nat k =? k0)%Z then 1%Z else 0%Z) (seq a n))
  = if ((Z.of_nat a <=? k0) && (k0 <? Z.of_nat (a + n)))%Z then 1%Z else 0%Z.
Proof.
  revert a; induction n as [|n IH]; intro a; simpl.
  - destruct (Z.leb_spec (Z.of_nat a) k0), (Z.ltb_spec k0 (Z.of_nat (a + 0)));
      simpl; try reflexivity; lia.
  - rewrite IH.
    destruct (Z.eqb_spec (Z.of_nat a) k0), (Z.leb_spec (Z.of_nat a) k0),
      (Z.leb_spec (Z.of_nat (S a)) k0), (Z.ltb_spec k0 (Z.of_nat (a + S n))),
      (Z.ltb_spec k0 (Z.of_nat (S a + n))); simpl; try reflexivity; lia.
Qed.

Lemma zsum_map_add {A : Type} (f h : A -> Z) (l : list A) :
  zsum (map (fun k => (f k + h k)%Z) l) = (zsum (map f l) + zsum (map h l))%Z.
Proof. induction l as [|x l IH]; simpl; [reflexivity | rewrite IH; lia]. Qed.

Lemma histogram_cons (s : Q) (states : list Q) (nbins : nat) :
  histogram (s :: states) nbins
  = map (fun k => ((if in_bin nbins k s then 1 else 0)
                   + Z.of_nat (List.length (filter (in_bin nbins k) states)))%Z)
      (seq 0 nbins).
Proof.
  unfold histogram. apply map_ext. intro k. cbn [filter].
  destruct (in_bin nbins k s); cbn [List.length];
    rewrite ?Nat2Z.inj_succ; lia.
Qed.

Lemma histogram_total (states : list Q) (nbins : nat) :
  Forall (fun s => 0 <= s /\ s < inject_Z (Z.of_nat nbins))%Q states ->
  zsum (histogram states nbins) = Z.of_nat (List.length states).
Proof.
  induction 1 as [|s states [H0 Hn] _ IH].
  - unfold histogram. simpl. induction (seq 0 nbins); simpl; auto.
  - rewrite histogram_cons, zsum_map_add. fold (histogram states nbins).
    rewrite IH.
    rewrite (map_ext_in _ (fun k => if (Z.of_nat k =? Qfloor s)%Z then 1%Z else 0%Z)).
    2:{ intros k Hk. apply in_seq in Hk. rewrite in_bin_floor by (auto; lia).
        reflexivity. }
    rewrite zsum_indicator.
    assert (0 <= Qfloor s < Z.of_nat nbins)%Z as Hf.
    { split.
      - assert (inject_Z 0 < inject_Z (Qfloor s + 1))%Q as H1
          by (eapply Qle_lt_trans; [exact H0 | apply Qlt_floor]).
        rewrite <- Zlt_Qlt in H1. lia.
      - assert (inject_Z (Qfloor s) < inject_Z (Z.of_nat nbins))%Q as H1
          by (eapply Qle_lt_trans; [apply Qfloor_le | exact Hn]).
        rewrite <- Zlt_Qlt in H1. exact H1. }
    destruct (Z.leb_spec (Z.of_nat 0) (Qfloor s)), (Z.ltb_spec (Qfloor s) (Z.of_nat (0 + nbins)));
      simpl List.length; simpl andb; cbv iota; lia.
Qed.

Lemma histogram_length (states : list Q) (nbins : nat) :
  List.length (histogram states nbins) = nbins.
Proof. unfold histogram. now rewrite length_map, length_seq. Qed.

(** C9: on a state sequence whose values lie in [[0, 2^C)], the
    unnormalised histogram [states2distr states C false] has [2^C]
    entries and they sum exactly to the number of states; a sequence
    of 100 zero states with [C = 3] gives [[100, 0, 0, 0, 0, 0, 0, 0]]. *)
Theorem states2distr_counts_sum (states : list Q) (C : nat) :
  Forall (fun s => 0 <= s /\ s < inject_Z (2 ^ Z.of_nat C))%Q states ->
  List.length (states2distr states C false) = (2 ^ C)%nat
  /\ qsum (states2distr states C false)
     = inject_Z (Z.of_nat (List.length states))
  /\ states2distr (repeat 0%Q 100) 3 false = [100; 0; 0; 0; 0; 0; 0; 0]%Q.
Proof.
  intro H. unfold states2distr. split; [|split].
  - now rewrite length_map, histogram_length.
  - rewrite qsum_inject_Z, histogram_total; [reflexivity|].
    eapply Forall_impl; [|exact H]. intros s [H0 H1]. split; [exact H0|].
    replace (Z.of_nat (2 ^ C)) with (2 ^ Z.of_nat C)%Z; [exact H1|].
    rewrite Nat2Z.inj_pow. reflexivity.
  - vm_compute. reflexivity.
Qed.

Lemma states2distr_counts_sum_witness :
  Forall (fun s => 0 <= s /\ s < inject_Z (2 ^ Z.of_nat 2))%Q [0; 2; 1; 3; 3]%Q
  /\ qsum (states2distr [0; 2; 1; 3; 3]%Q 2 false) = inject_Z 5.
Proof.
  assert (H : Forall (fun s => 0 <= s /\ s < inject_Z (2 ^ Z.of_nat 2))%Q
                [0; 2; 1; 3; 3]%Q).
  { repeat constructor; vm_compute; congruence. }
  split; [exact H|].
  exact (proj1 (proj2 (states2distr_counts_sum _ 2 H))).
Defined.

(** *** The state encoding *)

Lemma pow2_S (n : nat) : pow2 (S n) = inject_Z (2 ^ Z.of_nat n) :: pow2 n.
Proof.
  unfold pow2. rewrite seq_S, rev_app_distr. reflexivity.
Qed.

Lemma row_value_binary (r : list Q) :
  binary_row r ->
  qsum (zip_with Qmult r (pow2 (List.length r)))
  = inject_Z (bits_value (row_bits r)).
Proof.
  induction 1 as [|x r Hx _ IH]; [reflexivity|].
  cbn [List.length]. rewrite pow2_S. cbn [zip_with qsum fold_right].
  fold (qsum (zip_with Qmult r (pow2 (List.length r)))). rewrite IH.
  unfold row_bits. cbn [map bits_value]. rewrite length_map.
  destruct Hx as [-> | ->].
  - change (Qeq_bool 0 1) with false. cbv iota.
    unfold Qplus, Qmult, inject_Z; cbn [Qnum Qden Pos.mul]. f_equal; lia.
  - change (Qeq_bool 1 1) with true. cbv iota.
    unfold Qplus, Qmult, inject_Z; cbn [Qnum Qden Pos.mul]. f_equal; lia.
Qed.

Lemma bits_value_range (bs : list bool) :
  (0 <= bits_value bs < 2 ^ Z.of_nat (List.length bs))%Z.
Proof.
  induction bs as [|b bs IH]; cbn [bits_value List.length]; [lia|].
  rewrite Nat2Z.inj_succ, Z.pow_succ_r by lia.
  destruct b; lia.
Qed.

Lemma testbit_small (a : Z) (n i : nat) :
  (0 <= a < 2 ^ Z.of_nat n)%Z -> (n <= i)%nat ->
  Z.testbit a (Z.of_nat i) = false.
Proof.
  intros Ha Hi. rewrite <- (Z.mod_small a (2 ^ Z.of_nat n)) by exact Ha.
  apply Z.mod_pow2_bits_high. lia.
Qed.

Lemma bits_value_testbit (bs : list bool) (k : nat) :
  (k < List.length bs)%nat ->
  Z.testbit (bits_value bs) (Z.of_nat (List.length bs - 1 - k)) = nth k bs false.
Proof.
  revert k; induction bs as [|b bs IH]; intros k Hk; cbn [List.length] in *; [lia|].
  pose proof (bits_value_range bs) as Hr.
  cbn [bits_value]. destruct k as [|k]; cbn [nth].
  - replace (S (List.length bs) - 1 - 0)%nat with (List.length bs) by lia.
    destruct b.
    + rewrite <- (Z.add_0_l (Z.of_nat (List.length bs))) at 2.
      rewrite <- Z.div_pow2_bits by lia.
      replace (2 ^ Z.of_nat (List.length bs) + bits_value bs)%Z
        with (bits_value bs + 1 * 2 ^ Z.of_nat (List.length bs))%Z by lia.
      rewrite Z.div_add by lia. rewrite Z.div_small by lia. reflexivity.
    + rewrite Z.add_0_l. apply testbit_small with (n := List.length bs); [exact Hr | lia].
  - replace (S (List.length bs) - 1 - S k)%nat with (List.length bs - 1 - k)%nat by lia.
    rewrite <- IH by lia.
    destruct b; [|now rewrite Z.add_0_l].
    rewrite <- (Z.mod_pow2_bits_low _ (Z.of_nat (List.length bs))) by lia.
    replace (2 ^ Z.of_nat (List.length bs) + bits_value bs)%Z
      with (bits_value bs + 1 * 2 ^ Z.of_nat (List.length bs))%Z by lia.
    rewrite Z.mod_add by lia. rewrite Z.mod_small by lia. reflexivity.
Qed.

Lemma list_as_map_nth {A : Type} (d : A) (l : list A) :
  l = map (fun k => nth k l d) (seq 0 (List.length l)).
Proof.
  induction l as [|x l IH]; [reflexivity|].
  cbn [List.length seq map nth]. f_equal.
  rewrite <- seq_shift, map_map. exact IH.
Qed.

Lemma nth_map_seq {A : Type} (f : nat -> A) (d : A) (n k : nat) :
  (k < n)%nat -> nth k (map f (seq 0 n)) d = f k.
Proof.
  intro Hk. rewrite (nth_indep _ d (f 0%nat)) by (rewrite length_map, length_seq; lia).
  rewrite (map_nth f (seq 0 n) 0%nat k), seq_nth by lia. reflexivity.
Qed.

Lemma decode_length (C : nat) (n : Z) : List.length (decode C n) = C.
Proof. unfold decode. now rewrite length_map, length_seq. Qed.

Lemma decode_binary (C : nat) (n : Z) : binary_row (decode C n).
Proof.
  unfold binary_row, decode. apply Forall_forall. intros x Hx.
  apply in_map_iff in Hx. destruct Hx as [k [<- _]].
  destruct (Z.testbit n _); auto.
Qed.

Lemma row_bits_nth (r : list Q) (k : nat) :
  nth k (row_bits r) false = Qeq_bool (nth k r 0%Q) 1.
Proof.
  unfold row_bits. change false with ((fun x => Qeq_bool x 1) 0%Q) at 1.
  apply map_nth.
Qed.

Lemma decode_bits_value (r : list Q) :
  binary_row r -> decode (List.length r) (bits_value (row_bits r)) = r.
Proof.
  intro Hr. rewrite (list_as_map_nth 0%Q r) at 3. unfold decode.
  apply map_ext_in. intros k Hk. apply in_seq in Hk.
  replace (List.length r) with (List.length (row_bits r))
    by (unfold row_bits; apply length_map).
  rewrite bits_value_testbit
    by (unfold row_bits; rewrite length_map; lia).
  rewrite row_bits_nth.
  assert (In (nth k r 0%Q) r) as Hin by (apply nth_In; lia).
  unfold binary_row in Hr. rewrite Forall_forall in Hr.
  destruct (Hr _ Hin) as [-> | ->]; reflexivity.
Qed.

Lemma row_bits_decode (C : nat) (n : Z) :
  row_bits (decode C n)
  = map (fun k => Z.testbit n (Z.of_nat (C - 1 - k))) (seq 0 C).
Proof.
  unfold row_bits, decode. rewrite map_map. apply map_ext. intro k.
  destruct (Z.testbit n _); reflexivity.
Qed.

Lemma bits_value_decode (C : nat) (n : Z) :
  (0 <= n < 2 ^ Z.of_nat C)%Z -> bits_value (row_bits (decode C n)) = n.
Proof.
  intro Hn. apply Z.bits_inj'. intros i Hi.
  pose proof (bits_value_range (row_bits (decode C n))) as Hr.
  assert (List.length (row_bits (decode C n)) = C) as Hlen
      by (unfold row_bits; rewrite length_map; apply decode_length).
  rewrite Hlen in Hr.
  destruct (Z.ltb_spec i (Z.of_nat C)) as [Hlt | Hge].
  - replace i with (Z.of_nat (List.length (row_bits (decode C n)) - 1
                              - (C - 1 - Z.to_nat i))) by (rewrite Hlen; lia).
    rewrite bits_value_testbit by (rewrite Hlen; lia).
    rewrite row_bits_decode.
    rewrite nth_map_seq by lia.
    now rewrite length_map, length_seq.
  - replace i with (Z.of_nat (Z.to_nat i)) by lia.
    rewrite !(testbit_small _ C) by (auto; lia). reflexivity.
Qed.

Lemma spikes2states_binary_row (r : list Q) :
  binary_row r ->
  spikes2states (Ndarray2 (List.length r) [r])
  = Ok [inject_Z (bits_value (row_bits r))].
Proof.
  intro Hr. unfold spikes2states. cbn [rows shape1 forallb map].
  assert (forallb in_unit_range r = true) as ->.
  { apply forallb_forall. intros x Hx. unfold binary_row in Hr.
    rewrite Forall_forall in Hr. destruct (Hr _ Hx) as [-> | ->]; reflexivity. }
  cbn [andb negb]. now rewrite row_value_binary.
Qed.

(** *** The encoder in float64 arithmetic *)

Lemma Qred_inject_Z (n : Z) : Qred (inject_Z n) = inject_Z n.
Proof.
  unfold Qred, inject_Z.
  pose proof (Z.ggcd_correct_divisors n 1) as H.
  pose proof (Z.ggcd_gcd n 1) as Hg.
  destruct (Z.ggcd n 1) as [g [aa bb]]. cbn [fst snd] in *.
  destruct H as [Ha Hb]. rewrite Z.gcd_1_r in Hg. subst g.
  rewrite Z.mul_1_l in Ha, Hb. now subst.
Qed.

Lemma round_half_even_integer (y : Q) (z : Z) :
  y == inject_Z z -> round_half_even y = z.
Proof.
  intro H. unfold round_half_even.
  rewrite (Qfloor_comp _ _ H), Qfloor_Z.
  assert (Qcompare (y - inject_Z z) (1 # 2) = Lt) as ->; [|reflexivity].
  apply Qlt_alt. rewrite H.
  setoid_replace (inject_Z z - inject_Z z) with 0 by ring. reflexivity.
Qed.

Lemma two_power_nonpos (e : Z) :
  (e <= 0)%Z -> two_power e * inject_Z (2 ^ (- e)) == 1.
Proof.
  intro He. unfold two_power. destruct (Z.leb_spec 0 e) as [H|H].
  - replace e with 0%Z by lia. reflexivity.
  - assert (0 < 2 ^ (- e))%Z as Hp by (apply Z.pow_pos_nonneg; lia).
    unfold Qeq, Qmult, inject_Z. cbn [Qnum Qden].
    rewrite Pos.mul_1_r, Z2Pos.id by exact Hp. lia.
Qed.

Lemma binade_integer (m : Z) :
  (0 < m)%Z -> binade (inject_Z m) = Z.log2 m.
Proof.
  intro Hm. unfold binade. cbv zeta. cbn [Qnum Qden inject_Z].
  change (Z.log2 1) with 0%Z. rewrite !Z.sub_0_r.
  assert (Qle_bool (two_power (Z.log2 m)) (inject_Z m) = true) as ->;
    [|reflexivity].
  apply Qle_bool_iff. unfold two_power.
  pose proof (Z.log2_nonneg m) as H0.
  destruct (Z.leb_spec 0 (Z.log2 m)) as [_|H]; [|lia].
  rewrite <- Zle_Qle.
  apply Z.log2_spec. exact Hm.
Qed.

Lemma float64_integer (m : Z) :
  (0 <= m < 2 ^ 53)%Z -> float64 (inject_Z m) = inject_Z m.
Proof.
  intros [H0 H53]. unfold float64. cbn [Qnum inject_Z].
  destruct m as [|p|p]; [reflexivity| |lia].
  change (Z.pos p # 1) with (inject_Z (Z.pos p)).
  unfold float64_pos. rewrite binade_integer by lia.
  set (m := Z.pos p) in *.
  assert (Z.log2 m < 53)%Z as Hk by (apply Z.log2_lt_pow2; lia).
  set (e := (Z.log2 m - 52)%Z). assert (e <= 0)%Z as He by (unfold e; lia).
  pose proof (two_power_nonpos e He) as Htp.
  assert (inject_Z m / two_power e == inject_Z (m * 2 ^ (- e))) as Hy.
  { rewrite inject_Z_mult. rewrite <- (Qmult_1_r (inject_Z m / two_power e)).
    rewrite <- Htp. field. intro E. rewrite E in Htp.
    rewrite Qmult_0_l in Htp. discriminate Htp. }
  rewrite (round_half_even_integer _ _ Hy).
  rewrite <- (Qred_inject_Z m). apply Qred_complete.
  rewrite inject_Z_mult, <- Qmult_assoc, (Qmult_comm _ (two_power e)), Htp.
  apply Qmult_1_r.
Qed.

Lemma float64_bit_product (x : Q) (n : nat) :
  x = 0 \/ x = 1 -> (n < 53)%nat ->
  float64 (x * inject_Z (2 ^ Z.of_nat n))
  = inject_Z (if Qeq_bool x 1 then 2 ^ Z.of_nat n else 0).
Proof.
  intros [-> | ->] Hn.
  - change (Qeq_bool 0 1) with false. cbv iota.
    change 0%Q with (inject_Z 0). rewrite <- inject_Z_mult.
    rewrite Z.mul_0_l. reflexivity.
  - change (Qeq_bool 1 1) with true. cbv iota.
    change 1%Q with (inject_Z 1). rewrite <- inject_Z_mult, Z.mul_1_l.
    apply float64_integer. split; [apply Z.pow_nonneg; lia|].
    apply Z.pow_lt_mono_r; lia.
Qed.

Lemma float64_row_from (r : list Q) :
  binary_row r -> (List.length r <= 53)%nat ->
  forall a : Z,
    (0 <= a)%Z -> (a + 2 ^ Z.of_nat (List.length r) <= 2 ^ 53)%Z ->
    fold_left (fun acc x => float64 (acc + x))
      (zip_with (fun x p => float64 (x * p)) r (pow2 (List.length r)))
      (inject_Z a)
    = inject_Z (a + bits_value (row_bits r)).
Proof.
  induction 1 as [|x r Hx Hr IH]; intros Hlen a Ha Hbound.
  - cbn. now rewrite Z.add_0_r.
  - cbn [List.length] in *. rewrite pow2_S.
    cbn [zip_with fold_left row_bits map bits_value].
    fold (row_bits r).
    rewrite float64_bit_product by (auto; lia).
    rewrite <- inject_Z_plus.
    assert (List.length (row_bits r) = List.length r) as Hl
        by (unfold row_bits; apply length_map).
    rewrite Hl.
    rewrite Nat2Z.inj_succ, Z.pow_succ_r in Hbound by lia.
    assert (0 < 2 ^ Z.of_nat (List.length r))%Z as Hp
        by (apply Z.pow_pos_nonneg; lia).
    set (b := (if Qeq_bool x 1 then 2 ^ Z.of_nat (List.length r) else 0)%Z)
      in *.
    assert (0 <= b <= 2 ^ Z.of_nat (List.length r))%Z as Hb
        by (unfold b; destruct (Qeq_bool x 1); lia).
    rewrite float64_integer by lia.
    rewrite IH by lia. f_equal. lia.
Qed.

Lemma float64_row_value (r : list Q) :
  binary_row r -> (List.length r <= 53)%nat ->
  float64_sum (zip_with (fun x p => float64 (x * p)) r (pow2 (List.length r)))
  = inject_Z (bits_value (row_bits r)).
Proof.
  intros Hr Hlen. unfold float64_sum. change 0%Q with (inject_Z 0).
  rewrite (float64_row_from r Hr Hlen 0); [reflexivity | lia |].
  rewrite Z.add_0_l. apply Z.pow_le_mono_r; lia.
Qed.

Lemma spikes2states_float64_binary_matrix (spikes : ndarray2) :
  rectangular spikes -> Forall binary_row (rows spikes) ->
  (shape1 spikes <= 53)%nat ->
  spikes2states_float64 spikes
  = Ok (map (fun r => inject_Z (bits_value (row_bits r))) (rows spikes)).
Proof.
  intros Hrect Hbin H53. unfold spikes2states_float64.
  assert (forallb (forallb in_unit_range) (rows spikes) = true) as ->.
  { apply forallb_forall. intros row Hr. apply forallb_forall. intros x Hx.
    rewrite Forall_forall in Hbin. specialize (Hbin _ Hr).
    unfold binary_row in Hbin. rewrite Forall_forall in Hbin.
    destruct (Hbin _ Hx) as [-> | ->]; reflexivity. }
  cbn [negb]. f_equal. apply map_ext_in. intros r Hr.
  unfold rectangular in Hrect. rewrite Forall_forall in Hrect, Hbin.
  rewrite <- (Hrect r Hr).
  apply float64_row_value; [now apply Hbin | rewrite (Hrect r Hr); exact H53].
Qed.

Lemma spikes2states_float64_binary_row (r : list Q) :
  binary_row r -> (List.length r <= 53)%nat ->
  spikes2states_float64 (Ndarray2 (List.length r) [r])
  = Ok [inject_Z (bits_value (row_bits r))].
Proof.
  intros Hr Hlen.
  apply (spikes2states_float64_binary_matrix (Ndarray2 (List.length r) [r])).
  - repeat constructor.
  - repeat constructor. exact Hr.
  - exact Hlen.
Qed.

(** C7, as amended: for at most 53 channels, [spikes2states]
    restricted to single binary rows of [C] channels is a bijection
    onto the integers of [[0, 2^C)], in exact arithmetic and in float64
    arithmetic alike: the row maps to the integer [n] whose bit
    [C-1-k] is the row's value at channel [k]; [decode] recovers the
    row from [n]; every [n] of the range is the state of the row
    [decode C n]; and the four rows [[0,0]], [[1,0]], [[0,1]],
    [[1,1]] map to 0, 2, 1, 3. *)
Theorem spikes2states_bijection (C : nat) :
  (C <= 53)%nat ->
  (forall r : list Q,
      binary_row r -> List.length r = C ->
      exists n : Z,
        spikes2states (Ndarray2 C [r]) = Ok [inject_Z n]
        /\ spikes2states_float64 (Ndarray2 C [r]) = Ok [inject_Z n]
        /\ (0 <= n < 2 ^ Z.of_nat C)%Z
        /\ (forall k, (k < C)%nat ->
                      Z.testbit n (Z.of_nat (C - 1 - k))
                      = Qeq_bool (nth k r 0%Q) 1)
        /\ decode C n = r)
  /\ (forall n : Z,
         (0 <= n < 2 ^ Z.of_nat C)%Z ->
         binary_row (decode C n)
         /\ List.length (decode C n) = C
         /\ spikes2states (Ndarray2 C [decode C n]) = Ok [inject_Z n]
         /\ spikes2states_float64 (Ndarray2 C [decode C n])
            = Ok [inject_Z n])
  /\ spikes2states (Ndarray2 2 [[0; 0]; [1; 0]; [0; 1]; [1; 1]]%Q)
     = Ok [0; 2; 1; 3]%Q
  /\ spikes2states_float64 (Ndarray2 2 [[0; 0]; [1; 0]; [0; 1]; [1; 1]]%Q)
     = Ok [0; 2; 1; 3]%Q.
Proof.
  intro H53. split; [|split; [|split]].
  - intros r Hr <-. exists (bits_value (row_bits r)).
    assert (List.length (row_bits r) = List.length r) as Hlen
        by (unfold row_bits; apply length_map).
    split; [now apply spikes2states_binary_row|].
    split; [now apply spikes2states_float64_binary_row|].
    repeat split.
    + pose proof (bits_value_range (row_bits r)); lia.
    + pose proof (bits_value_range (row_bits r)) as H. now rewrite Hlen in H.
    + intros k Hk. rewrite <- Hlen, bits_value_testbit by lia.
      apply row_bits_nth.
    + now apply decode_bits_value.
  - intros n Hn.
    split; [apply decode_binary|]. split; [apply decode_length|]. split.
    + pose proof (spikes2states_binary_row _ (decode_binary C n)) as H.
      rewrite decode_length, bits_value_decode in H by exact Hn. exact H.
    + pose proof (spikes2states_float64_binary_row _ (decode_binary C n))
        as H.
      rewrite decode_length, bits_value_decode in H by exact Hn.
      now apply H.
  - reflexivity.
  - vm_compute. reflexivity.
Qed.

Lemma spikes2states_bijection_witness :
  exists n : Z,
    spikes2states (Ndarray2 3 [[1; 0; 1]%Q]) = Ok [inject_Z n]
    /\ spikes2states_float64 (Ndarray2 3 [[1; 0; 1]%Q]) = Ok [inject_Z n]
    /\ decode 3 n = [1; 0; 1]%Q.
Proof.
  assert (H53 : (3 <= 53)%nat) by lia.
  assert (Hr : binary_row [1; 0; 1]%Q) by (repeat constructor; auto).
  destruct (proj1 (spikes2states_bijection 3 H53) [1; 0; 1]%Q Hr eq_refl)
    as [n [H1 [H2 [_ [_ H3]]]]].
  exists n. repeat split; assumption.
Defined.

(** C7 as stated fails from 54 channels on.  On a float64 array the
    binary rows [[1,0,...,0,1]] and [[1,0,...,0]] of 54 channels both
    encode to [2^53], the sum [2^53 + 1] being no float64: the
    encoding is not injective, and decoding the state of the first row
    gives the second one. *)
Lemma spikes2states_collision_54 :
  binary_row first_and_last_54 /\ binary_row first_only_54
  /\ List.length first_and_last_54 = 54%nat
  /\ List.length first_only_54 = 54%nat
  /\ first_and_last_54 <> first_only_54
  /\ spikes2states_float64 (Ndarray2 54 [first_and_last_54])
     = Ok [inject_Z (2 ^ 53)]
  /\ spikes2states_float64 (Ndarray2 54 [first_only_54])
     = Ok [inject_Z (2 ^ 53)]
  /\ decode 54 (2 ^ 53) = first_only_54.
Proof.
  assert (forall r : list Q,
             forallb (fun x => match Qnum x, Qden x with
                               | 0%Z, 1%positive | 1%Z, 1%positive => true
                               | _, _ => false
                               end) r = true ->
             binary_row r) as Hcheck.
  { intros r H. apply Forall_forall. intros x Hx.
    rewrite forallb_forall in H. specialize (H x Hx).
    destruct x as [[|[p|p|]|p] [d|d|]]; try discriminate H; auto. }
  split; [apply Hcheck; reflexivity|].
  split; [apply Hcheck; reflexivity|].
  split; [reflexivity|]. split; [reflexivity|].
  split.
  { intro H. apply (f_equal (fun l => nth 53 l 0%Q)) in H.
    vm_compute in H. discriminate H. }
  split; [vm_compute; reflexivity|].
  split; [vm_compute; reflexivity|].
  vm_compute. reflexivity.
Qed.

(** *** The direct estimator *)

Section DirectEstimator.

Local Open Scope R_scope.

Lemma ln2_pos : 0 < ln 2.
Proof. pose proof ln_lt_2. lra. Qed.

Lemma count_zeros_positive (p : list R) :
  Forall (fun x => 0 < x) p -> count_zeros p = 0%nat.
Proof.
  unfold count_zeros. induction 1 as [|x p Hx _ IH]; [reflexivity|].
  cbn [filter]. unfold is_zero at 1.
  destruct (Req_dec_T x 0) as [E|_]; [lra | exact IH].
Qed.

Lemma entropy_positive (p : list R) :
  Forall (fun x => 0 < x) p ->
  entropy p = Ok (array_sum (map (fun x => x * log2 x) p)).
Proof.
  intro H. unfold entropy. now rewrite count_zeros_positive.
Qed.

Lemma array_sum_map_repeat (f : R -> R) (c : R) (n : nat) :
  array_sum (map f (repeat c n)) = INR n * f c.
Proof.
  induction n as [|n IH]; [cbn; lra|].
  cbn [repeat map array_sum fold_right]. fold (array_sum (map f (repeat c n))).
  rewrite IH, S_INR. lra.
Qed.

Lemma log2_inv_pow2 (C : nat) : log2 (/ 2 ^ C) = - INR C.
Proof.
  unfold log2. pose proof ln2_pos.
  rewrite ln_Rinv by (apply pow_lt; lra).
  rewrite ln_pow by lra. field. lra.
Qed.

Lemma entropy_uniform (C : nat) : entropy (uniform C) = Ok (- INR C).
Proof.
  assert (0 < 2 ^ C) as Hp by (apply pow_lt; lra).
  rewrite entropy_positive.
  - unfold uniform. rewrite array_sum_map_repeat, log2_inv_pow2, pow_INR.
    f_equal. change (INR 2) with 2. field. lra.
  - unfold uniform. apply Forall_forall. intros x Hx.
    apply repeat_spec in Hx. subst x. now apply Rinv_0_lt_compat.
Qed.

Lemma quarter_uniform : [/ 4; / 4; / 4; / 4] = uniform 2.
Proof.
  unfold uniform. cbn [Nat.pow Nat.mul Nat.add repeat pow].
  replace (2 * (2 * 1)) with 4 by lra. reflexivity.
Qed.

(** C3, as amended: on a strictly positive vector [entropy] returns
    the sum of [p(x) log2 p(x)] itself, which is minus the entropy
    of the specification (the docstring's "negative entropy"); on the
    uniform distribution over [2^C] states it returns [-C], and
    [entropy([0.25, 0.25, 0.25, 0.25])] is [-2]. *)
Theorem entropy_negative_entropy :
  (forall p : list R,
      Forall (fun x => 0 < x) p -> entropy p = Ok (- shannon_entropy p))
  /\ (forall C : nat, entropy (uniform C) = Ok (- INR C))
  /\ entropy [/ 4; / 4; / 4; / 4] = Ok (- 2).
Proof.
  split; [|split].
  - intros p Hp. rewrite entropy_positive by exact Hp.
    unfold shannon_entropy. now rewrite Ropp_involutive.
  - exact entropy_uniform.
  - rewrite quarter_uniform, entropy_uniform. reflexivity.
Qed.

Lemma entropy_negative_entropy_witness :
  entropy [/ 2; / 2] = Ok (- shannon_entropy [/ 2; / 2]).
Proof.
  apply (proj1 entropy_negative_entropy).
  repeat constructor; lra.
Defined.

(** C3 as stated fails: [entropy([0.25, 0.25, 0.25, 0.25])] is [-2],
    while minus the sum of [p(x) log2 p(x)] is [2] there. *)
Lemma entropy_quarter_not_2 :
  entropy [/ 4; / 4; / 4; / 4] = Ok (- 2)
  /\ shannon_entropy [/ 4; / 4; / 4; / 4] = 2
  /\ entropy [/ 4; / 4; / 4; / 4] <> Ok 2.
Proof.
  assert (H : entropy [/ 4; / 4; / 4; / 4] = Ok (- 2))
    by (rewrite quarter_uniform, entropy_uniform; reflexivity).
  split; [exact H|]. split.
  - pose proof H as H'. rewrite entropy_positive in H' by (repeat constructor; lra).
    injection H' as H'. unfold shannon_entropy, array_sum in *.
    cbn [map fold_right] in *. lra.
  - rewrite H. intro E. injection E as E. lra.
Qed.

End DirectEstimator.

(** *** The binary check of the encoder *)

Lemma spikes2states_raises_iff (spikes : ndarray2) :
  spikes2states spikes = Raise (ValueError "Input array must be binary")
  <-> exists row x, In row (rows spikes) /\ In x row
                    /\ ~ (0 <= x /\ x <= 1)%Q.
Proof.
  unfold spikes2states.
  destruct (forallb (forallb in_unit_range) (rows spikes)) eqn:E; cbn [negb].
  - split; [discriminate|]. intros [row [x [Hr [Hx Hn]]]]. exfalso. apply Hn.
    rewrite forallb_forall in E. specialize (E _ Hr).
    rewrite forallb_forall in E. specialize (E _ Hx).
    unfold in_unit_range in E. apply andb_true_iff in E.
    now rewrite !Qle_bool_iff in E.
  - split; [intros _|reflexivity].
    apply not_true_iff_false in E.
    destruct (Exists_dec (fun row => Exists (fun x => in_unit_range x = false) row)
                (rows spikes)) as [H|H].
    + intro row. apply Exists_dec. intro x. destruct (in_unit_range x); [right|left]; congruence.
    + apply Exists_exists in H. destruct H as [row [Hr H]].
      apply Exists_exists in H. destruct H as [x [Hx H]].
      exists row, x. repeat split; auto. intro Hc.
      unfold in_unit_range in H. apply andb_false_iff in H.
      rewrite <- !not_true_iff_false, !Qle_bool_iff in H. tauto.
    + exfalso. apply E. apply forallb_forall. intros row Hr.
      apply forallb_forall. intros x Hx.
      destruct (in_unit_range x) eqn:Ex; [reflexivity|].
      exfalso. apply H. apply Exists_exists. exists row. split; [exact Hr|].
      apply Exists_exists. exists x. auto.
Qed.

Lemma spikes2states_binary_returns (spikes : ndarray2) :
  Forall binary_row (rows spikes) ->
  exists states, spikes2states spikes = Ok states.
Proof.
  intro H. unfold spikes2states.
  assert (forallb (forallb in_unit_range) (rows spikes) = true) as ->.
  { apply forallb_forall. intros row Hr. apply forallb_forall. intros x Hx.
    rewrite Forall_forall in H. specialize (H _ Hr). unfold binary_row in H.
    rewrite Forall_forall in H. destruct (H _ Hx) as [-> | ->]; reflexivity. }
  cbn [negb]. eauto.
Qed.

(** C6, the failing input: the one-row matrix [[[0.5]]] holds an
    element that is neither 0 nor 1, passes the range check
    [0 <= x <= 1] and is encoded as the state [0.5]; no [ValueError]
    is raised. *)
Theorem spikes2states_accepts_fraction :
  spikes2states (Ndarray2 1 [[1 # 2]%Q]) = Ok [1 # 2]%Q
  /\ ~ (1 # 2 == 0)%Q /\ ~ (1 # 2 == 1)%Q.
Proof.
  split; [reflexivity|]. split; intro H; discriminate H.
Qed.

(** *** Exceptions and loops *)

Lemma bind_raise_inv {A B : Type} (m : result A) (k : A -> result B) (e : exn) :
  bind m k = Raise e ->
  m = Raise e \/ exists a, m = Ok a /\ k a = Raise e.
Proof.
  destruct m as [a|e']; cbn; intro H; [right; eauto|].
  left. injection H as ->. reflexivity.
Qed.

Lemma mapM_raise_in {A B : Type} (f : A -> result B) (l : list A) (x : A) :
  In x l -> returns (f x) = false -> returns (mapM f l) = false.
Proof.
  induction l as [|y l IH]; intros Hin Hx; [destruct Hin|].
  cbn [mapM]. destruct Hin as [-> | Hin].
  - destruct (f x); [discriminate | reflexivity].
  - destruct (f y); [|reflexivity]. cbn [bind].
    specialize (IH Hin Hx). destruct (mapM f l); [discriminate | reflexivity].
Qed.

Lemma mapM_raise_inv {A B : Type} (P : exn -> Prop) (f : A -> result B)
    (l : list A) :
  (forall x e, In x l -> f x = Raise e -> P e) ->
  forall e, mapM f l = Raise e -> P e.
Proof.
  induction l as [|y l IH]; intros Hf e H; [discriminate|].
  cbn [mapM] in H. apply bind_raise_inv in H. destruct H as [H | [b [_ H]]].
  - eapply Hf; [left; reflexivity | exact H].
  - apply bind_raise_inv in H. destruct H as [H | [bs [_ H]]]; [|discriminate].
    eapply IH; [|exact H]. intros x e' Hx. apply Hf. now right.
Qed.

Lemma returns_false_raise {A : Type} (m : result A) :
  returns m = false -> exists e, m = Raise e.
Proof. destruct m; [discriminate | eauto]. Qed.

Lemma fold_left_raise {A B : Type} (step : result A -> B -> result A)
    (l : list B) (e : exn) :
  (forall b, step (Raise e) b = Raise e) ->
  fold_left step l (Raise e) = Raise e.
Proof. intro H. induction l as [|b l IH]; cbn; [reflexivity | now rewrite H]. Qed.

(** *** Unbound names *)

Section UnboundNames.

Variable digamma : R -> R.
Variable polyfit : list R -> list R -> nat -> list R.



Lemma kl_estimation_unbound (p_dict q_dict : partition) (npoints : Z)
    (alpha : R) (Ns : option (list R)) :
  kl_estimation module_globals digamma polyfit p_dict q_dict npoints alpha Ns
  = Raise (NameError "array").
Proof. reflexivity. Qed.

Lemma h_estimation_unbound (p_dict : partition) (npoints : Z)
    (alpha : R) (Ns : option (list R)) :
  h_estimation module_globals digamma polyfit p_dict npoints alpha Ns
  = Raise (NameError "array").
Proof. reflexivity. Qed.

End UnboundNames.


(** *** Building the dictionary of blocks *)

Section BuildDict.

Variable mk : Z -> list (list Q).

Let step (acc : result count_partition) (d : Z) : result count_partition :=
  bind acc (fun distr =>
    bind (if (d =? 0)%Z then Raise ZeroDivisionError else Ok tt)
      (fun _ => Ok (dict_set distr d (mk d)))).

Lemma build_ok (fractions : list Z) (init : count_partition) :
  ~ In 0%Z fractions ->
  fold_left step fractions (Ok init)
  = Ok (fold_left (fun acc d => dict_set acc d (mk d)) fractions init).
Proof.
  revert init; induction fractions as [|d fr IH]; intros init H0; [reflexivity|].
  cbn [fold_left]. unfold step at 2. cbn [bind].
  destruct (Z.eqb_spec d 0) as [->|_]; [exfalso; apply H0; now left|].
  cbn [bind]. apply IH. intro H. apply H0. now right.
Qed.

Lemma build_zero (fractions : list Z) (init : count_partition) :
  In 0%Z fractions ->
  fold_left step fractions (Ok init) = Raise ZeroDivisionError.
Proof.
  revert init; induction fractions as [|d fr IH]; intros init H0; [destruct H0|].
  cbn [fold_left]. unfold step at 2. cbn [bind].
  destruct (Z.eqb_spec d 0) as [->|Hd].
  - cbn [bind]. now apply fold_left_raise.
  - cbn [bind]. apply IH. destruct H0 as [H0|H0]; [congruence | exact H0].
Qed.

Lemma dict_find_set {V : Type} (d : dict V) (k k' : Z) (v : V) :
  dict_find (dict_set d k v) k'
  = if (k' =? k)%Z then Some v else dict_find d k'.
Proof.
  induction d as [|[k0 v0] d IH]; cbn [dict_set dict_find].
  - reflexivity.
  - destruct (Z.eqb_spec k k0) as [->|Hk]; cbn [dict_find].
    + destruct (Z.eqb_spec k' k0); reflexivity.
    + rewrite IH. destruct (Z.eqb_spec k' k0) as [->|_]; [|reflexivity].
      destruct (Z.eqb_spec k0 k); [congruence | reflexivity].
Qed.

Lemma dict_find_build (fractions : list Z) (init : count_partition) (k : Z) :
  dict_find (fold_left (fun acc d => dict_set acc d (mk d)) fractions init) k
  = if existsb (Z.eqb k) fractions then Some (mk k) else dict_find init k.
Proof.
  revert init; induction fractions as [|d fr IH]; intro init; [reflexivity|].
  cbn [fold_left existsb]. rewrite IH, dict_find_set.
  destruct (existsb (Z.eqb k) fr); [now rewrite orb_true_r|].
  rewrite orb_false_r. destruct (Z.eqb_spec k d) as [->|_]; reflexivity.
Qed.

End BuildDict.

Lemma existsb_eqb_In (k : Z) (l : list Z) :
  existsb (Z.eqb k) l = true <-> In k l.
Proof.
  rewrite existsb_exists. split.
  - intros [x [Hx E]]. apply Z.eqb_eq in E. now subst.
  - intro H. exists k. split; [exact H | apply Z.eqb_refl].
Qed.


Lemma check_no_control (g : globals) (distr : count_partition) (npoints : Z) :
  dict_mem distr 2 = false -> dict_mem distr 4 = false ->
  _check_dict_consistency g distr npoints = Ok tt.
Proof.
  intros H2 H4. unfold _check_dict_consistency. now rewrite H2, H4.
Qed.

Lemma states2dict_unfold (g : globals) (all_y ys : list Q) (nchannels : nat)
    (npoints : Z) (fractions : list Z) (shuffle : option (list nat)) :
  shuffled all_y shuffle = Ok ys ->
  states2dict g all_y nchannels npoints fractions shuffle
  = states2dict g ys nchannels npoints fractions None.
Proof. intro H. unfold states2dict. rewrite H. reflexivity. Qed.

(** The blocks [states2dict] stores under the key [d]. *)
Lemma states2dict_structure (g : globals) (all_y : list Q) (nchannels : nat)
    (npoints : Z) (fractions : list Z) :
  ~ In 0%Z fractions ->
  exists distr : count_partition,
    (forall k, dict_find distr k
               = if existsb (Z.eqb k) fractions
                 then Some (map (fun i =>
                                   states2distr
                                     (slice all_y (i * (npoints / k))
                                        ((i + 1) * (npoints / k)))
                                     nchannels false) (range k))
                 else None)
    /\ states2dict g all_y nchannels npoints fractions None
       = bind (_check_dict_consistency g distr npoints) (fun _ => Ok distr).
Proof.
  intro H0.
  set (mk := fun d : Z =>
               map (fun i =>
                      states2distr
                        (slice all_y (i * (npoints / d)) ((i + 1) * (npoints / d)))
                        nchannels false) (range d)).
  exists (fold_left (fun acc d => dict_set acc d (mk d)) fractions []).
  split.
  - intro k. rewrite dict_find_build. reflexivity.
  - unfold states2dict. cbn [shuffled bind].
    pose proof (build_ok mk fractions [] H0) as Hb. cbv beta zeta in Hb.
    match goal with
    | |- bind ?r ?k = _ =>
        transitivity
          (bind (Ok (fold_left (fun acc d => dict_set acc d (mk d)) fractions []))
             k)
    end; [|reflexivity].
    f_equal. exact Hb.
Qed.







(** *** The Bayesian estimator of the entropy *)

Section BayesianEstimator.

Local Open Scope R_scope.

Variable digamma : R -> R.

Lemma mean_H_estimate_bound (g : globals) (alpha : list R) :
  bound g "log" = true ->
  mean_H_estimate g digamma alpha
  = Ok (mean_entropy_formula digamma alpha / ln 2).
Proof.
  intro H. unfold mean_H_estimate, lookup_name. rewrite H. reflexivity.
Qed.

Lemma array_sum_nonneg (l : list R) :
  Forall (fun x => 0 <= x) l -> 0 <= array_sum l.
Proof.
  induction 1 as [|x l Hx _ IH]; cbn [array_sum fold_right]; [lra|].
  fold (array_sum l). lra.
Qed.

Lemma array_sum_pos (l : list R) :
  l <> [] -> Forall (fun x => 0 < x) l -> 0 < array_sum l.
Proof.
  intros Hne H. destruct H as [|x l Hx Hl]; [congruence|].
  cbn [array_sum fold_right]. fold (array_sum l).
  assert (0 <= array_sum l)
    by (apply array_sum_nonneg; eapply Forall_impl; [|exact Hl]; cbv beta; intros; lra).
  lra.
Qed.

Lemma weighted_sum_le (f : R -> R) (M : R) (l : list R) :
  Forall (fun a => 0 < a /\ f a <= M) l ->
  array_sum (map (fun a => a * f a) l) <= array_sum l * M.
Proof.
  induction 1 as [|a l [Ha Hf] _ IH]; cbn [map array_sum fold_right]; [lra|].
  fold (array_sum l). fold (array_sum (map (fun a => a * f a) l)).
  assert (a * f a <= a * M) by (apply Rmult_le_compat_l; lra). lra.
Qed.

Lemma In_le_array_sum (l : list R) (a : R) :
  Forall (fun x => 0 < x) l -> In a l -> a <= array_sum l.
Proof.
  induction 1 as [|x l Hx Hl IH]; intro Hin; [destruct Hin|].
  cbn [array_sum fold_right]. fold (array_sum l).
  assert (0 <= array_sum l)
    by (apply array_sum_nonneg; eapply Forall_impl; [|exact Hl]; cbv beta; intros; lra).
  destruct Hin as [->|Hin]; [lra|]. specialize (IH Hin). lra.
Qed.

Lemma mean_entropy_formula_nonpos (alpha : list R) :
  nondecreasing_on_positive digamma ->
  alpha <> [] -> Forall (fun a => 0 < a) alpha ->
  mean_entropy_formula digamma alpha <= 0.
Proof.
  intros Hmono Hne Hpos. unfold mean_entropy_formula.
  pose proof (array_sum_pos _ Hne Hpos) as H0.
  assert (array_sum (map (fun a => a * digamma (a + 1)) alpha)
          <= array_sum alpha * digamma (array_sum alpha + 1)) as Hle.
  { apply weighted_sum_le. apply Forall_forall. intros a Ha.
    rewrite Forall_forall in Hpos. pose proof (Hpos a Ha) as Hap.
    split; [exact Hap|]. apply Hmono; [lra|].
    pose proof (In_le_array_sum _ a (proj2 (Forall_forall _ _) Hpos) Ha). lra. }
  apply Rle_minus.
  apply Rmult_le_reg_r with (r := array_sum alpha); [exact H0|].
  unfold Rdiv. rewrite Rmult_assoc, Rinv_l by lra. lra.
Qed.

End BayesianEstimator.

Section EntropySign.

Local Open Scope R_scope.

Lemma plogp_nonpos (x : R) : 0 <= x <= 1 -> x * log2 x <= 0.
Proof.
  intros [H0 H1]. pose proof ln2_pos.
  destruct (Req_dec_T x 0) as [->|Hx]; [lra|].
  assert (ln x <= 0).
  { destruct (Req_dec_T x 1) as [->|Hx1]; [rewrite ln_1; lra|].
    rewrite <- ln_1. apply Rlt_le, ln_increasing; lra. }
  assert (log2 x <= 0).
  { unfold log2, Rdiv. rewrite <- (Rmult_0_l (/ ln 2)).
    apply Rmult_le_compat_r; [|assumption].
    apply Rlt_le, Rinv_0_lt_compat; assumption. }
  rewrite <- (Rmult_0_r x). apply Rmult_le_compat_l; assumption.
Qed.

Lemma In_le_array_sum_nonneg (l : list R) (a : R) :
  Forall (fun x => 0 <= x) l -> In a l -> a <= array_sum l.
Proof.
  induction 1 as [|x l Hx Hl IH]; intro Hin; [destruct Hin|].
  cbn [array_sum fold_right]. fold (array_sum l).
  pose proof (array_sum_nonneg _ Hl).
  destruct Hin as [->|Hin]; [lra|]. specialize (IH Hin). lra.
Qed.

Lemma shannon_entropy_nonneg (p : list R) :
  probability_vector p -> 0 <= shannon_entropy p.
Proof.
  intros [Hpos Hsum]. unfold shannon_entropy.
  assert (Forall (fun x => 0 <= x <= 1) p) as Hb.
  { apply Forall_forall. intros x Hx. split.
    - rewrite Forall_forall in Hpos. now apply Hpos.
    - rewrite <- Hsum. now apply In_le_array_sum_nonneg. }
  clear Hpos Hsum.
  assert (array_sum (map (fun x => x * log2 x) p) <= 0); [|lra].
  induction Hb as [|x l Hx _ IH]; cbn [map array_sum fold_right]; [lra|].
  fold (array_sum (map (fun x => x * log2 x) l)).
  pose proof (plogp_nonpos _ Hx). lra.
Qed.

Lemma mean_entropy_formula_1_1 (digamma : R -> R) :
  digamma_recurrence digamma ->
  mean_entropy_formula digamma [1; 1] = - / 2.
Proof.
  intro Hrec. unfold mean_entropy_formula, array_sum. cbn [map fold_right].
  replace (1 + (1 + 0) + 1) with ((1 + 1) + 1) by lra.
  rewrite (Hrec (1 + 1)) by lra. field.
Qed.

(** C1, as amended: whenever the name [log] is bound, on every
    strictly positive, non-empty [alpha] [mean_H_estimate] returns the
    closed form (the sum of [alpha[x] psi(alpha[x]+1)] over [alpha0],
    minus [psi(alpha0+1)]) divided by [ln 2]; [psi] being nondecreasing
    on the positive reals, as the digamma function is, this value is
    never positive: it estimates the docstring's negative entropy. *)
Theorem mean_H_estimate_closed_form (g : globals) (digamma : R -> R)
    (alpha : list R) :
  bound g "log" = true ->
  nondecreasing_on_positive digamma ->
  alpha <> [] -> Forall (fun a => 0 < a) alpha ->
  mean_H_estimate g digamma alpha
  = Ok (mean_entropy_formula digamma alpha / ln 2)
  /\ mean_entropy_formula digamma alpha / ln 2 <= 0.
Proof.
  intros Hg Hmono Hne Hpos. split.
  - now apply mean_H_estimate_bound.
  - pose proof (mean_entropy_formula_nonpos _ _ Hmono Hne Hpos) as H.
    pose proof ln2_pos as Hl.
    unfold Rdiv. rewrite <- (Rmult_0_l (/ ln 2)).
    apply Rmult_le_compat_r; [|exact H].
    apply Rlt_le, Rinv_0_lt_compat; exact Hl.
Qed.

Lemma mean_H_estimate_closed_form_witness :
  mean_H_estimate numpy_globals (fun x => x) [1; 1]
  = Ok (mean_entropy_formula (fun x => x) [1; 1] / ln 2)
  /\ mean_entropy_formula (fun x => x) [1; 1] / ln 2 <= 0.
Proof.
  apply (mean_H_estimate_closed_form numpy_globals (fun x => x) [1; 1]).
  - reflexivity.
  - intros x y _ H. exact H.
  - discriminate.
  - repeat constructor; lra.
Defined.

(** C1 as stated fails at [alpha = [1, 1]]: in the module as it is the
    call raises [NameError]; and once [log] is bound, with any [psi]
    that satisfies the recurrence [psi(x+1) = psi(x) + 1/x] of the
    digamma function, the value returned is [-1/(2 ln 2)], which lies
    strictly below the entropy [-sum p log2 p] of every probability
    vector, so it is the mean of no family of entropies. *)
Lemma mean_H_estimate_not_posterior_entropy :
  (forall digamma,
      mean_H_estimate module_globals digamma [1; 1] = Raise (NameError "log"))
  /\ (forall digamma,
         digamma_recurrence digamma ->
         mean_H_estimate numpy_globals digamma [1; 1]
         = Ok (- / 2 / ln 2))
  /\ (forall p, probability_vector p -> - / 2 / ln 2 < shannon_entropy p).
Proof.
  split; [|split].
  - intro digamma. reflexivity.
  - intros digamma Hrec. rewrite mean_H_estimate_bound by reflexivity.
    now rewrite mean_entropy_formula_1_1.
  - intros p Hp. pose proof (shannon_entropy_nonneg _ Hp) as H.
    pose proof ln2_pos as Hl.
    assert (0 < / 2 / ln 2).
    { unfold Rdiv. apply Rmult_lt_0_compat; [lra|].
      now apply Rinv_0_lt_compat. }
    lra.
Qed.

End EntropySign.

(** *** The extrapolation and its failures *)






Section Extrapolation.

Variable g : globals.
Variable digamma : R -> R.
Variable polyfit : list R -> list R -> nat -> list R.










End Extrapolation.







(** *** What the extrapolation computes once the names are bound *)

Lemma mapM_ext_in {A B : Type} (f f' : A -> result B) (l : list A) :
  (forall x, In x l -> f x = f' x) -> mapM f l = mapM f' l.
Proof.
  induction l as [|x l IH]; intro H; [reflexivity|].
  cbn [mapM]. rewrite (H x) by (now left).
  rewrite IH; [reflexivity|]. intros y Hy. apply H. now right.
Qed.

Lemma mapM_map {A A' B : Type} (f : A' -> result B) (h : A -> A') (l : list A) :
  mapM f (map h l) = mapM (fun x => f (h x)) l.
Proof.
  induction l as [|x l IH]; [reflexivity|]. cbn [map mapM]. now rewrite IH.
Qed.

Lemma mapM_Ok {A B : Type} (h : A -> B) (l : list A) :
  mapM (fun x => Ok (h x)) l = Ok (map h l).
Proof.
  induction l as [|x l IH]; [reflexivity|]. cbn [map mapM bind]. now rewrite IH.
Qed.

Lemma mapM_list_get {A B : Type} (k : A -> result B) (l : list A) (n : nat) :
  (n <= List.length l)%nat ->
  mapM (fun i => bind (list_get l i) k) (seq 0 n) = mapM k (firstn n l).
Proof.
  revert n; induction l as [|x l IH]; intros n Hn.
  - cbn [List.length] in Hn. replace n with 0%nat by lia. reflexivity.
  - destruct n as [|n]; [reflexivity|].
    cbn [seq firstn mapM list_get nth_error bind].
    rewrite <- seq_shift, mapM_map. cbn [List.length] in Hn.
    rewrite <- (IH n) by lia. reflexivity.
Qed.

Section ExtrapolationValue.

Variable g : globals.
Variable digamma : R -> R.
Variable polyfit : list R -> list R -> nat -> list R.

Hypothesis log_bound : bound g "log" = true.
Hypothesis array_bound : bound g "array" = true.
Hypothesis zeros_bound : bound g "zeros" = true.

Lemma h_blocks_value (p_dict : partition) (alpha : R) (d : Z) :
  (exists blocks, dict_find p_dict d = Some blocks
                  /\ (Z.to_nat d <= List.length blocks)%nat) ->
  mapM (h_block g digamma p_dict alpha d) (seq 0 (Z.to_nat d))
  = Ok (block_entropies digamma p_dict alpha d).
Proof.
  intros [blocks [Hfind Hlen]]. unfold block_entropies. rewrite Hfind.
  rewrite (mapM_ext_in _
             (fun i => bind (list_get blocks i)
                         (fun b => Ok (mean_entropy_formula digamma
                                         (add_scalar b alpha) / ln 2)%R))).
  - rewrite mapM_list_get by exact Hlen. apply mapM_Ok.
  - intros i _. unfold h_block, block, dict_get. rewrite Hfind. cbn [bind].
    destruct (list_get blocks i) as [b|e]; [|reflexivity]. cbn [bind].
    now apply mean_H_estimate_bound.
Qed.

(** With [log], [array] and [zeros] bound and every key of 4, 2, 1
    holding its blocks, [h_estimation] returns the first coefficient
    (that of the square) of the degree-2 [polyfit] of the points
    [(N_d, N_d^2 E(d))], [E(d)] being the mean of the closed form over
    the [d] blocks plus the pseudocount, and [N_d] the caller's sizes or
    the integer quotient of [npoints] by [d]. *)
Lemma h_estimation_value (p_dict : partition) (npoints : Z) (alpha : R)
    (Ns : option (list R)) :
  has_blocks p_dict ->
  h_estimation g digamma polyfit p_dict npoints alpha Ns
  = list_get
      (polyfit (sample_sizes npoints Ns)
         (fit_targets (sample_sizes npoints Ns)
            (map (fun d => array_mean (block_entropies digamma p_dict alpha d))
               ns))
         2) 0.
Proof.
  intro Hb. unfold h_estimation, lookup_name.
  rewrite array_bound, zeros_bound. cbn [bind].
  rewrite (mapM_ext_in _
             (fun d => Ok (array_mean (block_entropies digamma p_dict alpha d)))).
  - rewrite mapM_Ok. reflexivity.
  - intros d Hd. rewrite h_blocks_value by (apply Hb; exact Hd). reflexivity.
Qed.

End ExtrapolationValue.

(** The default sample sizes are integer quotients: 5 points give the
    sizes 1, 2 and 5. *)
Lemma sample_sizes_default (npoints : Z) :
  sample_sizes npoints None
  = [IZR (npoints / 4); IZR (npoints / 2); IZR (npoints / 1)].
Proof. reflexivity. Qed.

(** *** Slices and the blocks of a partition *)

Lemma firstn_add {A : Type} (m k : nat) (l : list A) :
  firstn (m + k) l = firstn m l ++ firstn k (skipn m l).
Proof.
  revert l; induction m as [|m IH]; intro l; [reflexivity|].
  destruct l as [|x l]; cbn [Nat.add firstn skipn app].
  - now rewrite firstn_nil.
  - now rewrite IH.
Qed.


Lemma slice_nonneg {A : Type} (l : list A) (a b : Z) :
  (0 <= a <= b)%Z ->
  slice l a b
  = firstn (Nat.min (Z.to_nat b) (List.length l)
            - Nat.min (Z.to_nat a) (List.length l))
      (skipn (Nat.min (Z.to_nat a) (List.length l)) l).
Proof.
  intro H. unfold slice, slice_bound.
  destruct (Z.ltb_spec a 0); [lia|]. destruct (Z.ltb_spec b 0); [lia|].
  f_equal; [|f_equal]; lia.
Qed.

Lemma slice_app {A : Type} (l : list A) (a b c : Z) :
  (0 <= a <= b)%Z -> (b <= c)%Z ->
  slice l a b ++ slice l b c = slice l a c.
Proof.
  intros Hab Hbc. rewrite !slice_nonneg by lia.
  set (n := List.length l).
  set (ta := Nat.min (Z.to_nat a) n). set (tb := Nat.min (Z.to_nat b) n).
  set (tc := Nat.min (Z.to_nat c) n).
  assert (ta <= tb <= tc)%nat as Ht by (subst ta tb tc; lia).
  replace (tc - ta)%nat with ((tb - ta) + (tc - tb))%nat by lia.
  rewrite firstn_add, skipn_skipn.
  replace (tb - ta + ta)%nat with tb by lia. reflexivity.
Qed.

Lemma slice_empty {A : Type} (l : list A) (a : Z) :
  (0 <= a)%Z -> slice l a a = [].
Proof.
  intro H. rewrite slice_nonneg by lia. now rewrite Nat.sub_diag.
Qed.

Lemma slice_prefix {A : Type} (l : list A) (b : Z) :
  (0 <= b)%Z -> slice l 0 b = firstn (Z.to_nat b) l.
Proof.
  intro H. rewrite slice_nonneg by lia. cbn [Z.to_nat Nat.min skipn].
  rewrite Nat.sub_0_r. destruct (Nat.le_ge_cases (Z.to_nat b) (List.length l)).
  - now rewrite Nat.min_l.
  - rewrite Nat.min_r by assumption. now rewrite !firstn_all2.
Qed.

Lemma zip_with_map_seq {A B C : Type} (f : A -> B -> C) (h : nat -> A)
    (k : nat -> B) (l : list nat) :
  zip_with f (map h l) (map k l) = map (fun i => f (h i) (k i)) l.
Proof.
  induction l as [|x l IH]; [reflexivity|]. cbn [map zip_with]. now rewrite IH.
Qed.

Lemma states2distr_app (l1 l2 : list Q) (C : nat) :
  states2distr (l1 ++ l2) C false
  = vadd (states2distr l1 C false) (states2distr l2 C false).
Proof.
  unfold states2distr, histogram, vadd. rewrite !map_map, zip_with_map_seq.
  apply map_ext. intro k.
  rewrite filter_app, length_app, Nat2Z.inj_add. apply inject_Z_plus.
Qed.

Lemma map_const_seq {A : Type} (c : A) (s n : nat) :
  map (fun _ => c) (seq s n) = repeat c n.
Proof.
  revert s; induction n as [|n IH]; intro s; [reflexivity|].
  cbn [seq map repeat]. now rewrite IH.
Qed.




Lemma nth_error_seq (s len i : nat) :
  (i < len)%nat -> nth_error (seq s len) i = Some (s + i)%nat.
Proof.
  revert s i; induction len as [|len IH]; intros s i H; [lia|].
  destruct i as [|i]; cbn [seq nth_error]; [now rewrite Nat.add_0_r|].
  rewrite IH by lia. f_equal. lia.
Qed.

Lemma states2dict_zero (g : globals) (all_y : list Q) (nchannels : nat)
    (npoints : Z) (fractions : list Z) :
  In 0%Z fractions ->
  states2dict g all_y nchannels npoints fractions None
  = Raise ZeroDivisionError.
Proof.
  intro H0. unfold states2dict. cbn [shuffled bind].
  pose proof (build_zero (blocks_of all_y nchannels npoints) fractions [] H0)
    as Hb.
  match goal with
  | |- bind ?r ?k = _ => transitivity (bind (Raise ZeroDivisionError) k)
  end; [|reflexivity].
  f_equal. exact Hb.
Qed.

Lemma states2dict_returned (g : globals) (ys : list Q) (nchannels : nat)
    (npoints : Z) (fractions : list Z) (distr : count_partition) :
  states2dict g ys nchannels npoints fractions None = Ok distr ->
  forall k, dict_find distr k
            = if existsb (Z.eqb k) fractions
              then Some (blocks_of ys nchannels npoints k)
              else None.
Proof.
  intro H. destruct (in_dec Z.eq_dec 0%Z fractions) as [H0|H0].
  - rewrite states2dict_zero in H by exact H0. discriminate H.
  - destruct (states2dict_structure g ys nchannels npoints _ H0)
      as [distr' [Hfind Heq]].
    rewrite Heq in H.
    destruct (_check_dict_consistency g distr' npoints); [|discriminate H].
    cbn [bind] in H. injection H as <-. exact Hfind.
Qed.

Lemma blocks_of_length (ys : list Q) (C : nat) (npoints d : Z) :
  List.length (blocks_of ys C npoints d) = Z.to_nat d.
Proof. unfold blocks_of, range. now rewrite !length_map, length_seq. Qed.



Lemma qsum_states2distr (states : list Q) (C : nat) :
  states_in_range C states ->
  qsum (states2distr states C false)
  = inject_Z (Z.of_nat (List.length states)).
Proof.
  intro H. unfold states2distr. rewrite qsum_inject_Z, histogram_total;
    [reflexivity|].
  eapply Forall_impl; [|exact H]. intros s [H0 H1]. split; [exact H0|].
  now rewrite Nat2Z.inj_pow.
Qed.

Lemma states_in_range_firstn (C n : nat) (states : list Q) :
  states_in_range C states -> states_in_range C (firstn n states).
Proof.
  unfold states_in_range. intro H.
  rewrite <- (firstn_skipn n states) in H. apply Forall_app in H. apply H.
Qed.




(** *** The independent model *)

Lemma qsum_binary_column (rs : list (list Q)) (k : nat) :
  Forall binary_row rs ->
  qsum (map (fun row => nth k row 0%Q) rs)
  = inject_Z
      (Z.of_nat
         (List.length (filter (fun row => Qeq_bool (nth k row 0%Q) 1) rs))).
Proof.
  induction 1 as [|row rs Hrow _ IH]; [reflexivity|].
  cbn [map qsum fold_right filter].
  change (fold_right Qplus 0%Q ?l) with (qsum l). rewrite IH.
  assert (nth k row 0%Q = 0%Q \/ nth k row 0%Q = 1%Q) as Hx.
  { destruct (Nat.lt_ge_cases k (List.length row)) as [Hk|Hk].
    - unfold binary_row in Hrow. rewrite Forall_forall in Hrow.
      apply Hrow. now apply nth_In.
    - left. now apply nth_overflow. }
  destruct Hx as [-> | ->].
  - change (Qeq_bool 0 1) with false. cbv iota.
    unfold Qplus, inject_Z; cbn [Qnum Qden Pos.mul Z.mul]. f_equal. lia.
  - change (Qeq_bool 1 1) with true. cbv iota. cbn [List.length].
    rewrite Nat2Z.inj_succ.
    unfold Qplus, inject_Z; cbn [Qnum Qden Pos.mul]. f_equal. lia.
Qed.

Section IndependentModel.

Variable g : globals.
Variable spikes : ndarray2.
Variable nchannels : nat.
Variable npoints : Z.

Hypothesis binary_spikes : Forall binary_row (rows spikes).
Hypothesis channels : (nchannels <= shape1 spikes)%nat.

Let p1 : list Q :=
  map (fun k =>
         (qsum (map (fun row => nth k row 0%Q) (rows spikes))
          / inject_Z (Z.of_nat (shape0 spikes)))%Q)
    (seq 0 (shape1 spikes)).

Lemma p1_get (k : nat) :
  (k < nchannels)%nat ->
  list_get p1 k = Ok (marginal (Z.of_nat (shape0 spikes)) spikes k).
Proof.
  intro Hk. unfold list_get, p1.
  erewrite map_nth_error; [|apply nth_error_seq; lia].
  cbn [Nat.add]. unfold marginal, count_ones.
  now rewrite qsum_binary_column.
Qed.

Lemma indep_distr_value :
  mapM (fun s =>
          bind (mapM (fun k =>
                        bind (list_get p1 k)
                          (fun p =>
                             Ok (if nth k (binary_repr (Z.of_nat s) nchannels)
                                       false
                                 then p else (1 - p)%Q)))
                  (seq 0 nchannels))
            (fun prob => Ok (qprod prob)))
    (seq 0 (2 ^ nchannels))
  = Ok (independence_vector (marginal (Z.of_nat (shape0 spikes)) spikes)
          nchannels).
Proof.
  unfold independence_vector. rewrite <- mapM_Ok. apply mapM_ext_in.
  intros s _.
  rewrite (mapM_ext_in _
             (fun k => Ok (if nth k (binary_repr (Z.of_nat s) nchannels) false
                           then marginal (Z.of_nat (shape0 spikes)) spikes k
                           else (1 - marginal (Z.of_nat (shape0 spikes))
                                       spikes k)%Q))).
  - rewrite mapM_Ok. reflexivity.
  - intros k Hk. apply in_seq in Hk. rewrite p1_get by lia. reflexivity.
Qed.

Lemma spikes2indep_dict_unfold (fractions : list Z) :
  bound g "zeros" = true -> ~ In 0%Z fractions ->
  exists distr : count_partition,
    (forall k, dict_find distr k
               = if existsb (Z.eqb k) fractions
                 then Some (indep_blocks spikes nchannels npoints k)
                 else None)
    /\ spikes2indep_dict g spikes nchannels npoints fractions
       = bind (_check_dict_consistency g distr npoints) (fun _ => Ok distr).
Proof.
  intros Hz H0.
  exists (fold_left
            (fun acc d => dict_set acc d (indep_blocks spikes nchannels npoints d))
            fractions []).
  split.
  - intro k. now rewrite dict_find_build.
  - unfold spikes2indep_dict, lookup_name. rewrite Hz. cbn [bind].
    fold p1. cbv zeta. rewrite indep_distr_value. cbn [bind].
    pose proof (build_ok (indep_blocks spikes nchannels npoints) fractions []
                  H0) as Hb.
    match goal with
    | |- bind ?r ?k = _ =>
        transitivity
          (bind (Ok (fold_left
                       (fun acc d =>
                          dict_set acc d
                            (indep_blocks spikes nchannels npoints d))
                       fractions [])) k)
    end; [|reflexivity].
    f_equal. exact Hb.
Qed.

Lemma spikes2indep_dict_returned (fractions : list Z)
    (distr : count_partition) :
  spikes2indep_dict g spikes nchannels npoints fractions = Ok distr ->
  forall k, dict_find distr k
            = if existsb (Z.eqb k) fractions
              then Some (indep_blocks spikes nchannels npoints k)
              else None.
Proof.
  intro H.
  destruct (bound g "zeros") eqn:Hz.
  2:{ unfold spikes2indep_dict, lookup_name in H. rewrite Hz in H.
      discriminate H. }
  destruct (in_dec Z.eq_dec 0%Z fractions) as [H0|H0].
  - exfalso. unfold spikes2indep_dict, lookup_name in H. rewrite Hz in H.
    cbn [bind] in H. fold p1 in H. cbv zeta in H.
    rewrite indep_distr_value in H. cbn [bind] in H.
    pose proof (build_zero (indep_blocks spikes nchannels npoints) fractions []
                  H0) as Hb.
    match type of H with
    | bind ?r ?k = _ =>
        assert (r = Raise ZeroDivisionError) as Hr by exact Hb
    end.
    rewrite Hr in H. discriminate H.
  - destruct (spikes2indep_dict_unfold fractions Hz H0) as [distr' [Hfind Heq]].
    rewrite Heq in H.
    destruct (_check_dict_consistency g distr' npoints); [|discriminate H].
    cbn [bind] in H. injection H as <-. exact Hfind.
Qed.

End IndependentModel.

(** *** The consistency check on replicated blocks *)

Lemma skipn_nth_error {A : Type} (l : list A) (a : nat) (x : A) :
  nth_error l a = Some x -> skipn a l = x :: skipn (S a) l.
Proof.
  revert a; induction l as [|y l IH]; intros a H.
  - destruct a; discriminate H.
  - destruct a as [|a]; cbn [nth_error] in H.
    + injection H as ->. reflexivity.
    + cbn [skipn]. now apply IH.
Qed.

Lemma sum_blocks_from (g : globals) (distr : count_partition) (d : Z)
    (blocks : list (list Q)) (m a : nat) (acc : accum) :
  bound g "array" = true -> dict_find distr d = Some blocks ->
  (a + m <= List.length blocks)%nat ->
  fold_left
    (fun acc i =>
       bind acc (fun sm =>
       bind (lookup_name g "array") (fun _ =>
       bind (dict_get distr d) (fun blocks =>
       bind (list_get blocks i) (fun b => Ok (iadd sm b))))))
    (seq a m) (Ok acc)
  = Ok (fold_left iadd (firstn m (skipn a blocks)) acc).
Proof.
  intros Hg Hfind. unfold lookup_name, dict_get. rewrite Hg, Hfind.
  cbn [bind]. revert a acc; induction m as [|m IH]; intros a acc Hlen;
    [reflexivity|].
  cbn [seq fold_left bind]. unfold list_get at 2.
  destruct (nth_error blocks a) as [b|] eqn:Eb.
  2:{ apply nth_error_None in Eb. lia. }
  cbn [bind]. rewrite (skipn_nth_error _ _ _ Eb). cbn [firstn fold_left].
  apply IH. lia.
Qed.

Lemma sum_blocks_value (g : globals) (distr : count_partition) (d : Z)
    (blocks : list (list Q)) :
  bound g "array" = true -> dict_find distr d = Some blocks ->
  (Z.to_nat d <= List.length blocks)%nat ->
  sum_blocks g distr d
  = Ok (fold_left iadd (firstn (Z.to_nat d) blocks) (Scalar 0)).
Proof.
  intros Hg Hfind Hlen. unfold sum_blocks.
  now rewrite (sum_blocks_from g distr d blocks (Z.to_nat d) 0 (Scalar 0) Hg Hfind).
Qed.






Lemma qsum_map_mult_r (c : Q) (l : list Q) :
  (qsum (map (fun x => x * c) l) == qsum l * c)%Q.
Proof.
  induction l as [|x l IH]; cbn [map qsum fold_right]; [ring|].
  change (fold_right Qplus 0%Q ?l) with (qsum l). rewrite IH. ring.
Qed.

Lemma trunc_le (x : Q) : (0 <= x)%Q -> (inject_Z (trunc x) <= x)%Q.
Proof.
  intro H. replace (trunc x) with (Qfloor x); [apply Qfloor_le|].
  destruct x as [n d]. unfold trunc, Qfloor. cbn [Qnum Qden].
  symmetry. apply Z.quot_div_nonneg; [|lia].
  unfold Qle in H. cbn in H. lia.
Qed.

Lemma Qltb_true (x y : Q) : (x < y)%Q -> Qltb x y = true.
Proof.
  intro H. unfold Qltb. apply negb_true_iff, not_true_iff_false.
  rewrite Qle_bool_iff. now apply Qlt_not_le.
Qed.

(** *** The independence vector is a probability vector *)

Lemma binary_repr_S (s : Z) (C : nat) :
  binary_repr s (S C) = Z.testbit s (Z.of_nat C) :: binary_repr s C.
Proof.
  unfold binary_repr. cbn [seq map]. f_equal.
  - do 2 f_equal. lia.
  - rewrite <- seq_shift, map_map. apply map_ext. intro k. do 2 f_equal. lia.
Qed.

Lemma independence_entry_S (p1 : nat -> Q) (C : nat) (s : Z) :
  independence_entry p1 (S C) s
  = ((if Z.testbit s (Z.of_nat C) then p1 0%nat else 1 - p1 0%nat)
     * independence_entry (fun k => p1 (S k)) C s)%Q.
Proof.
  unfold independence_entry. rewrite binary_repr_S. cbn [seq map qprod fold_right nth].
  f_equal. rewrite <- seq_shift, map_map. reflexivity.
Qed.

Lemma binary_repr_add_pow2 (r : Z) (C : nat) :
  binary_repr (2 ^ Z.of_nat C + r) C = binary_repr r C.
Proof.
  unfold binary_repr. apply map_ext_in. intros k Hk. apply in_seq in Hk.
  rewrite <- (Z.mod_pow2_bits_low (2 ^ Z.of_nat C + r) (Z.of_nat C)) by lia.
  rewrite <- (Z.mod_pow2_bits_low r (Z.of_nat C)) by lia.
  f_equal. rewrite Z.add_comm.
  rewrite <- (Z.mul_1_l (2 ^ Z.of_nat C)) at 1.
  apply Z.mod_add. apply Z.pow_nonzero; lia.
Qed.

Lemma independence_entry_add_pow2 (p1 : nat -> Q) (C : nat) (r : Z) :
  independence_entry p1 C (2 ^ Z.of_nat C + r) = independence_entry p1 C r.
Proof. unfold independence_entry. now rewrite binary_repr_add_pow2. Qed.

Lemma testbit_top_set (r : Z) (C : nat) :
  (0 <= r < 2 ^ Z.of_nat C)%Z ->
  Z.testbit (2 ^ Z.of_nat C + r) (Z.of_nat C) = true.
Proof.
  intro Hr. rewrite <- (Z.add_0_l (Z.of_nat C)) at 2.
  rewrite <- Z.div_pow2_bits by lia.
  replace (2 ^ Z.of_nat C + r)%Z with (r + 1 * 2 ^ Z.of_nat C)%Z by lia.
  rewrite Z.div_add by lia. rewrite Z.div_small by lia. reflexivity.
Qed.

Lemma seq_add_shift (a n : nat) : seq a n = map (fun r => (a + r)%nat) (seq 0 n).
Proof.
  revert a; induction n as [|n IH]; intro a; [reflexivity|].
  cbn [seq map]. rewrite Nat.add_0_r. f_equal.
  rewrite (IH (S a)), <- seq_shift, map_map. apply map_ext. intro r. lia.
Qed.

Lemma qsum_app (l1 l2 : list Q) : (qsum (l1 ++ l2) == qsum l1 + qsum l2)%Q.
Proof.
  unfold qsum. induction l1 as [|x l1 IH]; cbn [app fold_right]; [ring|].
  rewrite IH. ring.
Qed.

Lemma qsum_map_mult_l {A : Type} (c : Q) (f : A -> Q) (l : list A) :
  (qsum (map (fun x => c * f x) l) == c * qsum (map f l))%Q.
Proof.
  unfold qsum. induction l as [|x l IH]; cbn [map fold_right]; [ring|].
  rewrite IH. ring.
Qed.

Lemma independence_vector_sum (p1 : nat -> Q) (C : nat) :
  (qsum (independence_vector p1 C) == 1)%Q.
Proof.
  revert p1; induction C as [|C IH]; intro p1; [reflexivity|].
  unfold independence_vector.
  replace (2 ^ S C)%nat with (2 ^ C + 2 ^ C)%nat by (cbn; lia).
  rewrite seq_app, map_app, qsum_app. cbn [Nat.add].
  rewrite (seq_add_shift (2 ^ C) (2 ^ C)), map_map.
  rewrite (map_ext_in _
             (fun s => ((1 - p1 0%nat)
                        * independence_entry (fun k => p1 (S k)) C (Z.of_nat s))%Q)).
  2:{ intros s Hs. apply in_seq in Hs. rewrite independence_entry_S.
      rewrite (testbit_small (Z.of_nat s) C C); [reflexivity| |lia].
      split; [lia|]. rewrite <- (Nat2Z.inj_pow 2). lia. }
  rewrite (map_ext_in (fun r => independence_entry p1 (S C) (Z.of_nat (2 ^ C + r)))
             (fun r => (p1 0%nat
                        * independence_entry (fun k => p1 (S k)) C (Z.of_nat r))%Q)).
  2:{ intros r Hr. apply in_seq in Hr. rewrite independence_entry_S.
      rewrite Nat2Z.inj_add, (Nat2Z.inj_pow 2).
      rewrite testbit_top_set
        by (split; [lia|]; rewrite <- (Nat2Z.inj_pow 2); lia).
      now rewrite independence_entry_add_pow2. }
  rewrite !qsum_map_mult_l.
  change (map (fun s => independence_entry (fun k => p1 (S k)) C (Z.of_nat s))
            (seq 0 (2 ^ C)))
    with (independence_vector (fun k => p1 (S k)) C).
  rewrite IH. ring.
Qed.




(** *** The independent partition passes the check *)



Section IndependentCheck.

Variable g : globals.
Variable spikes : ndarray2.
Variable nchannels : nat.
Variable npoints : Z.
Variable distr : count_partition.
Variable fractions : list Z.

Hypothesis array_bound : bound g "array" = true.
Hypothesis binary_spikes : Forall binary_row (rows spikes).
Hypothesis some_rows : (0 < shape0 spikes)%nat.
Hypothesis npoints_nonneg : (0 <= npoints)%Z.
Hypothesis distr_blocks :
  forall k, dict_find distr k
            = if existsb (Z.eqb k) fractions
              then Some (indep_blocks spikes nchannels npoints k)
              else None.
Hypothesis key_1 : In 1%Z fractions.

Let indep : list Q :=
  independence_vector (marginal (Z.of_nat (shape0 spikes)) spikes) nchannels.




End IndependentCheck.




(** *** The extrapolation of the KL divergence *)

Lemma mapM_list_get2 {A B C : Type} (F : A -> B -> C) (la : list A)
    (lb : list B) (n : nat) :
  (n <= List.length la)%nat -> (n <= List.length lb)%nat ->
  mapM (fun i => bind (list_get la i)
                   (fun a => bind (list_get lb i) (fun b => Ok (F a b))))
    (seq 0 n)
  = Ok (zip_with F (firstn n la) (firstn n lb)).
Proof.
  revert la lb; induction n as [|n IH]; intros la lb Ha Hb; [reflexivity|].
  destruct la as [|a la]; [cbn in Ha; lia|].
  destruct lb as [|b lb]; [cbn in Hb; lia|].
  cbn [List.length] in Ha, Hb.
  cbn [seq mapM list_get nth_error bind firstn zip_with].
  rewrite <- seq_shift, mapM_map.
  rewrite (mapM_ext_in _
             (fun i => bind (list_get la i)
                         (fun a => bind (list_get lb i)
                                     (fun b => Ok (F a b)))))
    by (intros; reflexivity).
  rewrite IH by lia. reflexivity.
Qed.

Lemma map_fst_zip_with {A B C D : Type} (H : A -> C) (K : A -> B -> D)
    (la : list A) (lb : list B) :
  List.length la = List.length lb ->
  map fst (zip_with (fun a b => (H a, K a b)) la lb) = map H la.
Proof.
  revert lb; induction la as [|a la IH]; intros lb Hl; [reflexivity|].
  destruct lb as [|b lb]; [discriminate Hl|].
  cbn [zip_with map fst]. f_equal. apply IH. now injection Hl.
Qed.

Lemma map_snd_zip_with {A B C D : Type} (H : A -> C) (K : A -> B -> D)
    (la : list A) (lb : list B) :
  map snd (zip_with (fun a b => (H a, K a b)) la lb) = zip_with K la lb.
Proof.
  revert lb; induction la as [|a la IH]; intros lb; [reflexivity|].
  destruct lb as [|b lb]; [reflexivity|].
  cbn [zip_with map snd]. f_equal. apply IH.
Qed.

Section KLValue.

Variable g : globals.
Variable digamma : R -> R.
Variable polyfit : list R -> list R -> nat -> list R.

Hypothesis log_bound : bound g "log" = true.
Hypothesis array_bound : bound g "array" = true.
Hypothesis zeros_bound : bound g "zeros" = true.

Lemma mean_KL_estimate_bound (alpha beta : list R) :
  mean_KL_estimate g digamma alpha beta
  = Ok (mean_kl_formula digamma alpha beta).
Proof.
  unfold mean_KL_estimate. rewrite (mean_H_estimate_bound digamma g alpha log_bound).
  cbn [bind]. unfold lookup_name. rewrite log_bound. reflexivity.
Qed.

Lemma kl_blocks_value (p_dict q_dict : partition) (alpha : R) (d : Z) :
  (exists blocks, dict_find p_dict d = Some blocks
                  /\ (Z.to_nat d <= List.length blocks)%nat) ->
  (exists blocks, dict_find q_dict d = Some blocks
                  /\ (Z.to_nat d <= List.length blocks)%nat) ->
  exists hk,
    mapM (kl_block g digamma p_dict q_dict alpha d) (seq 0 (Z.to_nat d))
    = Ok hk
    /\ map fst hk = block_entropies digamma p_dict alpha d
    /\ map snd hk = block_kls digamma p_dict q_dict alpha d.
Proof.
  intros [bp [Hp Hlp]] [bq [Hq Hlq]].
  set (H := fun p => (mean_entropy_formula digamma (add_scalar p alpha) / ln 2)%R).
  set (K := fun p q => mean_kl_formula digamma (add_scalar p alpha)
                         (add_scalar q alpha)).
  exists (zip_with (fun p q => (H p, K p q))
            (firstn (Z.to_nat d) bp) (firstn (Z.to_nat d) bq)).
  split; [|split].
  - rewrite <- (mapM_list_get2 (fun p q => (H p, K p q)) bp bq (Z.to_nat d))
      by assumption.
    apply mapM_ext_in. intros i _. unfold kl_block, block, dict_get.
    rewrite Hp, Hq. cbn [bind].
    destruct (list_get bp i) as [p|e]; [|reflexivity]. cbn [bind].
    destruct (list_get bq i) as [q|e]; [|reflexivity]. cbn [bind].
    rewrite (mean_H_estimate_bound digamma g _ log_bound). cbn [bind].
    rewrite mean_KL_estimate_bound. reflexivity.
  - rewrite map_fst_zip_with
      by (rewrite !firstn_length_le by assumption; reflexivity).
    unfold block_entropies. now rewrite Hp.
  - rewrite map_snd_zip_with. unfold block_kls. now rewrite Hp, Hq.
Qed.

Lemma kl_estimation_value (p_dict q_dict : partition) (npoints : Z)
    (alpha : R) (Ns : option (list R)) :
  has_blocks p_dict -> has_blocks q_dict ->
  kl_estimation g digamma polyfit p_dict q_dict npoints alpha Ns
  = bind (list_get
            (polyfit (sample_sizes npoints Ns)
               (fit_targets (sample_sizes npoints Ns)
                  (map (fun d => array_mean
                                   (block_kls digamma p_dict q_dict alpha d))
                     ns)) 2) 0)
      (fun k0 =>
         bind (list_get
                 (polyfit (sample_sizes npoints Ns)
                    (fit_targets (sample_sizes npoints Ns)
                       (map (fun d => array_mean
                                        (block_entropies digamma p_dict alpha d))
                          ns)) 2) 0)
           (fun h0 => Ok (k0, h0))).
Proof.
  intros Hp Hq. unfold kl_estimation, lookup_name.
  rewrite array_bound, zeros_bound. cbn [bind].
  rewrite (mapM_ext_in _
             (fun d => Ok (array_mean (block_entropies digamma p_dict alpha d),
                           array_mean (block_kls digamma p_dict q_dict alpha d)))).
  - rewrite mapM_Ok. cbn [bind]. rewrite !map_map. cbn [fst snd]. reflexivity.
  - intros d Hd.
    destruct (kl_blocks_value p_dict q_dict alpha d (Hp d Hd) (Hq d Hd))
      as [hk [-> [Hf Hs]]].
    cbn [bind]. now rewrite Hf, Hs.
Qed.

End KLValue.

Lemma three_key_partition_blocks : has_blocks three_key_partition.
Proof.
  intros d [<-|[<-|[<-|[]]]]; eexists; (split; [reflexivity|]); cbn; lia.
Qed.

Lemma zip_with_combine {A B C : Type} (f : A -> B -> C) (a : list A)
    (b : list B) :
  zip_with f a b = map (fun pq => f (fst pq) (snd pq)) (combine a b).
Proof.
  revert b; induction a as [|x a IH]; intros [|y b]; try reflexivity.
  cbn [zip_with combine map fst snd]. now rewrite IH.
Qed.

Lemma array_mean_block_entropies (psi : R -> R) (p_dict : partition)
    (alpha : R) (d : Z) :
  array_mean (block_entropies psi p_dict alpha d)
  = entropy_estimate psi p_dict alpha d.
Proof.
  unfold block_entropies, entropy_estimate, blocks_under.
  destruct (dict_find p_dict d); [reflexivity|].
  now rewrite firstn_nil.
Qed.

Lemma array_mean_block_kls (psi : R -> R) (p_dict q_dict : partition)
    (alpha : R) (d : Z) :
  array_mean (block_kls psi p_dict q_dict alpha d)
  = kl_estimate psi p_dict q_dict alpha d.
Proof.
  unfold block_kls, kl_estimate, blocks_under.
  destruct (dict_find p_dict d) as [bp|], (dict_find q_dict d) as [bq|].
  - now rewrite zip_with_combine.
  - rewrite firstn_nil. now rewrite combine_nil.
  - now rewrite firstn_nil.
  - now rewrite !firstn_nil.
Qed.

(** C2, as amended: with [log], [array] and [zeros] bound, a positive
    pseudocount, partitions that hold under each of the keys 4, 2 and 1
    at least that many blocks of counts, those of [q_dict] of the
    shapes of those of [p_dict], and three sample sizes [N4], [N2],
    [N1], the caller's or else the integer quotients of [npoints] by
    4, 2 and 1, [h_estimation] returns the first coefficient (that of
    the square) of the degree-2 [polyfit] of the three points
    [(N_d, N_d * N_d * E(d))], where [E(d)] is the average over the
    [d] blocks of the closed form of the mean entropy at block plus
    pseudocount; [kl_estimation] does the same with the closed form of
    the mean KL divergence and returns the pair of the KL coefficient
    and the entropy coefficient, in this order. *)
Theorem estimation_fit_value (g : globals) (digamma : R -> R)
    (polyfit : list R -> list R -> nat -> list R)
    (p_dict q_dict : partition) (npoints : Z) (alpha : R)
    (Ns : option (list R)) (N4 N2 N1 : R) :
  bound g "log" = true -> bound g "array" = true -> bound g "zeros" = true ->
  has_blocks p_dict -> has_blocks q_dict ->
  count_blocks p_dict -> count_blocks q_dict -> same_shapes p_dict q_dict ->
  (0 < alpha)%R ->
  Ns = Some [N4; N2; N1]
  \/ (Ns = None
      /\ N4 = IZR (npoints / 4) /\ N2 = IZR (npoints / 2)
      /\ N1 = IZR (npoints / 1)) ->
  let h_extr :=
    polyfit [N4; N2; N1]
      [N4 * N4 * entropy_estimate digamma p_dict alpha 4;
       N2 * N2 * entropy_estimate digamma p_dict alpha 2;
       N1 * N1 * entropy_estimate digamma p_dict alpha 1]%R
      2%nat in
  let kl_extr :=
    polyfit [N4; N2; N1]
      [N4 * N4 * kl_estimate digamma p_dict q_dict alpha 4;
       N2 * N2 * kl_estimate digamma p_dict q_dict alpha 2;
       N1 * N1 * kl_estimate digamma p_dict q_dict alpha 1]%R
      2%nat in
  h_estimation g digamma polyfit p_dict npoints alpha Ns = list_get h_extr 0
  /\ kl_estimation g digamma polyfit p_dict q_dict npoints alpha Ns
     = bind (list_get kl_extr 0)
         (fun k0 => bind (list_get h_extr 0) (fun h0 => Ok (k0, h0))).
Proof.
  intros Hl Ha Hz Hp Hq _ _ _ _ HNs. cbv zeta.
  assert (sample_sizes npoints Ns = [N4; N2; N1]) as Hs
      by (destruct HNs as [->|[-> [-> [-> ->]]]]; reflexivity).
  split.
  - rewrite (h_estimation_value g digamma polyfit Hl Ha Hz p_dict npoints
               alpha Ns Hp), Hs.
    unfold ns. cbn [map fit_targets zip_with].
    now rewrite !array_mean_block_entropies.
  - rewrite (kl_estimation_value g digamma polyfit Hl Ha Hz p_dict q_dict
               npoints alpha Ns Hp Hq), Hs.
    unfold ns. cbn [map fit_targets zip_with].
    now rewrite !array_mean_block_entropies, !array_mean_block_kls.
Qed.

Lemma three_key_partition_counts : count_blocks three_key_partition.
Proof.
  intros d [->|[->| ->]]; cbn;
    repeat (apply Forall_cons;
            [split; [discriminate | repeat (apply Forall_cons; [lra|]);
                                    apply Forall_nil]|]);
    apply Forall_nil.
Qed.

Lemma three_key_partition_shapes :
  same_shapes three_key_partition three_key_partition.
Proof.
  intros d [->|[->| ->]]; cbn; repeat (apply Forall2_cons; [reflexivity|]);
    apply Forall2_nil.
Qed.

Lemma estimation_fit_value_witness :
  h_estimation numpy_globals (fun x => x) interpolating_polyfit
    three_key_partition 8 1%R None
  = Ok (divided_difference_2 2 4 8
          (2 * 2 * entropy_estimate (fun x => x) three_key_partition 1 4)
          (4 * 4 * entropy_estimate (fun x => x) three_key_partition 1 2)
          (8 * 8 * entropy_estimate (fun x => x) three_key_partition 1 1))%R
  /\ kl_estimation numpy_globals (fun x => x) interpolating_polyfit
       three_key_partition three_key_partition 8 1%R None
     = Ok (divided_difference_2 2 4 8
             (2 * 2 * kl_estimate (fun x => x) three_key_partition
                         three_key_partition 1 4)
             (4 * 4 * kl_estimate (fun x => x) three_key_partition
                         three_key_partition 1 2)
             (8 * 8 * kl_estimate (fun x => x) three_key_partition
                         three_key_partition 1 1),
           divided_difference_2 2 4 8
             (2 * 2 * entropy_estimate (fun x => x) three_key_partition 1 4)
             (4 * 4 * entropy_estimate (fun x => x) three_key_partition 1 2)
             (8 * 8 * entropy_estimate (fun x => x) three_key_partition 1 1))%R.
Proof.
  destruct (estimation_fit_value numpy_globals (fun x => x)
              interpolating_polyfit three_key_partition three_key_partition
              8 1%R None 2%R 4%R 8%R eq_refl eq_refl eq_refl
              three_key_partition_blocks three_key_partition_blocks
              three_key_partition_counts three_key_partition_counts
              three_key_partition_shapes Rlt_0_1
              (or_intror (conj eq_refl (conj eq_refl (conj eq_refl eq_refl)))))
    as [Hh Hk].
  rewrite Hh, Hk. split; reflexivity.
Defined.

(** C2 as stated fails.  In the module as it is both functions raise
    [NameError] at their first statement.  And the sample sizes are the
    integer quotients: for [npoints = 5] the fit is made at 1, 2 and 5,
    not at 5/4, 5/2 and 5. *)
Lemma estimation_not_as_claimed :
  (forall digamma polyfit p_dict npoints alpha Ns,
      h_estimation module_globals digamma polyfit p_dict npoints alpha Ns
      = Raise (NameError "array"))
  /\ (forall digamma polyfit p_dict q_dict npoints alpha Ns,
         kl_estimation module_globals digamma polyfit p_dict q_dict npoints
           alpha Ns
         = Raise (NameError "array"))
  /\ sample_sizes 5 None = [1; 2; 5]%R
  /\ claimed_sample_sizes 5 = [5 / 4; 5 / 2; 5 / 1]%R
  /\ sample_sizes 5 None <> claimed_sample_sizes 5.
Proof.
  split; [exact h_estimation_unbound|].
  split; [exact kl_estimation_unbound|].
  split; [reflexivity|]. split; [reflexivity|].
  change (sample_sizes 5 None) with [1; 2; 5]%R.
  change (claimed_sample_sizes 5) with [5 / 4; 5 / 2; 5 / 1]%R.
  intro H. injection H as H _ _. lra.
Qed.

(** *** The quadratic fit through three points *)

Section QuadraticFit.

Local Open Scope R_scope.

Variables x1 x2 x3 y1 y2 y3 : R.
Hypothesis x12 : x1 <> x2.
Hypothesis x13 : x1 <> x3.
Hypothesis x23 : x2 <> x3.

Lemma interpolant_residuals :
  sum_squares [x1; x2; x3] [y1; y2; y3]
    (divided_difference_2 x1 x2 x3 y1 y2 y3)
    ((y2 - y1) / (x2 - x1)
     - divided_difference_2 x1 x2 x3 y1 y2 y3 * (x1 + x2))
    (y1 - divided_difference_2 x1 x2 x3 y1 y2 y3 * x1 * x1
     - ((y2 - y1) / (x2 - x1)
        - divided_difference_2 x1 x2 x3 y1 y2 y3 * (x1 + x2)) * x1)
  = 0.
Proof.
  unfold sum_squares, array_sum, divided_difference_2.
  cbn [zip_with fold_right]. field. repeat split; lra.
Qed.

Lemma squares_zero (a b c : R) :
  a * a + (b * b + (c * c + 0)) <= 0 -> a = 0 /\ b = 0 /\ c = 0.
Proof.
  intro H.
  pose proof (Rle_0_sqr a) as Ha. pose proof (Rle_0_sqr b) as Hb.
  pose proof (Rle_0_sqr c) as Hc. unfold Rsqr in *.
  assert (a * a = 0) as Ea by lra. assert (b * b = 0) as Eb by lra.
  assert (c * c = 0) as Ec by lra.
  repeat split; apply Rsqr_0_uniq; exact Ea || exact Eb || exact Ec.
Qed.

Lemma least_squares_three_points (coeffs : list R) :
  least_squares_quadratic [x1; x2; x3] [y1; y2; y3] coeffs ->
  list_get coeffs 0 = Ok (divided_difference_2 x1 x2 x3 y1 y2 y3).
Proof.
  intros [c2 [c1 [c0 [-> Hmin]]]]. cbn [list_get nth_error]. f_equal.
  pose proof (Hmin (divided_difference_2 x1 x2 x3 y1 y2 y3)
                ((y2 - y1) / (x2 - x1)
                 - divided_difference_2 x1 x2 x3 y1 y2 y3 * (x1 + x2))
                (y1 - divided_difference_2 x1 x2 x3 y1 y2 y3 * x1 * x1
                 - ((y2 - y1) / (x2 - x1)
                    - divided_difference_2 x1 x2 x3 y1 y2 y3 * (x1 + x2)) * x1))
    as Hle.
  clear Hmin. rename Hle into Hmin. rewrite interpolant_residuals in Hmin.
  unfold sum_squares, array_sum in Hmin. cbn [zip_with fold_right] in Hmin.
  apply squares_zero in Hmin. destruct Hmin as [E1 [E2 E3]].
  assert (y1 = c2 * x1 * x1 + c1 * x1 + c0) as -> by lra.
  assert (y2 = c2 * x2 * x2 + c1 * x2 + c0) as -> by lra.
  assert (y3 = c2 * x3 * x3 + c1 * x3 + c0) as -> by lra.
  unfold divided_difference_2. field. repeat split; lra.
Qed.

End QuadraticFit.

(** With the names bound, three distinct sample sizes and a [polyfit]
    result that is a least-squares quadratic, [h_estimation] returns
    the second divided difference of the points [(N_d, N_d^2 E(d))]:
    the one leading coefficient a least-squares fit can have. *)
Lemma h_estimation_least_squares (g : globals) (digamma : R -> R)
    (polyfit : list R -> list R -> nat -> list R) (p_dict : partition)
    (npoints : Z) (alpha : R) (Ns : option (list R)) (x1 x2 x3 : R) :
  bound g "log" = true -> bound g "array" = true -> bound g "zeros" = true ->
  has_blocks p_dict ->
  sample_sizes npoints Ns = [x1; x2; x3] ->
  x1 <> x2 -> x1 <> x3 -> x2 <> x3 ->
  least_squares_quadratic [x1; x2; x3]
    (fit_targets [x1; x2; x3]
       (map (fun d => array_mean (block_entropies digamma p_dict alpha d)) ns))
    (polyfit [x1; x2; x3]
       (fit_targets [x1; x2; x3]
          (map (fun d => array_mean (block_entropies digamma p_dict alpha d))
             ns)) 2%nat) ->
  h_estimation g digamma polyfit p_dict npoints alpha Ns
  = Ok (divided_difference_2 x1 x2 x3
          (x1 * x1 * array_mean (block_entropies digamma p_dict alpha 4))
          (x2 * x2 * array_mean (block_entropies digamma p_dict alpha 2))
          (x3 * x3 * array_mean (block_entropies digamma p_dict alpha 1)))%R.
Proof.
  intros Hl Ha Hz Hb Hs H12 H13 H23 Hfit.
  rewrite (h_estimation_value g digamma polyfit Hl Ha Hz p_dict npoints alpha
             Ns Hb).
  rewrite Hs. now apply least_squares_three_points.
Qed.

Lemma sum_squares_nonneg (xs ys : list R) (a b c : R) :
  (0 <= sum_squares xs ys a b c)%R.
Proof.
  unfold sum_squares, array_sum. revert ys; induction xs as [|x xs IH];
    intros [|y ys]; cbn [zip_with fold_right]; try lra.
  specialize (IH ys).
  pose proof (Rle_0_sqr (a * x * x + b * x + c - y)) as H. unfold Rsqr in H.
  lra.
Qed.

Lemma array_sum_zeros {A : Type} (f : A -> R) (l : list A) :
  (forall x, f x = 0%R) -> array_sum (map f l) = 0%R.
Proof.
  intro H. unfold array_sum. induction l as [|x l IH]; cbn [map fold_right];
    [reflexivity|]. rewrite H, IH. lra.
Qed.

Lemma block_entropies_zero_psi (p_dict : partition) (alpha : R) (d : Z) :
  array_mean (block_entropies (fun _ => 0%R) p_dict alpha d) = 0%R.
Proof.
  unfold array_mean, block_entropies.
  destruct (dict_find p_dict d) as [blocks|].
  - rewrite array_sum_zeros; [unfold Rdiv; apply Rmult_0_l|].
    intro b. unfold mean_entropy_formula.
    rewrite array_sum_zeros by (intro; apply Rmult_0_r).
    unfold Rdiv. rewrite Rmult_0_l, Rminus_diag. apply Rmult_0_l.
  - cbn. unfold Rdiv. apply Rmult_0_l.
Qed.

Lemma h_estimation_least_squares_witness :
  h_estimation numpy_globals (fun _ => 0%R) (fun _ _ _ => [0; 0; 0]%R)
    three_key_partition 8 1%R None
  = Ok (divided_difference_2 2 4 8
          (2 * 2 * array_mean
                     (block_entropies (fun _ => 0%R) three_key_partition 1 4))
          (4 * 4 * array_mean
                     (block_entropies (fun _ => 0%R) three_key_partition 1 2))
          (8 * 8 * array_mean
                     (block_entropies (fun _ => 0%R) three_key_partition 1 1)))%R.
Proof.
  apply (h_estimation_least_squares numpy_globals (fun _ => 0%R)
           (fun _ _ _ => [0; 0; 0]%R) three_key_partition 8 1%R None
           2%R 4%R 8%R eq_refl eq_refl eq_refl three_key_partition_blocks
           eq_refl).
  - lra.
  - lra.
  - lra.
  - exists 0%R, 0%R, 0%R. split; [reflexivity|]. intros a b c.
    apply Rle_trans with (r2 := 0%R); [|apply sum_squares_nonneg].
    unfold sum_squares, fit_targets, array_sum, ns.
    cbn [map zip_with fold_right]. rewrite !block_entropies_zero_psi. lra.
Defined.

(** *** The check never fails on the blocks of a state sequence *)

Lemma in_bin_bin_of (nbins k : nat) (s : Q) :
  (k < nbins)%nat -> in_bin nbins k s = true -> Z.of_nat k = bin_of nbins s.
Proof.
  intros Hk H. unfold in_bin in H. apply andb_true_iff in H.
  destruct H as [Hlo Hup]. apply Qle_bool_iff in Hlo.
  pose proof (Qfloor_le s) as Hfl. pose proof (Qlt_floor s) as Hfu.
  assert (Z.of_nat k <= Qfloor s)%Z as Hkf.
  { assert (inject_Z (Z.of_nat k) < inject_Z (Qfloor s + 1))%Q as H1
        by (eapply Qle_lt_trans; eauto).
    rewrite <- Zlt_Qlt in H1. lia. }
  unfold bin_of.
  destruct (Qle_bool (inject_Z (Z.of_nat nbins)) s) eqn:En.
  - apply Qle_bool_iff in En.
    destruct (Nat.eqb_spec (S k) nbins) as [E|E]; [lia|].
    unfold Qltb in Hup. apply negb_true_iff in Hup.
    apply not_true_iff_false in Hup. rewrite Qle_bool_iff in Hup.
    exfalso. apply Hup. eapply Qle_trans; [|exact En].
    rewrite <- Zle_Qle. lia.
  - apply not_true_iff_false in En. rewrite Qle_bool_iff in En.
    apply Qnot_le_lt in En.
    assert (Qfloor s < Z.of_nat (S k))%Z; [|lia].
    destruct (Nat.eqb_spec (S k) nbins) as [E|E].
    + rewrite E. rewrite Zlt_Qlt. eapply Qle_lt_trans; eauto.
    + unfold Qltb in Hup. apply negb_true_iff in Hup.
      apply not_true_iff_false in Hup. rewrite Qle_bool_iff in Hup.
      apply Qnot_le_lt in Hup. rewrite Zlt_Qlt. eapply Qle_lt_trans; eauto.
Qed.

Lemma zsum_map_le {A : Type} (f h : A -> Z) (l : list A) :
  (forall x, In x l -> (f x <= h x)%Z) ->
  (zsum (map f l) <= zsum (map h l))%Z.
Proof.
  induction l as [|x l IH]; intro H; cbn [map zsum fold_right]; [lia|].
  fold (zsum (map f l)). fold (zsum (map h l)).
  pose proof (H x (or_introl eq_refl)).
  assert (zsum (map f l) <= zsum (map h l))%Z
    by (apply IH; intros y Hy; apply H; now right).
  lia.
Qed.

Lemma histogram_total_le (states : list Q) (nbins : nat) :
  (zsum (histogram states nbins) <= Z.of_nat (List.length states))%Z.
Proof.
  induction states as [|s states IH].
  - unfold histogram. cbn [filter List.length Z.of_nat].
    induction (seq 0 nbins); cbn [map zsum fold_right]; [lia|].
    fold (zsum (map (fun _ : nat => 0%Z) l)). lia.
  - rewrite histogram_cons, zsum_map_add. fold (histogram states nbins).
    cbn [List.length]. rewrite Nat2Z.inj_succ.
    assert (zsum (map (fun k => if in_bin nbins k s then 1 else 0) (seq 0 nbins))
            <= 1)%Z; [|lia].
    eapply Z.le_trans.
    + apply (zsum_map_le _
               (fun k => if (Z.of_nat k =? bin_of nbins s)%Z then 1%Z else 0%Z)).
      intros k Hk. apply in_seq in Hk.
      destruct (in_bin nbins k s) eqn:E.
      * rewrite (in_bin_bin_of nbins k s) by (auto; lia).
        rewrite Z.eqb_refl. lia.
      * destruct (Z.of_nat k =? bin_of nbins s)%Z; lia.
    + rewrite zsum_indicator.
      destruct ((Z.of_nat 0 <=? bin_of nbins s)
                && (bin_of nbins s <? Z.of_nat (0 + nbins)))%Z; lia.
Qed.

Lemma veq_refl (a : list Q) : veq a a.
Proof. unfold veq. induction a; constructor; [reflexivity | assumption]. Qed.

Lemma veq_zip_plus (a a' b : list Q) :
  veq a a' -> veq (zip_with Qplus a b) (zip_with Qplus a' b).
Proof.
  unfold veq. intro H. revert b; induction H as [|x y a a' Hxy _ IH];
    intros [|z b]; cbn [zip_with]; constructor; [now rewrite Hxy | apply IH].
Qed.

Lemma veq_first (b : list Q) : veq (map (Qplus 0) b) b.
Proof.
  unfold veq. induction b as [|x b IH]; cbn [map]; constructor; [ring | exact IH].
Qed.

Lemma qsum_veq (a b : list Q) : veq a b -> (qsum a == qsum b)%Q.
Proof.
  unfold veq, qsum. induction 1 as [|x y a b Hxy _ IH]; cbn [fold_right];
    [reflexivity|]. now rewrite Hxy, IH.
Qed.

(** Adding the histograms of the lists [ls] to the histogram of [l]
    gives the histogram of [l] followed by all of [ls]. *)
Lemma fold_iadd_histograms (C : nat) (ls : list (list Q)) (l : list Q)
    (a : list Q) :
  veq a (states2distr l C false) ->
  exists a',
    fold_left iadd (map (fun l' => states2distr l' C false) ls) (Array a)
    = Array a'
    /\ veq a' (states2distr (l ++ List.concat ls) C false).
Proof.
  revert l a; induction ls as [|l1 ls IH]; intros l a H.
  - exists a. split; [reflexivity|]. cbn [List.concat]. now rewrite app_nil_r.
  - cbn [map fold_left iadd List.concat].
    destruct (IH (l ++ l1) (zip_with Qplus a (states2distr l1 C false)))
      as [a' [E Ha']].
    + rewrite states2distr_app. now apply veq_zip_plus.
    + exists a'. split; [exact E|]. now rewrite app_assoc.
Qed.

Lemma sum_histograms (C : nat) (l1 : list Q) (ls : list (list Q)) :
  exists a',
    fold_left iadd (map (fun l' => states2distr l' C false) (l1 :: ls))
      (Scalar 0)
    = Array a'
    /\ veq a' (states2distr (List.concat (l1 :: ls)) C false).
Proof.
  cbn [map fold_left iadd List.concat].
  apply fold_iadd_histograms. apply veq_first.
Qed.

Lemma concat_slices (ys : list Q) (bl : Z) (m a : nat) :
  (0 <= bl)%Z ->
  List.concat (map (fun j => slice ys (j * bl) ((j + 1) * bl))
            (map Z.of_nat (seq a m)))
  = slice ys (Z.of_nat a * bl) (Z.of_nat (a + m) * bl).
Proof.
  intro Hbl. revert a; induction m as [|m IH]; intro a.
  - cbn [seq map List.concat]. rewrite Nat.add_0_r, slice_empty by nia. reflexivity.
  - cbn [seq map List.concat]. rewrite IH.
    replace (Z.of_nat (S a)) with (Z.of_nat a + 1)%Z by lia.
    rewrite slice_app by nia. f_equal. lia.
Qed.

Lemma blocks_of_as_histograms (ys : list Q) (C : nat) (npoints d : Z) :
  blocks_of ys C npoints d
  = map (fun l' => states2distr l' C false)
      (map (fun j => slice ys (j * (npoints / d)) ((j + 1) * (npoints / d)))
         (range d)).
Proof. unfold blocks_of. now rewrite map_map. Qed.

Lemma forallb_trunc_le (f h : nat -> Z) (idx : list nat) (a : list Q) :
  veq a (map (fun k => inject_Z (f k)) idx) ->
  (forall k, (0 <= f k <= h k)%Z) ->
  forallb (fun x => Qltb x tolerance)
    (zip_with Qminus (map (fun x => inject_Z (trunc x)) a)
       (map (fun k => inject_Z (h k)) idx))
  = true.
Proof.
  intros H Hfh. unfold veq in H. revert a H.
  induction idx as [|k idx IH]; intros a H; inversion H as [|x y a0 b0 Hxy Hr];
    subst; [reflexivity|].
  cbn [map zip_with forallb]. rewrite IH by exact Hr. rewrite andb_true_r.
  apply Qltb_true. apply Qle_lt_trans with (y := 0%Q); [|reflexivity].
  destruct (Hfh k) as [H0 H1].
  assert (0 <= x)%Q as Hx.
  { rewrite Hxy. change 0%Q with (inject_Z 0). now rewrite <- Zle_Qle. }
  unfold Qminus. rewrite <- (Qplus_opp_r (inject_Z (h k))). apply Qplus_le_l.
  eapply Qle_trans; [apply trunc_le; exact Hx|].
  rewrite Hxy, <- Zle_Qle. exact H1.
Qed.

Section ReturnedPartition.

Variable g : globals.
Variable ys : list Q.
Variable C : nat.
Variable npoints : Z.
Variable distr : count_partition.
Variable fractions : list Z.

Hypothesis array_bound : bound g "array" = true.
Hypothesis npoints_nonneg : (0 <= npoints)%Z.
Hypothesis distr_blocks :
  forall k, dict_find distr k
            = if existsb (Z.eqb k) fractions
              then Some (blocks_of ys C npoints k)
              else None.
Hypothesis key_1 : In 1%Z fractions.

Lemma check_key_states (d : Z) :
  In d fractions -> (0 < d)%Z -> check_key g distr npoints d = Ok tt.
Proof.
  intros Hd Hpos. unfold check_key.
  assert (dict_find distr d = Some (blocks_of ys C npoints d)) as Hfind
      by (rewrite distr_blocks; apply existsb_eqb_In in Hd; now rewrite Hd).
  assert (dict_find distr 1 = Some (blocks_of ys C npoints 1)) as Hfind1
      by (rewrite distr_blocks; apply existsb_eqb_In in key_1;
          now rewrite key_1).
  rewrite (sum_blocks_value g distr d _ array_bound Hfind)
    by (rewrite blocks_of_length; lia).
  rewrite firstn_all2 by (rewrite blocks_of_length; lia).
  assert (0 <= npoints / d)%Z as Hbl by (apply Z.div_pos; lia).
  assert (d * (npoints / d) <= npoints)%Z as Hdbl
      by (apply Z.mul_div_le; lia).
  pose proof (concat_slices ys (npoints / d) (Z.to_nat d) 0 Hbl) as Hcat.
  rewrite blocks_of_as_histograms. unfold range in *.
  destruct (Z.to_nat d) as [|k] eqn:Ek; [lia|].
  cbn [seq map] in Hcat |- *.
  match goal with
  | |- context [fold_left iadd (states2distr ?l1 C false :: map ?F ?ls)
                  (Scalar 0)] =>
      destruct (sum_histograms C l1 ls) as [a' [Ea Ha]];
      cbn [map] in Ea; rewrite Ea
  end.
  rewrite Hcat in Ha. clear Hcat Ea.
  replace (Z.of_nat 0 * (npoints / d))%Z with 0%Z in Ha by lia.
  replace (Z.of_nat (0 + S k) * (npoints / d))%Z with (d * (npoints / d))%Z
    in Ha by lia.
  set (pre := slice ys 0 (d * (npoints / d))) in *.
  cbn [bind accum_items].
  rewrite Qltb_true.
  2:{ apply Qle_lt_trans with (y := 0%Q); [|reflexivity].
      rewrite (qsum_veq _ _ Ha). unfold states2distr.
      rewrite qsum_inject_Z.
      unfold Qminus. rewrite <- (Qplus_opp_r (inject_Z npoints)).
      apply Qplus_le_l. rewrite <- Zle_Qle.
      eapply Z.le_trans; [apply histogram_total_le|].
      unfold pre. rewrite slice_prefix by nia.
      rewrite length_firstn. lia. }
  cbn [assert bind]. unfold lookup_name, dict_get.
  rewrite array_bound, Hfind1. cbn [bind].
  unfold blocks_of, range. change (Z.to_nat 1) with 1%nat.
  cbn [seq map list_get nth_error bind].
  rewrite Z.div_1_r.
  replace (Z.of_nat 0 * npoints)%Z with 0%Z by lia.
  replace ((Z.of_nat 0 + 1) * npoints)%Z with npoints by lia.
  rewrite <- (slice_app ys 0 (d * (npoints / d)) npoints) by nia.
  fold pre. unfold states2distr, histogram in Ha |- *.
  rewrite map_map in Ha |- *.
  rewrite (forallb_trunc_le
             (fun k => Z.of_nat (List.length (filter (in_bin (2 ^ C) k) pre)))
             (fun k => Z.of_nat
                         (List.length
                            (filter (in_bin (2 ^ C) k)
                               (pre ++ slice ys (d * (npoints / d)) npoints))))
             _ _ Ha); [reflexivity|].
  intro k0. rewrite filter_app, length_app. lia.
Qed.

Lemma check_states_passes :
  _check_dict_consistency g distr npoints = Ok tt.
Proof.
  unfold _check_dict_consistency, dict_mem. rewrite !distr_blocks.
  destruct (existsb (Z.eqb 2) fractions) eqn:E2;
    destruct (existsb (Z.eqb 4) fractions) eqn:E4;
    cbn [app forM_];
    try (apply existsb_eqb_In in E2);
    try (apply existsb_eqb_In in E4);
    rewrite ?(check_key_states 2 E2) by lia;
    rewrite ?(check_key_states 4 E4) by lia;
    reflexivity.
Qed.

End ReturnedPartition.

(** With [array] bound, [0 <= npoints] and block counts without 0 that
    hold 1 whenever they hold 2 or 4, [states2dict] returns a
    partition on every state sequence: the asserts of the check bound
    the summed blocks from above only, and blocks cut from a sequence
    never exceed the bound, whatever [npoints] leaves over. *)
Lemma states2dict_returns (g : globals) (all_y ys : list Q) (C : nat)
    (npoints : Z) (fractions : list Z) (shuffle : option (list nat)) :
  bound g "array" = true ->
  shuffled all_y shuffle = Ok ys ->
  (0 <= npoints)%Z ->
  ~ In 0%Z fractions ->
  (In 2%Z fractions \/ In 4%Z fractions -> In 1%Z fractions) ->
  exists distr : count_partition,
    states2dict g all_y C npoints fractions shuffle = Ok distr.
Proof.
  intros Ha Hs Hn H0 H1. rewrite (states2dict_unfold _ _ _ _ _ _ _ Hs).
  destruct (states2dict_structure g ys C npoints _ H0) as [distr [Hfind Heq]].
  exists distr. rewrite Heq.
  destruct (existsb (Z.eqb 2) fractions) eqn:E2.
  - rewrite (check_states_passes g ys C npoints distr fractions Ha Hn Hfind);
      [reflexivity|].
    apply H1. left. now apply existsb_eqb_In.
  - destruct (existsb (Z.eqb 4) fractions) eqn:E4.
    + rewrite (check_states_passes g ys C npoints distr fractions Ha Hn Hfind);
        [reflexivity|].
      apply H1. right. now apply existsb_eqb_In.
    + rewrite check_no_control; [reflexivity| |];
        unfold dict_mem; rewrite Hfind; [now rewrite E2 | now rewrite E4].
Qed.

Lemma states2dict_returns_witness :
  exists distr : count_partition,
    states2dict numpy_globals [0; 1; 1; 0; 1]%Q 1 5 [1; 2; 4]%Z None = Ok distr.
Proof.
  apply (states2dict_returns numpy_globals [0; 1; 1; 0; 1]%Q [0; 1; 1; 0; 1]%Q
           1 5 [1; 2; 4]%Z None eq_refl eq_refl).
  - lia.
  - intros [H|[H|[H|[]]]]; discriminate H.
  - intros _. left. reflexivity.
Defined.

(** *** Zero bins and the sign of the KL divergence *)

Section DirectKL.

Local Open Scope R_scope.

Lemma count_zeros_In (p : list R) :
  (0 < count_zeros p)%nat <-> In 0 p.
Proof.
  unfold count_zeros. induction p as [|x p IH]; cbn [filter List.length In].
  - split; [lia | tauto].
  - unfold is_zero at 1. destruct (Req_dec_T x 0) as [E|E]; cbn [List.length].
    + split; [intros _; left; exact E | lia].
    + rewrite IH. split; [tauto | intros [H|H]; [congruence | exact H]].
Qed.

Lemma positive_no_zero (p : list R) : Forall (fun x => 0 < x) p -> ~ In 0 p.
Proof.
  intros H Hin. rewrite Forall_forall in H. specialize (H _ Hin). lra.
Qed.

(** [entropy] raises its zero-bin exception (line 32) exactly on the
    vectors with an entry equal to 0, and [kl] raises it (line 19)
    exactly when one of its two arguments has such an entry; the check
    comes before any arithmetic on the arguments. *)
Theorem zero_bins_raise (p q : list R) :
  (entropy p = Raise (Exception "Zero bins found") <-> In 0 p)
  /\ (kl p q = Raise (Exception "Zero bins found") <-> In 0 p \/ In 0 q).
Proof.
  split.
  - unfold entropy. destruct (Nat.ltb_spec 0 (count_zeros p)) as [H|H].
    + rewrite count_zeros_In in H. tauto.
    + split; [discriminate|]. rewrite <- count_zeros_In. lia.
  - unfold kl.
    destruct (Nat.ltb_spec 0 (count_zeros p + count_zeros q)) as [H|H].
    + split; [intros _|reflexivity]. rewrite <- !count_zeros_In. lia.
    + split; [discriminate|]. rewrite <- !count_zeros_In. lia.
Qed.

Lemma kl_positive (p q : list R) :
  Forall (fun x => 0 < x) p -> Forall (fun x => 0 < x) q ->
  kl p q = Ok (array_sum (zip_with (fun x y => x * (log2 x - log2 y)) p q)).
Proof.
  intros Hp Hq. unfold kl.
  now rewrite (count_zeros_positive _ Hp), (count_zeros_positive _ Hq).
Qed.

(** The KL divergence of a strictly positive vector from itself is 0. *)
Theorem kl_self (p : list R) :
  Forall (fun x => 0 < x) p -> kl p p = Ok 0.
Proof.
  intro Hp. rewrite kl_positive by assumption. f_equal. clear Hp.
  unfold array_sum. induction p as [|x p IH]; cbn [zip_with fold_right];
    [reflexivity|].
  rewrite IH. lra.
Qed.

Lemma kl_self_witness : kl [/ 2; / 2] [/ 2; / 2] = Ok 0.
Proof. apply kl_self. repeat constructor; lra. Defined.

Lemma ln_le_minus_1 (y : R) : 0 < y -> ln y <= y - 1.
Proof.
  intro Hy. pose proof (exp_ineq1_le (ln y)) as H.
  rewrite exp_ln in H by exact Hy. lra.
Qed.

Lemma kl_term_lower (x y : R) :
  0 < x -> 0 < y -> (x - y) / ln 2 <= x * (log2 x - log2 y).
Proof.
  intros Hx Hy. pose proof ln2_pos as Hl.
  assert (ln (y / x) <= y / x - 1) as H
      by (apply ln_le_minus_1; apply Rdiv_lt_0_compat; assumption).
  unfold Rdiv at 1 in H. rewrite ln_mult in H
    by (auto; apply Rinv_0_lt_compat; assumption).
  rewrite ln_Rinv in H by assumption.
  assert (x - y <= x * (ln x - ln y)) as H'.
  { assert (x * (ln y + - ln x) <= x * (y / x - 1))
      by (apply Rmult_le_compat_l; lra).
    replace (x * (y / x - 1)) with (y - x) in * by (field; lra). lra. }
  unfold log2.
  replace (x * (ln x / ln 2 - ln y / ln 2)) with (x * (ln x - ln y) / ln 2)
    by (field; lra).
  unfold Rdiv. apply Rmult_le_compat_r; [|exact H'].
  apply Rlt_le, Rinv_0_lt_compat; exact Hl.
Qed.

Lemma kl_sum_lower (p q : list R) :
  Forall (fun x => 0 < x) p -> Forall (fun x => 0 < x) q ->
  List.length p = List.length q ->
  (array_sum p - array_sum q) / ln 2
  <= array_sum (zip_with (fun x y => x * (log2 x - log2 y)) p q).
Proof.
  intros Hp. revert q; induction Hp as [|x p Hx _ IH]; intros q Hq Hlen.
  - destruct q; [|discriminate Hlen]. cbn. lra.
  - destruct Hq as [|y q Hy Hq]; [discriminate Hlen|].
    cbn [zip_with array_sum fold_right].
    fold (array_sum p). fold (array_sum q).
    fold (array_sum (zip_with (fun x y => x * (log2 x - log2 y)) p q)).
    specialize (IH q Hq ltac:(now injection Hlen)).
    pose proof (kl_term_lower x y Hx Hy) as Ht.
    pose proof ln2_pos.
    replace ((x + array_sum p - (y + array_sum q)) / ln 2)
      with ((x - y) / ln 2 + (array_sum p - array_sum q) / ln 2)
      by (field; lra).
    lra.
Qed.

(** On two strictly positive vectors of one length with equal sums, in
    particular on two probability vectors, [kl] returns a value that is
    not negative. *)
Theorem kl_nonneg (p q : list R) :
  Forall (fun x => 0 < x) p -> Forall (fun x => 0 < x) q ->
  List.length p = List.length q -> array_sum p = array_sum q ->
  exists v, kl p q = Ok v /\ 0 <= v.
Proof.
  intros Hp Hq Hlen Hsum. rewrite kl_positive by assumption.
  eexists. split; [reflexivity|].
  pose proof (kl_sum_lower p q Hp Hq Hlen) as H. rewrite Hsum in H.
  unfold Rminus, Rdiv in H. rewrite Rplus_opp_r, Rmult_0_l in H. exact H.
Qed.

Lemma kl_nonneg_witness :
  exists v, kl [/ 2; / 2] [/ 4; 3 / 4] = Ok v /\ 0 <= v.
Proof.
  apply kl_nonneg.
  - repeat constructor; lra.
  - repeat constructor; lra.
  - reflexivity.
  - unfold array_sum. cbn [fold_right]. lra.
Defined.

Lemma log2_uniform_entry (C : nat) : log2 (/ 2 ^ C) = - INR C.
Proof. apply log2_inv_pow2. Qed.

Lemma kl_uniform_sum (p : list R) (c : R) (n : nat) :
  List.length p = n ->
  array_sum (zip_with (fun x y => x * (log2 x - log2 y)) p (repeat c n))
  = array_sum (map (fun x => x * log2 x) p) - log2 c * array_sum p.
Proof.
  revert n; induction p as [|x p IH]; intros n Hn; subst n.
  - cbn. lra.
  - cbn [List.length repeat zip_with map array_sum fold_right].
    fold (array_sum p). fold (array_sum (map (fun x => x * log2 x) p)).
    fold (array_sum (zip_with (fun x y => x * (log2 x - log2 y)) p
                       (repeat c (List.length p)))).
    rewrite (IH _ eq_refl). lra.
Qed.

(** Against the uniform distribution over [2^C] states, [kl] returns
    what [entropy] returns plus [C] times the sum of [p]: for a
    probability vector, [C] minus its entropy. *)
Theorem kl_uniform (p : list R) (C : nat) :
  Forall (fun x => 0 < x) p -> List.length p = (2 ^ C)%nat ->
  exists e, entropy p = Ok e
            /\ kl p (uniform C) = Ok (e + INR C * array_sum p).
Proof.
  intros Hp Hlen. eexists. split; [now apply entropy_positive|].
  rewrite kl_positive.
  - unfold uniform. rewrite kl_uniform_sum by exact Hlen.
    rewrite log2_inv_pow2. f_equal. lra.
  - exact Hp.
  - unfold uniform. apply Forall_forall. intros x Hx.
    apply repeat_spec in Hx. subst x. apply Rinv_0_lt_compat, pow_lt. lra.
Qed.

Lemma kl_uniform_witness :
  exists e, entropy [/ 4; 3 / 4] = Ok e
            /\ kl [/ 4; 3 / 4] (uniform 1)
               = Ok (e + INR 1 * array_sum [/ 4; 3 / 4]).
Proof.
  apply kl_uniform.
  - repeat constructor; lra.
  - reflexivity.
Defined.

End DirectKL.

(** *** The KL estimate of a posterior against itself *)

Section SelfKL.

Local Open Scope R_scope.

Variable psi : R -> R.
Hypothesis psi_rec : digamma_recurrence psi.

Lemma shifted_weighted_sum (alpha : list R) :
  Forall (fun a => 0 < a) alpha ->
  array_sum (map (fun a => a * psi (a + 1)) alpha)
  = array_sum (map (fun a => a * psi a) alpha) + INR (List.length alpha).
Proof.
  unfold array_sum. induction 1 as [|a alpha Ha _ IH].
  - cbn. lra.
  - cbn [map fold_right List.length]. rewrite IH, S_INR, (psi_rec a Ha).
    field. lra.
Qed.

Lemma cross_sum (alpha : list R) (A c : R) :
  array_sum (zip_with (fun a b => a / A * (psi b - c)) alpha alpha)
  = (array_sum (map (fun a => a * psi a) alpha) - c * array_sum alpha) / A.
Proof.
  unfold array_sum. induction alpha as [|a alpha IH].
  - cbn. unfold Rdiv. lra.
  - cbn [zip_with map fold_right]. rewrite IH. unfold Rdiv. lra.
Qed.

Lemma mean_kl_formula_self (alpha : list R) :
  alpha <> [] -> Forall (fun a => 0 < a) alpha ->
  mean_kl_formula psi alpha alpha
  = (INR (List.length alpha) - 1) / (array_sum alpha * ln 2).
Proof.
  intros Hne Hpos. pose proof (array_sum_pos _ Hne Hpos) as H0.
  pose proof ln2_pos as Hl.
  unfold mean_kl_formula, mean_entropy_formula.
  rewrite shifted_weighted_sum by exact Hpos.
  rewrite cross_sum, (psi_rec _ H0). field. lra.
Qed.

End SelfKL.

(** With [log] bound and a [psi] that satisfies the recurrence of the
    digamma function, [mean_KL_estimate] of a strictly positive
    posterior against itself is the number of bins minus one, over
    [alpha0 * ln 2]: not negative, zero for one bin only, and vanishing
    as the counts grow. *)
Theorem mean_KL_estimate_self (g : globals) (psi : R -> R) (alpha : list R) :
  bound g "log" = true -> digamma_recurrence psi ->
  alpha <> [] -> Forall (fun a => 0 < a)%R alpha ->
  mean_KL_estimate g psi alpha alpha
  = Ok ((INR (List.length alpha) - 1) / (array_sum alpha * ln 2))%R.
Proof.
  intros Hg Hrec Hne Hpos.
  rewrite (mean_KL_estimate_bound g psi Hg).
  now rewrite mean_kl_formula_self.
Qed.

Lemma up_succ (x : R) : up (x + 1) = (up x + 1)%Z.
Proof.
  symmetry. apply tech_up; destruct (archimed x) as [H1 H2];
    rewrite plus_IZR; lra.
Qed.

Lemma harmonic_psi_recurrence : digamma_recurrence harmonic_psi.
Proof.
  intros x Hx. unfold harmonic_psi. rewrite up_succ.
  destruct (archimed x) as [H1 _].
  assert (1 <= up x)%Z as Hup.
  { assert (0 < IZR (up x))%R as H by lra. apply lt_IZR in H. lia. }
  replace (Z.to_nat (up x + 1 - 1)) with (S (Z.to_nat (up x - 1))) by lia.
  cbn [harmonic_tail]. replace (x + 1 - 1)%R with x by lra. lra.
Qed.

Lemma mean_KL_estimate_self_witness :
  mean_KL_estimate numpy_globals harmonic_psi [1; 1]%R [1; 1]%R
  = Ok ((INR (List.length [1; 1]%R) - 1) / (array_sum [1; 1]%R * ln 2))%R.
Proof.
  apply mean_KL_estimate_self.
  - reflexivity.
  - exact harmonic_psi_recurrence.
  - discriminate.
  - repeat constructor; lra.
Defined.

(** *** The entropy component of the KL extrapolation *)

Lemma bind_ok_inv {A B : Type} (m : result A) (k : A -> result B) (b : B) :
  bind m k = Ok b -> exists a, m = Ok a /\ k a = Ok b.
Proof. destruct m as [a|e]; cbn; intro H; [eauto | discriminate H]. Qed.

Lemma mapM_project {A B B' : Type} (f : A -> result B) (f' : A -> result B')
    (pr : B -> B') (l : list A) (r : list B) :
  (forall x y, f x = Ok y -> f' x = Ok (pr y)) ->
  mapM f l = Ok r -> mapM f' l = Ok (map pr r).
Proof.
  intro Hf. revert r; induction l as [|x l IH]; intros r H; cbn [mapM] in *.
  - injection H as <-. reflexivity.
  - apply bind_ok_inv in H. destruct H as [y [Hy H]].
    apply bind_ok_inv in H. destruct H as [ys [Hys H]].
    injection H as <-. rewrite (Hf _ _ Hy). cbn [bind].
    rewrite (IH _ Hys). reflexivity.
Qed.

(** Whenever [kl_estimation] returns a pair, its second component is
    what [h_estimation] returns on the first partition with the same
    arguments. *)
Theorem kl_estimation_entropy_component (g : globals) (digamma : R -> R)
    (polyfit : list R -> list R -> nat -> list R)
    (p_dict q_dict : partition) (npoints : Z) (alpha : R)
    (Ns : option (list R)) (k h : R) :
  kl_estimation g digamma polyfit p_dict q_dict npoints alpha Ns = Ok (k, h) ->
  h_estimation g digamma polyfit p_dict npoints alpha Ns = Ok h.
Proof.
  unfold kl_estimation, h_estimation. intro H.
  apply bind_ok_inv in H. destruct H as [[] [Ha H]]. rewrite Ha. cbn [bind].
  apply bind_ok_inv in H. destruct H as [[] [Hz H]]. rewrite Hz. cbn [bind].
  apply bind_ok_inv in H. destruct H as [[] [_ H]].
  apply bind_ok_inv in H. destruct H as [ests [Hm H]].
  cbv zeta in H.
  apply bind_ok_inv in H. destruct H as [k0 [_ H]].
  apply bind_ok_inv in H. destruct H as [h0 [Hh H]].
  injection H as _ <-.
  match goal with
  | |- bind (mapM ?f' ns) _ = _ =>
      assert (mapM f' ns = Ok (map fst ests)) as ->
  end; [|cbn [bind]; exact Hh].
  eapply mapM_project; [|exact Hm].
  intros d [hm km] Hd. cbn [fst]. cbv beta in Hd.
  rewrite Hz in Hd. cbn [bind] in Hd.
  apply bind_ok_inv in Hd. destruct Hd as [hk [Hhk Hd]].
  injection Hd as <- _.
  assert (mapM (h_block g digamma p_dict alpha d) (seq 0 (Z.to_nat d))
          = Ok (map fst hk)) as ->; [|reflexivity].
  eapply mapM_project; [|exact Hhk].
  intros i [hi ki] Hi. cbn [fst]. unfold kl_block in Hi. unfold h_block.
  apply bind_ok_inv in Hi. destruct Hi as [p [Hp Hi]]. rewrite Hp. cbn [bind].
  apply bind_ok_inv in Hi. destruct Hi as [q [_ Hi]].
  apply bind_ok_inv in Hi. destruct Hi as [hv [Hhv Hi]].
  apply bind_ok_inv in Hi. destruct Hi as [kv [_ Hi]].
  injection Hi as <- _. exact Hhv.
Qed.

Lemma kl_estimation_entropy_component_witness :
  h_estimation numpy_globals (fun x => x) (fun xs _ _ => xs)
    three_key_partition 8 1%R None
  = Ok 2%R.
Proof.
  apply (kl_estimation_entropy_component numpy_globals (fun x => x)
           (fun xs _ _ => xs) three_key_partition three_key_partition
           8 1%R None 2%R 2%R).
  rewrite (kl_estimation_value numpy_globals (fun x => x) (fun xs _ _ => xs)
             eq_refl eq_refl eq_refl three_key_partition three_key_partition
             8 1%R None three_key_partition_blocks three_key_partition_blocks).
  reflexivity.
Defined.

(** *** A key with too few blocks *)

Lemma list_get_raise_IndexError {A : Type} (l : list A) (i : nat) (e : exn) :
  list_get l i = Raise e -> e = IndexError.
Proof.
  unfold list_get. destruct (nth_error l i); [discriminate|].
  intro H. now injection H as <-.
Qed.

(** With the names bound and every key of 4, 2, 1 present, a key [d]
    that holds fewer than [d] blocks makes [h_estimation] raise
    [IndexError]: the loop reads [p_dict[d][i]] for every [i < d]. *)
Theorem h_estimation_short_blocks (g : globals) (digamma : R -> R)
    (polyfit : list R -> list R -> nat -> list R) (p_dict : partition)
    (npoints : Z) (alpha : R) (Ns : option (list R)) (d : Z)
    (blocks : list (list R)) :
  bound g "log" = true -> bound g "array" = true -> bound g "zeros" = true ->
  (forall d', In d' ns -> dict_find p_dict d' <> None) ->
  In d ns -> dict_find p_dict d = Some blocks ->
  (List.length blocks < Z.to_nat d)%nat ->
  h_estimation g digamma polyfit p_dict npoints alpha Ns = Raise IndexError.
Proof.
  intros Hl Ha Hz Hkeys Hd Hfind Hlen.
  assert (forall d' i e, In d' ns ->
            h_block g digamma p_dict alpha d' i = Raise e -> e = IndexError)
    as Hblock.
  { intros d' i e Hd' H. unfold h_block, block, dict_get in H.
    destruct (dict_find p_dict d') as [bs|] eqn:E;
      [|exfalso; now apply (Hkeys d' Hd')].
    cbn [bind] in H. apply bind_raise_inv in H.
    destruct H as [H | [b [_ H]]].
    - eapply list_get_raise_IndexError; exact H.
    - rewrite (mean_H_estimate_bound digamma g _ Hl) in H. discriminate H. }
  unfold h_estimation, lookup_name. rewrite Ha, Hz. cbn [bind].
  match goal with
  | |- bind (mapM ?f ns) ?k = _ =>
      assert (exists e, mapM f ns = Raise e) as [e He]
  end.
  { apply returns_false_raise. apply mapM_raise_in with (x := d); [exact Hd|].
    cbn [bind].
    assert (returns (mapM (h_block g digamma p_dict alpha d)
                       (seq 0 (Z.to_nat d))) = false) as Hr.
    { apply mapM_raise_in with (x := List.length blocks).
      - apply in_seq. lia.
      - unfold h_block, block, dict_get. rewrite Hfind. cbn [bind].
        unfold list_get.
        replace (nth_error blocks (List.length blocks)) with (@None (list R))
          by (symmetry; apply nth_error_None; lia).
        reflexivity. }
    destruct (mapM (h_block g digamma p_dict alpha d) (seq 0 (Z.to_nat d)));
      [discriminate Hr | reflexivity]. }
  rewrite He. cbn [bind]. f_equal.
  revert He. apply (mapM_raise_inv (fun e0 => e0 = IndexError)).
  intros d' e' Hd' H. cbn [bind] in H.
  apply bind_raise_inv in H. destruct H as [H | [hs [_ H]]]; [|discriminate H].
  revert H. apply (mapM_raise_inv (fun e0 => e0 = IndexError)).
  intros i e'' _ H. eapply Hblock; eauto.
Qed.

Lemma h_estimation_short_blocks_witness :
  h_estimation numpy_globals (fun x => x) (fun xs _ _ => xs)
    [(1%Z, [[4; 4]%R]); (2%Z, [[2; 2]%R]); (4%Z, [])] 8 1%R None
  = Raise IndexError.
Proof.
  apply (h_estimation_short_blocks numpy_globals (fun x => x)
           (fun xs _ _ => xs) _ 8 1%R None 2 [[2; 2]%R] eq_refl eq_refl
           eq_refl).
  - intros d' [<-|[<-|[<-|[]]]]; discriminate.
  - right. left. reflexivity.
  - reflexivity.
  - cbn. lia.
Defined.

(** *** What the histogram counts *)

Lemma bin_of_range (nbins : nat) (s : Q) :
  (0 < nbins)%nat -> in_edges nbins s = true ->
  (0 <= bin_of nbins s < Z.of_nat nbins)%Z.
Proof.
  intros Hn H. unfold in_edges in H. apply andb_true_iff in H.
  destruct H as [H0 H1]. apply Qle_bool_iff in H0.
  unfold bin_of. destruct (Qle_bool (inject_Z (Z.of_nat nbins)) s) eqn:E; [lia|].
  apply not_true_iff_false in E. rewrite Qle_bool_iff in E.
  apply Qnot_le_lt in E. split.
  - assert (inject_Z 0 < inject_Z (Qfloor s + 1))%Q as H
        by (eapply Qle_lt_trans; [exact H0 | apply Qlt_floor]).
    rewrite <- Zlt_Qlt in H. lia.
  - rewrite Zlt_Qlt. eapply Qle_lt_trans; [apply Qfloor_le | exact E].
Qed.

Lemma in_bin_at_bin_of (nbins : nat) (s : Q) :
  (0 < nbins)%nat -> in_edges nbins s = true ->
  in_bin nbins (Z.to_nat (bin_of nbins s)) s = true.
Proof.
  intros Hn H. pose proof (bin_of_range nbins s Hn H) as Hr.
  unfold in_edges in H. apply andb_true_iff in H. destruct H as [H0 H1].
  apply Qle_bool_iff in H0. apply Qle_bool_iff in H1.
  assert (Z.of_nat (Z.to_nat (bin_of nbins s)) = bin_of nbins s) as Hk by lia.
  unfold in_bin. rewrite Nat2Z.inj_succ, Hk. clear Hk.
  unfold bin_of in *.
  destruct (Qle_bool (inject_Z (Z.of_nat nbins)) s) eqn:E.
  - apply Qle_bool_iff in E.
    replace (S (Z.to_nat (Z.of_nat nbins - 1)) =? nbins)%nat with true
      by (symmetry; apply Nat.eqb_eq; lia).
    apply andb_true_iff. split; apply Qle_bool_iff.
    + eapply Qle_trans; [|exact E]. rewrite <- Zle_Qle. lia.
    + replace (Z.succ (Z.of_nat nbins - 1))%Z with (Z.of_nat nbins) by lia.
      exact H1.
  - apply andb_true_iff. split; [apply Qle_bool_iff, Qfloor_le|].
    unfold Z.succ.
    destruct (S (Z.to_nat (Qfloor s)) =? nbins)%nat.
    + apply Qle_bool_iff, Qlt_le_weak, Qlt_floor.
    + unfold Qltb. apply negb_true_iff, not_true_iff_false.
      rewrite Qle_bool_iff. apply Qlt_not_le, Qlt_floor.
Qed.

Lemma in_bin_in_edges (nbins k : nat) (s : Q) :
  (k < nbins)%nat -> in_bin nbins k s = true -> in_edges nbins s = true.
Proof.
  intros Hk H. unfold in_bin in H. apply andb_true_iff in H.
  destruct H as [Hlo Hup]. apply Qle_bool_iff in Hlo.
  unfold in_edges. apply andb_true_iff. split; apply Qle_bool_iff.
  - eapply Qle_trans; [|exact Hlo]. change 0%Q with (inject_Z 0).
    rewrite <- Zle_Qle. lia.
  - destruct (Nat.eqb_spec (S k) nbins) as [E|E].
    + apply Qle_bool_iff in Hup. now rewrite <- E.
    + unfold Qltb in Hup. apply negb_true_iff, not_true_iff_false in Hup.
      rewrite Qle_bool_iff in Hup. apply Qnot_le_lt in Hup.
      apply Qlt_le_weak. eapply Qlt_le_trans; [exact Hup|].
      rewrite <- Zle_Qle. lia.
Qed.

Lemma zsum_nonneg_ge {A : Type} (f : A -> Z) (l : list A) (x : A) :
  (forall y, 0 <= f y)%Z -> In x l -> (f x <= zsum (map f l))%Z.
Proof.
  intros Hf. induction l as [|y l IH]; intro Hin; [destruct Hin|].
  cbn [map zsum fold_right]. fold (zsum (map f l)).
  assert (0 <= zsum (map f l))%Z as H0.
  { clear IH Hin. induction l as [|z l IH]; cbn [map zsum fold_right]; [lia|].
    fold (zsum (map f l)). pose proof (Hf z). lia. }
  destruct Hin as [->|Hin]; [lia|]. specialize (IH Hin). pose proof (Hf y). lia.
Qed.

Lemma one_state_total (nbins : nat) (s : Q) :
  (0 < nbins)%nat ->
  zsum (map (fun k => if in_bin nbins k s then 1%Z else 0%Z) (seq 0 nbins))
  = if in_edges nbins s then 1%Z else 0%Z.
Proof.
  intro Hn.
  assert (zsum (map (fun k => if in_bin nbins k s then 1%Z else 0%Z) (seq 0 nbins))
          <= 1)%Z as Hle.
  { eapply Z.le_trans.
    - apply (zsum_map_le _
               (fun k => if (Z.of_nat k =? bin_of nbins s)%Z then 1%Z else 0%Z)).
      intros k Hk. apply in_seq in Hk. destruct (in_bin nbins k s) eqn:E.
      + rewrite (in_bin_bin_of nbins k s) by (auto; lia).
        rewrite Z.eqb_refl. lia.
      + destruct (Z.of_nat k =? bin_of nbins s)%Z; lia.
    - rewrite zsum_indicator.
      destruct ((Z.of_nat 0 <=? bin_of nbins s)
                && (bin_of nbins s <? Z.of_nat (0 + nbins)))%Z; lia. }
  destruct (in_edges nbins s) eqn:E.
  - pose proof (bin_of_range nbins s Hn E) as Hr.
    pose proof (zsum_nonneg_ge (fun k => if in_bin nbins k s then 1%Z else 0%Z)
                  (seq 0 nbins) (Z.to_nat (bin_of nbins s))) as Hge.
    cbv beta in Hge. rewrite (in_bin_at_bin_of nbins s Hn E) in Hge.
    assert (1 <= zsum (map (fun k => if in_bin nbins k s then 1%Z else 0%Z)
                         (seq 0 nbins)))%Z; [|lia].
    apply Hge; [intro y; destruct (in_bin nbins y s); lia|].
    apply in_seq. lia.
  - rewrite (map_ext_in _ (fun _ => 0%Z)).
    + clear. induction (seq 0 nbins); cbn [map zsum fold_right]; [reflexivity|].
      fold (zsum (map (fun _ : nat => 0%Z) l)). lia.
    + intros k Hk. apply in_seq in Hk. destruct (in_bin nbins k s) eqn:Ek;
        [|reflexivity].
      rewrite (in_bin_in_edges nbins k s) in E by (auto; lia). discriminate E.
Qed.

Lemma histogram_total_exact (states : list Q) (nbins : nat) :
  (0 < nbins)%nat ->
  zsum (histogram states nbins)
  = Z.of_nat (List.length (filter (in_edges nbins) states)).
Proof.
  intro Hn. induction states as [|s states IH].
  - unfold histogram. cbn [filter List.length Z.of_nat].
    induction (seq 0 nbins); cbn [map zsum fold_right]; [reflexivity|].
    fold (zsum (map (fun _ : nat => 0%Z) l)). lia.
  - rewrite histogram_cons, zsum_map_add. fold (histogram states nbins).
    rewrite IH, one_state_total by exact Hn. cbn [filter].
    destruct (in_edges nbins s); cbn [List.length];
      rewrite ?Nat2Z.inj_succ; lia.
Qed.

(** The unnormalised histogram counts exactly the states between the
    outer bin edges, [0 <= s <= 2^C], the right edge included: its
    entries sum to their number, and every other state is in no bin. *)
Theorem states2distr_counts_within_edges (states : list Q) (C : nat) :
  qsum (states2distr states C false)
  = inject_Z (Z.of_nat (List.length (filter (in_edges (2 ^ C)) states))).
Proof.
  unfold states2distr. rewrite qsum_inject_Z, histogram_total_exact;
    [reflexivity|].
  apply Nat.neq_0_lt_0, Nat.pow_nonzero. discriminate.
Qed.

(** *** The histogram forgets the order of the states *)

Lemma filter_length_permutation {A : Type} (f : A -> bool) (l l' : list A) :
  Permutation l l' ->
  List.length (filter f l) = List.length (filter f l').
Proof.
  induction 1 as [|x l l' _ IH|x y l|l l' l'' _ IH1 _ IH2]; cbn [filter].
  - reflexivity.
  - destruct (f x); cbn [List.length]; now rewrite IH.
  - destruct (f x), (f y); reflexivity.
  - now rewrite IH1.
Qed.

Lemma histogram_permutation (l l' : list Q) (nbins : nat) :
  Permutation l l' -> histogram l nbins = histogram l' nbins.
Proof.
  intro H. unfold histogram. apply map_ext. intro k.
  now rewrite (filter_length_permutation _ _ _ H).
Qed.

(** Two state sequences that are permutations of each other have the
    same histogram, normalised or not. *)
Theorem states2distr_permutation (l l' : list Q) (C : nat) (normed : bool) :
  Permutation l l' -> states2distr l C normed = states2distr l' C normed.
Proof.
  intro H. unfold states2distr.
  now rewrite (histogram_permutation l l' (2 ^ C) H).
Qed.

Lemma states2distr_permutation_witness :
  states2distr [0; 1; 1]%Q 1 false = states2distr [1; 0; 1]%Q 1 false.
Proof.
  apply states2distr_permutation. apply perm_swap.
Defined.

Lemma mapM_list_get_all {A : Type} (d : A) (l : list A) (p : list nat) :
  (forall i, In i p -> (i < List.length l)%nat) ->
  mapM (list_get l) p = Ok (map (fun i => nth i l d) p).
Proof.
  intro H. rewrite <- mapM_Ok. apply mapM_ext_in. intros i Hi.
  unfold list_get. specialize (H i Hi).
  destruct (nth_error l i) as [x|] eqn:E.
  - f_equal. symmetry. now apply nth_error_nth.
  - apply nth_error_None in E. lia.
Qed.

Lemma shuffled_permutation (all_y : list Q) (p : list nat) :
  Permutation p (seq 0 (List.length all_y)) ->
  exists ys, shuffled all_y (Some p) = Ok ys /\ Permutation ys all_y.
Proof.
  intro Hp. exists (map (fun i => nth i all_y 0%Q) p). split.
  - unfold shuffled. apply mapM_list_get_all. intros i Hi.
    apply (Permutation_in _ Hp) in Hi. apply in_seq in Hi. lia.
  - eapply perm_trans; [apply Permutation_map; exact Hp|].
    rewrite <- list_as_map_nth. apply Permutation_refl.
Qed.

(** When [npoints] is at least the length of the sequence, shuffling
    with a permutation of the indices leaves the block of [d = 1]
    as it is without shuffling: the block is the histogram of all the
    states. *)
Theorem states2dict_shuffle_whole (g : globals) (all_y : list Q) (C : nat)
    (npoints : Z) (fractions : list Z) (p : list nat)
    (distr distr' : count_partition) :
  Permutation p (seq 0 (List.length all_y)) ->
  (Z.of_nat (List.length all_y) <= npoints)%Z ->
  states2dict g all_y C npoints fractions (Some p) = Ok distr ->
  states2dict g all_y C npoints fractions None = Ok distr' ->
  dict_find distr 1 = dict_find distr' 1.
Proof.
  intros Hp Hn H H'.
  destruct (shuffled_permutation all_y p Hp) as [ys [Hs Hperm]].
  rewrite (states2dict_unfold _ _ _ _ _ _ _ Hs) in H.
  rewrite (states2dict_returned _ _ _ _ _ _ H),
    (states2dict_returned _ _ _ _ _ _ H').
  destruct (existsb (Z.eqb 1) fractions); [|reflexivity].
  f_equal. unfold blocks_of, range. change (Z.to_nat 1) with 1%nat.
  cbn [seq map]. rewrite Z.div_1_r.
  replace (Z.of_nat 0 * npoints)%Z with 0%Z by lia.
  replace ((Z.of_nat 0 + 1) * npoints)%Z with npoints by lia.
  pose proof (Permutation_length Hperm) as Hlen.
  rewrite !slice_prefix by lia.
  rewrite !firstn_all2 by lia.
  unfold states2distr. now rewrite (histogram_permutation _ _ (2 ^ C) Hperm).
Qed.

Lemma states2dict_shuffle_whole_witness :
  dict_find [(1%Z, [[1; 2]%Q]); (2%Z, [[0; 1]; [1; 0]]%Q)] 1
  = dict_find [(1%Z, [[1; 2]%Q]); (2%Z, [[1; 0]; [0; 1]]%Q)] 1.
Proof.
  apply (states2dict_shuffle_whole numpy_globals [0; 1; 1]%Q 1 3 [1; 2]%Z
           [2; 0; 1]%nat).
  - apply Permutation_sym.
    apply (perm_trans (l' := [0; 2; 1]%nat)); [|apply perm_swap].
    apply perm_skip. apply perm_swap.
  - cbn. lia.
  - vm_compute. reflexivity.
  - vm_compute. reflexivity.
Defined.

(** *** The normalised histogram *)

Lemma qsum_map_div (T : Q) (l : list Z) :
  (qsum (map (fun c => inject_Z c / T) l) == inject_Z (zsum l) / T)%Q.
Proof.
  unfold qsum. induction l as [|c l IH]; cbn [map fold_right zsum].
  - unfold Qdiv. ring.
  - fold (zsum l). rewrite IH, inject_Z_plus. unfold Qdiv. ring.
Qed.

(** When at least one state lies between the outer bin edges, the
    entries of the normalised histogram sum to 1. *)
Theorem states2distr_normed_sum (states : list Q) (C : nat) :
  filter (in_edges (2 ^ C)) states <> [] ->
  (qsum (states2distr states C true) == 1)%Q.
Proof.
  intro Hne. unfold states2distr.
  change (fold_right Z.add 0%Z (histogram states (2 ^ C)))
    with (zsum (histogram states (2 ^ C))).
  rewrite qsum_map_div.
  rewrite histogram_total_exact
    by (apply Nat.neq_0_lt_0, Nat.pow_nonzero; discriminate).
  field. intro H.
  destruct (filter (in_edges (2 ^ C)) states) as [|s l]; [congruence|].
  cbn [List.length] in H. rewrite Nat2Z.inj_succ in H.
  unfold Qeq, inject_Z in H. cbn in H. lia.
Qed.

Lemma states2distr_normed_sum_witness :
  (qsum (states2distr [0; 2; 1; 3; 7]%Q 2 true) == 1)%Q.
Proof.
  apply states2distr_normed_sum. vm_compute. discriminate.
Defined.

(** *** From a binary matrix to its histogram *)

Lemma spikes2states_binary_matrix (spikes : ndarray2) :
  rectangular spikes -> Forall binary_row (rows spikes) ->
  spikes2states spikes
  = Ok (map (fun r => inject_Z (bits_value (row_bits r))) (rows spikes)).
Proof.
  intros Hrect Hbin. unfold spikes2states.
  assert (forallb (forallb in_unit_range) (rows spikes) = true) as ->.
  { apply forallb_forall. intros row Hr. apply forallb_forall. intros x Hx.
    rewrite Forall_forall in Hbin. specialize (Hbin _ Hr).
    unfold binary_row in Hbin. rewrite Forall_forall in Hbin.
    destruct (Hbin _ Hx) as [-> | ->]; reflexivity. }
  cbn [negb]. f_equal. apply map_ext_in. intros r Hr.
  unfold rectangular in Hrect. rewrite Forall_forall in Hrect, Hbin.
  rewrite <- (Hrect r Hr). now apply row_value_binary, Hbin.
Qed.

(** On a binary matrix of [T] rows and [C <= 53] columns
    [spikes2states] returns [T] states, all integers of [[0, 2^C)],
    in exact arithmetic and in float64 arithmetic alike, and the
    unnormalised histogram of these states over [C] channels sums to
    [T]: no time step is lost between the matrix and the histogram. *)
Theorem spikes_histogram_total (spikes : ndarray2) :
  rectangular spikes -> Forall binary_row (rows spikes) ->
  (shape1 spikes <= 53)%nat ->
  exists states,
    spikes2states spikes = Ok states
    /\ spikes2states_float64 spikes = Ok states
    /\ List.length states = shape0 spikes
    /\ states_in_range (shape1 spikes) states
    /\ qsum (states2distr states (shape1 spikes) false)
       = inject_Z (Z.of_nat (shape0 spikes)).
Proof.
  intros Hrect Hbin H53. eexists.
  split; [now apply spikes2states_binary_matrix|].
  split; [now apply spikes2states_float64_binary_matrix|].
  assert (states_in_range (shape1 spikes)
            (map (fun r => inject_Z (bits_value (row_bits r))) (rows spikes)))
    as Hrange.
  { unfold states_in_range. apply Forall_forall. intros s Hs.
    apply in_map_iff in Hs. destruct Hs as [r [<- Hr]].
    unfold rectangular in Hrect. rewrite Forall_forall in Hrect.
    pose proof (bits_value_range (row_bits r)) as Hb.
    assert (List.length (row_bits r) = shape1 spikes) as Hlen
      by (unfold row_bits; rewrite length_map; exact (Hrect r Hr)).
    rewrite Hlen in Hb.
    split.
    - change 0%Q with (inject_Z 0). rewrite <- Zle_Qle. lia.
    - rewrite <- Zlt_Qlt. lia. }
  split; [|split].
  - unfold shape0. now rewrite length_map.
  - exact Hrange.
  - rewrite qsum_states2distr by exact Hrange. unfold shape0.
    now rewrite length_map.
Qed.

Lemma spikes_histogram_total_witness :
  exists states,
    spikes2states (Ndarray2 2 [[0; 0]; [1; 0]; [0; 1]; [1; 1]; [1; 1]]%Q)
    = Ok states
    /\ spikes2states_float64
         (Ndarray2 2 [[0; 0]; [1; 0]; [0; 1]; [1; 1]; [1; 1]]%Q)
       = Ok states
    /\ List.length states = 5%nat
    /\ states_in_range 2 states
    /\ qsum (states2distr states 2 false) = inject_Z 5.
Proof.
  apply (spikes_histogram_total
           (Ndarray2 2 [[0; 0]; [1; 0]; [0; 1]; [1; 1]; [1; 1]]%Q)).
  - repeat constructor.
  - repeat (apply Forall_cons; [repeat (apply Forall_cons; auto)|]).
    apply Forall_nil.
  - cbn. lia.
Defined.

(** *** The direct estimator on an empirical distribution *)

Lemma Q2R_zero_quotient (T : Q) : Q2R (inject_Z 0 / T) = 0%R.
Proof.
  unfold Qdiv, Qmult, inject_Z, Q2R. cbn [Qnum Z.mul]. unfold Rdiv.
  apply Rmult_0_l.
Qed.

(** If some state is counted but a bin of the histogram is empty,
    [entropy] of the normalised histogram raises its zero-bin
    exception: the direct estimator rejects an empirical distribution
    in which a state was never seen.  (With no state counted at all
    the normalisation divides 0 by 0, which is left out here.) *)
Theorem entropy_empirical_empty_bin (states : list Q) (C k : nat) :
  filter (in_edges (2 ^ C)) states <> [] ->
  (k < 2 ^ C)%nat -> filter (in_bin (2 ^ C) k) states = [] ->
  entropy (map Q2R (states2distr states C true))
  = Raise (Exception "Zero bins found").
Proof.
  intros _ Hk Hempty. unfold entropy.
  assert (In 0%R (map Q2R (states2distr states C true))) as Hin.
  { apply in_map_iff.
    exists (inject_Z 0
            / inject_Z (fold_right Z.add 0%Z (histogram states (2 ^ C))))%Q.
    split; [apply Q2R_zero_quotient|].
    unfold states2distr. apply in_map_iff. exists 0%Z. split; [reflexivity|].
    unfold histogram. apply in_map_iff. exists k. split.
    - now rewrite Hempty.
    - apply in_seq. lia. }
  apply count_zeros_In in Hin.
  destruct (Nat.ltb_spec 0 (count_zeros (map Q2R (states2distr states C true))));
    [reflexivity | lia].
Qed.

Lemma entropy_empirical_empty_bin_witness :
  entropy (map Q2R (states2distr [0; 1; 1; 3]%Q 2 true))
  = Raise (Exception "Zero bins found").
Proof.
  apply (entropy_empirical_empty_bin [0; 1; 1; 3]%Q 2 2).
  - discriminate.
  - cbn. lia.
  - reflexivity.
Defined.

(** *** The blocks of [states2dict] *)

Lemma slice_inside {A : Type} (l : list A) (a b : Z) :
  (0 <= a <= b)%Z -> (b <= Z.of_nat (List.length l))%Z ->
  slice l a b = firstn (Z.to_nat (b - a)) (skipn (Z.to_nat a) l).
Proof.
  intros Hab Hb. rewrite slice_nonneg by exact Hab.
  rewrite !Nat.min_l by lia. f_equal. lia.
Qed.

Lemma slice_app_tail {A : Type} (l t : list A) (a b : Z) :
  (0 <= a <= b)%Z -> (b <= Z.of_nat (List.length l))%Z ->
  slice (l ++ t) a b = slice l a b.
Proof.
  intros Hab Hb. rewrite !slice_inside; try exact Hab; try exact Hb.
  - rewrite skipn_app, firstn_app, length_skipn.
    replace (Z.to_nat (b - a) - (List.length l - Z.to_nat a))%nat with 0%nat
      by lia.
    cbn [firstn]. now rewrite app_nil_r.
  - rewrite length_app. lia.
Qed.

Lemma fold_left_ext_in {A B : Type} (f f' : A -> B -> A) (l : list B) (a : A) :
  (forall acc x, In x l -> f acc x = f' acc x) ->
  fold_left f l a = fold_left f' l a.
Proof.
  revert a; induction l as [|x l IH]; intros a H; [reflexivity|].
  cbn [fold_left]. rewrite (H a x) by (left; reflexivity).
  apply IH. intros acc y Hy. apply H. now right.
Qed.

Lemma range_In (d i : Z) : In i (range d) -> (0 <= i < d)%Z.
Proof.
  unfold range. intro H. apply in_map_iff in H. destruct H as [k [<- Hk]].
  apply in_seq in Hk. lia.
Qed.

Lemma block_bounds (npoints d i : Z) :
  (0 <= npoints)%Z -> (0 <= i < d)%Z ->
  (0 <= i * (npoints / d) <= (i + 1) * (npoints / d))%Z
  /\ ((i + 1) * (npoints / d) <= npoints)%Z
  /\ ((i + 1) * (npoints / d) - i * (npoints / d) = npoints / d)%Z.
Proof.
  intros Hn Hi.
  assert (0 <= npoints / d)%Z as Hbl by (apply Z.div_pos; lia).
  assert (d * (npoints / d) <= npoints)%Z as Hdbl by (apply Z.mul_div_le; lia).
  repeat split; nia.
Qed.

(** Without shuffling, [states2dict] reads the first [npoints] states
    only: what follows them in [all_y] changes neither the partition
    nor the outcome of the check. *)
Theorem states2dict_ignores_tail (g : globals) (ys tail : list Q) (C : nat)
    (npoints : Z) (fractions : list Z) :
  (0 <= npoints <= Z.of_nat (List.length ys))%Z ->
  states2dict g (ys ++ tail) C npoints fractions None
  = states2dict g ys C npoints fractions None.
Proof.
  intros [Hn Hlen]. unfold states2dict, shuffled. cbn [bind]. f_equal.
  apply fold_left_ext_in. intros acc d _.
  destruct acc as [distr|e]; [|reflexivity]. cbn [bind].
  destruct (d =? 0)%Z; [reflexivity|]. cbn [bind]. do 2 f_equal.
  apply map_ext_in. intros i Hi. apply range_In in Hi.
  destruct (block_bounds npoints d i Hn Hi) as [H1 [H2 _]].
  f_equal. apply slice_app_tail; [exact H1 | lia].
Qed.

Lemma states2dict_ignores_tail_witness :
  states2dict numpy_globals ([0; 1; 1; 0] ++ [1; 1; 0])%Q 1 4 [1; 2; 4]%Z None
  = states2dict numpy_globals [0; 1; 1; 0]%Q 1 4 [1; 2; 4]%Z None.
Proof.
  apply (states2dict_ignores_tail numpy_globals [0; 1; 1; 0]%Q [1; 1; 0]%Q
           1 4 [1; 2; 4]%Z).
  cbn. lia.
Defined.

Lemma states_in_range_slice (C : nat) (ys : list Q) (a b : Z) :
  (0 <= a <= b)%Z -> (b <= Z.of_nat (List.length ys))%Z ->
  states_in_range C ys -> states_in_range C (slice ys a b).
Proof.
  intros Hab Hb H. rewrite slice_inside by assumption.
  apply states_in_range_firstn. unfold states_in_range in *.
  rewrite <- (firstn_skipn (Z.to_nat a) ys) in H. apply Forall_app in H.
  apply H.
Qed.

Lemma slice_inside_length {A : Type} (l : list A) (a b : Z) :
  (0 <= a <= b)%Z -> (b <= Z.of_nat (List.length l))%Z ->
  Z.of_nat (List.length (slice l a b)) = (b - a)%Z.
Proof.
  intros Hab Hb. rewrite slice_inside by assumption.
  rewrite length_firstn, length_skipn. lia.
Qed.

(** When [npoints] does not exceed the number of states and the states
    lie in range, every block under a key [d > 0] of the returned
    partition counts exactly [npoints // d] states: the blocks of one
    key have equal size, and the remainder of the division is in no
    block. *)
Theorem states2dict_block_sizes (g : globals) (all_y ys : list Q) (C : nat)
    (npoints : Z) (fractions : list Z) (shuffle : option (list nat))
    (distr : count_partition) (d : Z) :
  shuffled all_y shuffle = Ok ys ->
  (0 <= npoints <= Z.of_nat (List.length ys))%Z ->
  states_in_range C ys ->
  states2dict g all_y C npoints fractions shuffle = Ok distr ->
  In d fractions -> (0 < d)%Z ->
  exists bs,
    dict_find distr d = Some bs
    /\ List.length bs = Z.to_nat d
    /\ Forall (fun b => qsum b = inject_Z (npoints / d)) bs.
Proof.
  intros Hs [Hn Hlen] Hrange Hret Hd Hpos.
  rewrite (states2dict_unfold _ _ _ _ _ _ _ Hs) in Hret.
  pose proof (states2dict_returned _ _ _ _ _ _ Hret d) as Hfind.
  apply existsb_eqb_In in Hd. rewrite Hd in Hfind.
  exists (blocks_of ys C npoints d). split; [exact Hfind|].
  split; [apply blocks_of_length|].
  unfold blocks_of. apply Forall_forall. intros b Hb.
  apply in_map_iff in Hb. destruct Hb as [i [<- Hi]]. apply range_In in Hi.
  destruct (block_bounds npoints d i Hn Hi) as [H1 [H2 H3]].
  rewrite qsum_states2distr
    by (apply states_in_range_slice; [exact H1 | lia | exact Hrange]).
  rewrite slice_inside_length by (try exact H1; lia). now rewrite H3.
Qed.

Lemma states2dict_block_sizes_witness :
  exists bs,
    dict_find [(1%Z, [[2; 3]%Q]); (2%Z, [[1; 1]%Q; [1; 1]%Q])] 2 = Some bs
    /\ List.length bs = 2%nat
    /\ Forall (fun b => qsum b = inject_Z (5 / 2)) bs.
Proof.
  apply (states2dict_block_sizes numpy_globals [0; 1; 1; 0; 1]%Q
           [0; 1; 1; 0; 1]%Q 1 5 [1; 2]%Z None
           [(1%Z, [[2; 3]%Q]); (2%Z, [[1; 1]%Q; [1; 1]%Q])] 2 eq_refl).
  - cbn. lia.
  - repeat (apply Forall_cons; [split; [discriminate | reflexivity]|]).
    apply Forall_nil.
  - reflexivity.
  - right. left. reflexivity.
  - lia.
Defined.

(** *** The block counts [states2dict] rejects *)

(** A block count of 0 makes [states2dict] raise [ZeroDivisionError]
    at [npoints//d] (line 158), whatever the other arguments are. *)
Theorem states2dict_zero_fraction (g : globals) (all_y ys : list Q) (C : nat)
    (npoints : Z) (fractions : list Z) (shuffle : option (list nat)) :
  shuffled all_y shuffle = Ok ys -> In 0%Z fractions ->
  states2dict g all_y C npoints fractions shuffle = Raise ZeroDivisionError.
Proof.
  intros Hs H0. rewrite (states2dict_unfold _ _ _ _ _ _ _ Hs).
  now apply states2dict_zero.
Qed.

Lemma states2dict_zero_fraction_witness :
  states2dict module_globals [0; 1; 1]%Q 1 3 [1; 0; 2]%Z (Some [2; 0; 1]%nat)
  = Raise ZeroDivisionError.
Proof.
  apply (states2dict_zero_fraction module_globals [0; 1; 1]%Q [1; 0; 1]%Q 1 3
           [1; 0; 2]%Z (Some [2; 0; 1]%nat) eq_refl).
  right. left. reflexivity.
Defined.

Section MissingKey1.

Variable g : globals.
Variable ys : list Q.
Variable C : nat.
Variable npoints : Z.
Variable distr : count_partition.
Variable fractions : list Z.

Hypothesis array_bound : bound g "array" = true.
Hypothesis npoints_nonneg : (0 <= npoints)%Z.
Hypothesis distr_blocks :
  forall k, dict_find distr k
            = if existsb (Z.eqb k) fractions
              then Some (blocks_of ys C npoints k)
              else None.
Hypothesis no_key_1 : ~ In 1%Z fractions.

Lemma check_key_no_1 (d : Z) :
  In d fractions -> (0 < d)%Z ->
  check_key g distr npoints d = Raise (KeyError 1).
Proof.
  intros Hd Hpos. unfold check_key.
  assert (dict_find distr d = Some (blocks_of ys C npoints d)) as Hfind
      by (rewrite distr_blocks; apply existsb_eqb_In in Hd; now rewrite Hd).
  assert (dict_find distr 1 = None) as Hfind1.
  { rewrite distr_blocks. destruct (existsb (Z.eqb 1) fractions) eqn:E;
      [|reflexivity]. apply existsb_eqb_In in E. contradiction. }
  rewrite (sum_blocks_value g distr d _ array_bound Hfind)
    by (rewrite blocks_of_length; lia).
  rewrite firstn_all2 by (rewrite blocks_of_length; lia).
  assert (0 <= npoints / d)%Z as Hbl by (apply Z.div_pos; lia).
  assert (d * (npoints / d) <= npoints)%Z as Hdbl
      by (apply Z.mul_div_le; lia).
  pose proof (concat_slices ys (npoints / d) (Z.to_nat d) 0 Hbl) as Hcat.
  rewrite blocks_of_as_histograms. unfold range in *.
  destruct (Z.to_nat d) as [|k] eqn:Ek; [lia|].
  cbn [seq map] in Hcat |- *.
  match goal with
  | |- context [fold_left iadd (states2distr ?l1 C false :: map ?F ?ls)
                  (Scalar 0)] =>
      destruct (sum_histograms C l1 ls) as [a' [Ea Ha]];
      cbn [map] in Ea; rewrite Ea
  end.
  rewrite Hcat in Ha. clear Hcat Ea.
  replace (Z.of_nat 0 * (npoints / d))%Z with 0%Z in Ha by lia.
  replace (Z.of_nat (0 + S k) * (npoints / d))%Z with (d * (npoints / d))%Z
    in Ha by lia.
  cbn [bind accum_items].
  rewrite Qltb_true.
  2:{ apply Qle_lt_trans with (y := 0%Q); [|reflexivity].
      rewrite (qsum_veq _ _ Ha). unfold states2distr.
      rewrite qsum_inject_Z.
      unfold Qminus. rewrite <- (Qplus_opp_r (inject_Z npoints)).
      apply Qplus_le_l. rewrite <- Zle_Qle.
      eapply Z.le_trans; [apply histogram_total_le|].
      rewrite slice_prefix by nia.
      rewrite length_firstn. lia. }
  cbn [assert bind]. unfold lookup_name, dict_get.
  rewrite array_bound, Hfind1. reflexivity.
Qed.

Lemma check_no_1 :
  In 2%Z fractions \/ In 4%Z fractions ->
  _check_dict_consistency g distr npoints = Raise (KeyError 1).
Proof.
  intro H. unfold _check_dict_consistency, dict_mem. rewrite !distr_blocks.
  destruct (existsb (Z.eqb 2) fractions) eqn:E2;
    destruct (existsb (Z.eqb 4) fractions) eqn:E4;
    cbn [app forM_];
    try (apply existsb_eqb_In in E2);
    try (apply existsb_eqb_In in E4);
    rewrite ?(check_key_no_1 2 E2) by lia;
    rewrite ?(check_key_no_1 4 E4) by lia;
    try reflexivity.
  exfalso. destruct H as [H|H]; apply existsb_eqb_In in H; congruence.
Qed.

End MissingKey1.

(** With [array] bound and [0 <= npoints], block counts that hold 2 or 4
    but not 1 make [states2dict] raise [KeyError]: the first assert
    of the check passes, and the second one reads [distr[1][0]]
    (line 199), a key the partition does not have. *)
Theorem states2dict_missing_key_1 (g : globals) (all_y ys : list Q) (C : nat)
    (npoints : Z) (fractions : list Z) (shuffle : option (list nat)) :
  bound g "array" = true ->
  shuffled all_y shuffle = Ok ys ->
  (0 <= npoints)%Z ->
  ~ In 0%Z fractions ->
  In 2%Z fractions \/ In 4%Z fractions -> ~ In 1%Z fractions ->
  states2dict g all_y C npoints fractions shuffle = Raise (KeyError 1).
Proof.
  intros Ha Hs Hn H0 H24 H1. rewrite (states2dict_unfold _ _ _ _ _ _ _ Hs).
  destruct (states2dict_structure g ys C npoints _ H0) as [distr [Hfind Heq]].
  rewrite Heq.
  now rewrite (check_no_1 g ys C npoints distr fractions Ha Hn Hfind H1 H24).
Qed.

Lemma states2dict_missing_key_1_witness :
  states2dict numpy_globals [0; 1; 1; 0; 1]%Q 1 5 [2; 4]%Z None
  = Raise (KeyError 1).
Proof.
  apply (states2dict_missing_key_1 numpy_globals [0; 1; 1; 0; 1]%Q
           [0; 1; 1; 0; 1]%Q 1 5 [2; 4]%Z None eq_refl eq_refl).
  - lia.
  - intros [H|[H|[]]]; discriminate H.
  - left. left. reflexivity.
  - intros [H|[H|[]]]; discriminate H.
Defined.

(** *** The independent model keeps the firing rate of every channel *)

Lemma qsum_map_ext_in {A : Type} (f h : A -> Q) (l : list A) :
  (forall x, In x l -> (f x == h x)%Q) ->
  (qsum (map f l) == qsum (map h l))%Q.
Proof.
  unfold qsum. induction l as [|x l IH]; intro H; cbn [map fold_right];
    [reflexivity|].
  rewrite (H x) by (left; reflexivity).
  rewrite IH by (intros y Hy; apply H; now right). reflexivity.
Qed.

Lemma qsum_map_zero {A : Type} (f : A -> Q) (l : list A) :
  (forall x, In x l -> (f x == 0)%Q) -> (qsum (map f l) == 0)%Q.
Proof.
  intro H. rewrite (qsum_map_ext_in f (fun _ => 0%Q) l H).
  clear H. unfold qsum.
  induction l as [|x l IH]; cbn [map fold_right]; [reflexivity|].
  rewrite IH. reflexivity.
Qed.

Lemma pow2_bound (C s : nat) :
  (s < 2 ^ C)%nat -> (0 <= Z.of_nat s < 2 ^ Z.of_nat C)%Z.
Proof. intro H. split; [lia|]. rewrite <- (Nat2Z.inj_pow 2). lia. Qed.

Lemma independence_weight (C : nat) :
  forall (p1 : nat -> Q) (k : nat),
    (k < C)%nat ->
    (qsum (map (fun s => if nth k (binary_repr (Z.of_nat s) C) false
                         then independence_entry p1 C (Z.of_nat s) else 0)
             (seq 0 (2 ^ C))) == p1 k)%Q.
Proof.
  induction C as [|C IH]; intros p1 k Hk; [lia|].
  replace (2 ^ S C)%nat with (2 ^ C + 2 ^ C)%nat by (cbn; lia).
  rewrite seq_app, map_app, qsum_app. cbn [Nat.add].
  rewrite (seq_add_shift (2 ^ C) (2 ^ C)), map_map.
  destruct k as [|k'].
  - rewrite qsum_map_zero.
    2:{ intros s Hs. apply in_seq in Hs. rewrite binary_repr_S. cbn [nth].
        rewrite (testbit_small (Z.of_nat s) C C);
          [reflexivity | apply pow2_bound; lia | lia]. }
    rewrite (qsum_map_ext_in _
               (fun r => p1 0%nat
                         * independence_entry (fun k => p1 (S k)) C
                             (Z.of_nat r))%Q).
    2:{ intros r Hr. apply in_seq in Hr. rewrite binary_repr_S. cbn [nth].
        rewrite independence_entry_S.
        rewrite Nat2Z.inj_add, (Nat2Z.inj_pow 2).
        rewrite testbit_top_set by (apply pow2_bound; lia).
        rewrite independence_entry_add_pow2. reflexivity. }
    rewrite qsum_map_mult_l.
    change (map (fun s => independence_entry (fun k => p1 (S k)) C (Z.of_nat s))
              (seq 0 (2 ^ C)))
      with (independence_vector (fun k => p1 (S k)) C).
    rewrite independence_vector_sum. ring.
  - rewrite (qsum_map_ext_in _
               (fun s => (1 - p1 0%nat)
                         * (if nth k' (binary_repr (Z.of_nat s) C) false
                            then independence_entry (fun k => p1 (S k)) C
                                   (Z.of_nat s)
                            else 0))%Q).
    2:{ intros s Hs. apply in_seq in Hs. rewrite binary_repr_S. cbn [nth].
        rewrite independence_entry_S.
        rewrite (testbit_small (Z.of_nat s) C C);
          [| apply pow2_bound; lia | lia].
        destruct (nth k' (binary_repr (Z.of_nat s) C) false);
          [reflexivity | ring]. }
    rewrite (qsum_map_ext_in
               (fun r => if nth (S k')
                               (binary_repr (Z.of_nat (2 ^ C + r)) (S C)) false
                         then independence_entry p1 (S C)
                                (Z.of_nat (2 ^ C + r))
                         else 0)%Q
               (fun r => p1 0%nat
                         * (if nth k' (binary_repr (Z.of_nat r) C) false
                            then independence_entry (fun k => p1 (S k)) C
                                   (Z.of_nat r)
                            else 0))%Q).
    2:{ intros r Hr. apply in_seq in Hr. rewrite binary_repr_S. cbn [nth].
        rewrite independence_entry_S.
        rewrite Nat2Z.inj_add, (Nat2Z.inj_pow 2).
        rewrite testbit_top_set by (apply pow2_bound; lia).
        rewrite independence_entry_add_pow2, binary_repr_add_pow2.
        destruct (nth k' (binary_repr (Z.of_nat r) C) false);
          [reflexivity | ring]. }
    rewrite !qsum_map_mult_l.
    rewrite (IH (fun k => p1 (S k)) k') by lia. ring.
Qed.

Lemma firing_weight_independence (p1 : nat -> Q) (C k : nat) :
  (k < C)%nat -> (firing_weight (independence_vector p1 C) C k == p1 k)%Q.
Proof.
  intro Hk. rewrite <- (independence_weight C p1 k Hk).
  unfold firing_weight. apply qsum_map_ext_in. intros s Hs.
  apply in_seq in Hs. unfold independence_vector.
  rewrite nth_map_seq by lia. reflexivity.
Qed.

Lemma firing_weight_scaled (v : list Q) (c : Q) (C k : nat) :
  List.length v = (2 ^ C)%nat ->
  (firing_weight (map (fun x => x * c) v) C k == firing_weight v C k * c)%Q.
Proof.
  intro Hlen. unfold firing_weight.
  rewrite <- (qsum_map_mult_r c), map_map.
  apply qsum_map_ext_in. intros s Hs. apply in_seq in Hs.
  destruct (nth k (binary_repr (Z.of_nat s) C) false); [|ring].
  rewrite (nth_indep _ 0 (0 * c)) by (rewrite length_map; lia).
  rewrite (map_nth (fun x => x * c) v 0 s). reflexivity.
Qed.

(** In a partition [spikes2indep_dict] returns for a binary array with
    at least one row, every block under a key [d] gives to the states
    with a 1 at position [k] the weight [p1[k] * (npoints / d)], and
    sums to [npoints / d]: the independent distribution has the firing
    rate of each channel of the data. *)
Theorem spikes2indep_dict_marginals (g : globals) (spikes : ndarray2)
    (C : nat) (npoints : Z) (fractions : list Z) (distr : count_partition)
    (d : Z) (k : nat) :
  Forall binary_row (rows spikes) ->
  (C <= shape1 spikes)%nat -> (0 < shape0 spikes)%nat ->
  spikes2indep_dict g spikes C npoints fractions = Ok distr ->
  In d fractions -> (k < C)%nat ->
  exists bs,
    dict_find distr d = Some bs
    /\ List.length bs = Z.to_nat d
    /\ Forall (fun b =>
                 qsum b == inject_Z (npoints / d)
                 /\ firing_weight b C k
                    == marginal (Z.of_nat (shape0 spikes)) spikes k
                       * inject_Z (npoints / d))%Q bs.
Proof.
  intros Hbin HC _ Hret Hd Hk.
  pose proof (spikes2indep_dict_returned g spikes C npoints Hbin HC fractions
                distr Hret d) as Hfind.
  apply existsb_eqb_In in Hd. rewrite Hd in Hfind.
  exists (indep_blocks spikes C npoints d). split; [exact Hfind|].
  unfold indep_blocks. split; [apply repeat_length|].
  apply Forall_forall. intros b Hb. apply repeat_spec in Hb. subst b. split.
  - rewrite qsum_map_mult_r, independence_vector_sum. ring.
  - rewrite firing_weight_scaled
      by (unfold independence_vector; now rewrite length_map, length_seq).
    now rewrite firing_weight_independence.
Qed.

Lemma spikes2indep_dict_marginals_witness :
  exists bs,
    dict_find [(1%Z, [[8 # 4; 8 # 4; 8 # 4; 8 # 4]%Q])] 1 = Some bs
    /\ List.length bs = 1%nat
    /\ Forall (fun b =>
                 qsum b == inject_Z (8 / 1)
                 /\ firing_weight b 2 0
                    == marginal 2 (Ndarray2 2 [[1; 0]; [0; 1]]%Q) 0
                       * inject_Z (8 / 1))%Q bs.
Proof.
  apply (spikes2indep_dict_marginals numpy_globals
           (Ndarray2 2 [[1; 0]; [0; 1]]%Q) 2 8 [1%Z]
           [(1%Z, [[8 # 4; 8 # 4; 8 # 4; 8 # 4]%Q])] 1 0).
  - repeat (apply Forall_cons; [repeat (apply Forall_cons; auto)|]).
    apply Forall_nil.
  - cbn. lia.
  - cbn. lia.
  - vm_compute. reflexivity.
  - left. reflexivity.
  - lia.
Defined.

(** *** Arguments [spikes2indep_dict] rejects *)

Lemma mapM_first_raise {A B : Type} (f : A -> result B) (l1 l2 : list A)
    (x : A) (e : exn) :
  (forall y, In y l1 -> exists b, f y = Ok b) -> f x = Raise e ->
  mapM f (l1 ++ x :: l2) = Raise e.
Proof.
  intros H Hx. induction l1 as [|y l1 IH]; cbn [app mapM].
  - now rewrite Hx.
  - destruct (H y (or_introl eq_refl)) as [b ->]. cbn [bind].
    rewrite IH by (intros z Hz; apply H; now right). reflexivity.
Qed.

(** With [zeros] bound, asking for more channels than the array has
    columns makes [spikes2indep_dict] raise [IndexError]: [p1] has
    one entry per column, and the pattern of the first state reads
    [p1[k]] for every [k < nchannels] (line 180). *)
Theorem spikes2indep_dict_too_many_channels (g : globals) (spikes : ndarray2)
    (nchannels : nat) (npoints : Z) (fractions : list Z) :
  bound g "zeros" = true -> (shape1 spikes < nchannels)%nat ->
  spikes2indep_dict g spikes nchannels npoints fractions = Raise IndexError.
Proof.
  intros Hz Hlt. unfold spikes2indep_dict, lookup_name. rewrite Hz.
  cbn [bind].
  set (p1 := map _ (seq 0 (shape1 spikes))).
  assert (List.length p1 = shape1 spikes) as Hlen
      by (unfold p1; now rewrite length_map, length_seq).
  destruct (2 ^ nchannels)%nat as [|n] eqn:E;
    [exfalso; revert E; apply Nat.pow_nonzero; discriminate|].
  assert (seq 0 nchannels
          = seq 0 (shape1 spikes)
            ++ shape1 spikes
               :: seq (S (shape1 spikes)) (nchannels - shape1 spikes - 1))
    as Hseq.
  { replace nchannels
      with (shape1 spikes + S (nchannels - shape1 spikes - 1))%nat at 1
      by lia.
    rewrite seq_app. cbn [seq Nat.add]. reflexivity. }
  cbn [seq mapM]. rewrite Hseq.
  rewrite (mapM_first_raise _ _ _ (shape1 spikes) IndexError); [reflexivity| |].
  - intros y Hy. apply in_seq in Hy. unfold list_get.
    destruct (nth_error p1 y) as [p|] eqn:Ep.
    + cbn [bind]. eexists. reflexivity.
    + apply nth_error_None in Ep. lia.
  - unfold list_get.
    assert (nth_error p1 (shape1 spikes) = None) as ->
        by (apply nth_error_None; lia).
    reflexivity.
Qed.

Lemma spikes2indep_dict_too_many_channels_witness :
  spikes2indep_dict numpy_globals (Ndarray2 2 [[1; 0]; [0; 1]]%Q) 3 2 [1%Z]
  = Raise IndexError.
Proof.
  apply (spikes2indep_dict_too_many_channels numpy_globals
           (Ndarray2 2 [[1; 0]; [0; 1]]%Q) 3 2 [1%Z] eq_refl).
  cbn. lia.
Defined.

(** *** The transition table *)

Lemma zsum_map_zero {A : Type} (l : list A) : zsum (map (fun _ => 0%Z) l) = 0%Z.
Proof.
  induction l as [|x l IH]; cbn [map zsum fold_right]; [reflexivity|].
  fold (zsum (map (fun _ : A => 0%Z) l)). lia.
Qed.

(** Counting by a family of selectors that pick at most one bin for
    each element. *)
Lemma count_sum {A : Type} (n : nat) (sel : nat -> A -> bool) (tot : A -> bool)
    (P : list A) :
  (forall p, zsum (map (fun k => if sel k p then 1%Z else 0%Z) (seq 0 n))
             = if tot p then 1%Z else 0%Z) ->
  zsum (map (fun k => Z.of_nat (List.length (filter (sel k) P))) (seq 0 n))
  = Z.of_nat (List.length (filter tot P)).
Proof.
  intro H. induction P as [|p P IH].
  - cbn [filter List.length Z.of_nat]. apply zsum_map_zero.
  - rewrite (map_ext _
               (fun k => ((if sel k p then 1 else 0)
                          + Z.of_nat (List.length (filter (sel k) P)))%Z)).
    2:{ intro k. cbn [filter]. destruct (sel k p); cbn [List.length];
          rewrite ?Nat2Z.inj_succ; lia. }
    rewrite zsum_map_add, IH, H. cbn [filter].
    destruct (tot p); cbn [List.length]; rewrite ?Nat2Z.inj_succ; lia.
Qed.

Lemma row_selector (n i : nat) (p : Q * Q) :
  (0 < n)%nat ->
  zsum (map (fun j => if in_bin n i (fst p) && in_bin n j (snd p)
                      then 1%Z else 0%Z) (seq 0 n))
  = if in_bin n i (fst p) && in_edges n (snd p) then 1%Z else 0%Z.
Proof.
  intro Hn. destruct (in_bin n i (fst p)); cbn [andb].
  - now apply one_state_total.
  - apply zsum_map_zero.
Qed.

Lemma column_selector (n j : nat) (p : Q * Q) :
  (0 < n)%nat ->
  zsum (map (fun i => if in_bin n i (fst p) && in_bin n j (snd p)
                      then 1%Z else 0%Z) (seq 0 n))
  = if in_edges n (fst p) && in_bin n j (snd p) then 1%Z else 0%Z.
Proof.
  intro Hn. destruct (in_bin n j (snd p)).
  - rewrite andb_true_r.
    rewrite (map_ext _ (fun i => if in_bin n i (fst p) then 1%Z else 0%Z))
      by (intro i; now rewrite andb_true_r).
    now apply one_state_total.
  - rewrite andb_false_r.
    rewrite (map_ext _ (fun _ => 0%Z)) by (intro i; now rewrite andb_false_r).
    apply zsum_map_zero.
Qed.

Lemma filter_fst_length (a b : Q -> bool) (x y : list Q) :
  List.length x = List.length y ->
  Forall (fun s => b s = true) y ->
  List.length (filter (fun p => a (fst p) && b (snd p)) (combine x y))
  = List.length (filter a x).
Proof.
  revert y; induction x as [|s x IH]; intros [|t y] Hlen Hy;
    try discriminate Hlen; [reflexivity|].
  inversion Hy as [|? ? Ht Hy']; subst.
  cbn [combine filter fst snd]. rewrite Ht, andb_true_r.
  injection Hlen as Hlen.
  destruct (a s); cbn [List.length]; now rewrite (IH y Hlen Hy').
Qed.

Lemma filter_snd_length (a b : Q -> bool) (x y : list Q) :
  List.length x = List.length y ->
  Forall (fun s => a s = true) x ->
  List.length (filter (fun p => a (fst p) && b (snd p)) (combine x y))
  = List.length (filter b y).
Proof.
  revert y; induction x as [|s x IH]; intros [|t y] Hlen Hx;
    try discriminate Hlen; [reflexivity|].
  inversion Hx as [|? ? Hs Hx']; subst.
  cbn [combine filter fst snd]. rewrite Hs. cbn [andb].
  injection Hlen as Hlen.
  destruct (b t); cbn [List.length]; now rewrite (IH y Hlen Hx').
Qed.

Lemma Forall_slice {A : Type} (P : A -> Prop) (l : list A) (a b : Z) :
  Forall P l -> Forall P (slice l a b).
Proof.
  intro H. unfold slice.
  set (n := Z.to_nat _). set (m := Z.to_nat _).
  assert (Forall P (skipn m l)) as Hs.
  { rewrite <- (firstn_skipn m l) in H. apply Forall_app in H. apply H. }
  rewrite <- (firstn_skipn n (skipn m l)) in Hs. apply Forall_app in Hs.
  apply Hs.
Qed.

Lemma integer_states_slice (C : nat) (l : list Q) (a b : Z) :
  integer_states C l -> integer_states C (slice l a b).
Proof. apply Forall_slice. Qed.

Lemma integer_state_in_range (C : nat) (s : Q) :
  (exists z, s = inject_Z z /\ (0 <= z < 2 ^ Z.of_nat C)%Z) ->
  (0 <= s /\ s < inject_Z (2 ^ Z.of_nat C))%Q.
Proof.
  intros [z [-> Hz]]. split.
  - change 0%Q with (inject_Z 0). rewrite <- Zle_Qle. lia.
  - rewrite <- Zlt_Qlt. lia.
Qed.

Lemma integer_states_in_range (C : nat) (l : list Q) :
  integer_states C l -> states_in_range C l.
Proof.
  unfold integer_states, states_in_range. apply Forall_impl.
  intro s. apply integer_state_in_range.
Qed.

Lemma integer_states_in_edges (C : nat) (l : list Q) :
  integer_states C l -> Forall (fun s => in_edges (2 ^ C) s = true) l.
Proof.
  unfold integer_states. apply Forall_impl. intros s [z [-> Hz]].
  unfold in_edges. apply andb_true_iff. split; apply Qle_bool_iff.
  - change 0%Q with (inject_Z 0). rewrite <- Zle_Qle. lia.
  - rewrite <- Zle_Qle, (Nat2Z.inj_pow 2). change (Z.of_nat 2) with 2%Z. lia.
Qed.

Lemma predecessors_length {A : Type} (y : list A) (dt : Z) :
  (0 < dt)%Z ->
  Z.of_nat (List.length (slice y 0 (- dt)))
  = Z.max 0 (Z.of_nat (List.length y) - dt).
Proof.
  intro Hdt. unfold slice, slice_bound.
  destruct (Z.ltb_spec (- dt) 0) as [_|H]; [|lia].
  change (0 <? 0)%Z with false. cbv iota.
  rewrite length_firstn, length_skipn. lia.
Qed.

Lemma successors_length {A : Type} (y : list A) (dt : Z) :
  (0 < dt)%Z ->
  Z.of_nat (List.length (slice y dt (Z.of_nat (List.length y))))
  = Z.max 0 (Z.of_nat (List.length y) - dt).
Proof.
  intro Hdt. unfold slice, slice_bound.
  destruct (Z.ltb_spec dt 0) as [H|_]; [lia|].
  destruct (Z.ltb_spec (Z.of_nat (List.length y)) 0) as [H|_]; [lia|].
  rewrite length_firstn, length_skipn. lia.
Qed.

Lemma vsum_rows (n : nat) (c : nat -> nat -> Z) (l : list nat) :
  vsum n (map (fun i => map (fun j => inject_Z (c i j)) (seq 0 n)) l)
  = map (fun j => inject_Z (zsum (map (fun i => c i j) l))) (seq 0 n).
Proof.
  unfold vsum. induction l as [|i l IH]; cbn [map fold_right].
  - symmetry. apply map_const_seq.
  - rewrite IH. unfold vadd. rewrite zip_with_map_seq.
    apply map_ext. intro j. cbn [zsum fold_right].
    now rewrite inject_Z_plus.
Qed.

Lemma zsum_app (a b : list Z) : zsum (a ++ b) = (zsum a + zsum b)%Z.
Proof.
  induction a as [|c a IH]; [reflexivity|].
  cbn [app]. change (zsum (c :: a ++ b)) with (c + zsum (a ++ b))%Z.
  change (zsum (c :: a)) with (c + zsum a)%Z. lia.
Qed.

Lemma zsum_concat (l : list (list Z)) :
  zsum (List.concat l) = zsum (map zsum l).
Proof.
  induction l as [|r l IH]; [reflexivity|].
  cbn [List.concat map]. rewrite zsum_app, IH. reflexivity.
Qed.

Section TransitionTable.

Variable y : list Q.
Variable C : nat.
Variable dt : Z.

Hypothesis integers : integer_states C y.
Hypothesis dt_pos : (0 < dt)%Z.

Let xs := slice y 0 (- dt).
Let ys := slice y dt (Z.of_nat (List.length y)).

Lemma pairs_length : List.length xs = List.length ys.
Proof.
  apply Nat2Z.inj. unfold xs, ys.
  now rewrite predecessors_length, successors_length.
Qed.

Lemma pow2C_pos : (0 < 2 ^ C)%nat.
Proof. apply Nat.neq_0_lt_0, Nat.pow_nonzero. discriminate. Qed.

Lemma transition_rows :
  map qsum (transition_matrix y (2 ^ C) dt) = states2distr xs C false.
Proof.
  unfold transition_matrix, histogram2d, states2distr, histogram.
  fold xs ys. rewrite !map_map. apply map_ext. intro i.
  rewrite qsum_inject_Z. f_equal.
  rewrite (count_sum (2 ^ C) _
             (fun p => in_bin (2 ^ C) i (fst p) && in_edges (2 ^ C) (snd p)))
    by (intro p; apply row_selector, pow2C_pos).
  f_equal. apply filter_fst_length; [apply pairs_length|].
  apply integer_states_in_edges, integer_states_slice, integers.
Qed.

Lemma transition_columns :
  vsum (2 ^ C) (transition_matrix y (2 ^ C) dt) = states2distr ys C false.
Proof.
  unfold transition_matrix, histogram2d, states2distr, histogram.
  fold xs ys. rewrite !map_map.
  rewrite (map_ext _
             (fun i =>
                map (fun j =>
                       inject_Z
                         (Z.of_nat
                            (List.length
                               (filter (fun p => in_bin (2 ^ C) i (fst p)
                                                 && in_bin (2 ^ C) j (snd p))
                                  (combine xs ys)))))
                  (seq 0 (2 ^ C))))
    by (intro i; now rewrite map_map).
  rewrite (vsum_rows (2 ^ C)
             (fun i j =>
                Z.of_nat
                  (List.length
                     (filter (fun p => in_bin (2 ^ C) i (fst p)
                                       && in_bin (2 ^ C) j (snd p))
                        (combine xs ys))))).
  apply map_ext. intro j. f_equal.
  rewrite (count_sum (2 ^ C)
             (fun i p => in_bin (2 ^ C) i (fst p) && in_bin (2 ^ C) j (snd p))
             (fun p => in_edges (2 ^ C) (fst p) && in_bin (2 ^ C) j (snd p)))
    by (intro p; apply column_selector, pow2C_pos).
  f_equal. apply filter_snd_length; [apply pairs_length|].
  apply integer_states_in_edges, integer_states_slice, integers.
Qed.

Lemma transition_total :
  qsum (List.concat (transition_matrix y (2 ^ C) dt))
  = inject_Z (Z.max 0 (Z.of_nat (List.length y) - dt)).
Proof.
  unfold transition_matrix.
  rewrite <- concat_map, qsum_inject_Z, zsum_concat. f_equal.
  assert (map qsum (transition_matrix y (2 ^ C) dt) = states2distr xs C false)
    as H by apply transition_rows.
  unfold transition_matrix, states2distr in H. rewrite map_map in H.
  rewrite (map_ext _ (fun r => inject_Z (zsum r))) in H
    by (intro r; apply qsum_inject_Z).
  rewrite <- (map_map zsum inject_Z) in H.
  assert (forall a b : list Z, map inject_Z a = map inject_Z b -> a = b)
    as Hinj.
  { induction a as [|u a IH]; intros [|v b] E; try discriminate E;
      [reflexivity|].
    cbn [map] in E. injection E as Eu Er. f_equal; [exact Eu | now apply IH]. }
  apply Hinj in H. unfold xs, ys in H. rewrite H.
  rewrite histogram_total.
  - now apply predecessors_length.
  - pose proof (integer_states_in_range C xs
                  (integer_states_slice C y _ _ integers)) as Hr.
    unfold states_in_range in Hr. revert Hr. apply Forall_impl.
    intros s Hs. rewrite (Nat2Z.inj_pow 2). exact Hs.
Qed.

End TransitionTable.

(** For integer states in range of at least one channel and a positive
    lag [dt], the rows of the transition table sum to the histogram of
    the states that have a successor, [y[:-dt]], its columns to the
    histogram of the successors, [y[dt:]], and all its entries to the
    number of pairs, [len(y) - dt] or 0. *)
Theorem transition_matrix_marginals (y : list Q) (C : nat) (dt : Z) :
  integer_states C y -> (1 <= C)%nat -> (0 < dt)%Z ->
  map qsum (transition_matrix y (2 ^ C) dt)
  = states2distr (slice y 0 (- dt)) C false
  /\ vsum (2 ^ C) (transition_matrix y (2 ^ C) dt)
     = states2distr (slice y dt (Z.of_nat (List.length y))) C false
  /\ qsum (List.concat (transition_matrix y (2 ^ C) dt))
     = inject_Z (Z.max 0 (Z.of_nat (List.length y) - dt)).
Proof.
  intros Hy _ Hdt. split; [|split].
  - now apply transition_rows.
  - now apply transition_columns.
  - now apply transition_total.
Qed.

Lemma transition_matrix_marginals_witness :
  map qsum (transition_matrix [0; 1; 1; 0; 1]%Q (2 ^ 1) 1)
  = states2distr (slice [0; 1; 1; 0; 1]%Q 0 (- (1))) 1 false
  /\ vsum (2 ^ 1) (transition_matrix [0; 1; 1; 0; 1]%Q (2 ^ 1) 1)
     = states2distr (slice [0; 1; 1; 0; 1]%Q 1 5) 1 false
  /\ qsum (List.concat (transition_matrix [0; 1; 1; 0; 1]%Q (2 ^ 1) 1))
     = inject_Z (Z.max 0 (5 - 1)).
Proof.
  apply (transition_matrix_marginals [0; 1; 1; 0; 1]%Q 1 1).
  - repeat (apply Forall_cons;
            [first [exists 0%Z; split; [reflexivity | cbn; lia]
                   | exists 1%Z; split; [reflexivity | cbn; lia]]|]).
    apply Forall_nil.
  - lia.
  - lia.
Defined.

(** *** The dictionary of transition tables *)

Lemma dict_find_fold_set {V : Type} (mk : Z -> V) (ds : list Z)
    (init : dict V) (k : Z) :
  dict_find (fold_left (fun acc d => dict_set acc d (mk d)) ds init) k
  = if existsb (Z.eqb k) ds then Some (mk k) else dict_find init k.
Proof.
  revert init; induction ds as [|d ds IH]; intro init; [reflexivity|].
  cbn [fold_left existsb]. rewrite IH, dict_find_set.
  destruct (existsb (Z.eqb k) ds); [now rewrite orb_true_r|].
  rewrite orb_false_r. destruct (Z.eqb_spec k d) as [->|_]; reflexivity.
Qed.

Lemma build_fold {V : Type} (mk : Z -> result V) (pure : Z -> V)
    (ds : list Z) (init : dict V) :
  (forall d, In d ds -> d <> 0%Z /\ mk d = Ok (pure d)) ->
  fold_left
    (fun acc d =>
       bind acc (fun distr =>
         bind (if (d =? 0)%Z then Raise ZeroDivisionError else Ok tt)
           (fun _ => bind (mk d)
                       (fun blocks => Ok (dict_set distr d blocks)))))
    ds (Ok init)
  = Ok (fold_left (fun acc d => dict_set acc d (pure d)) ds init).
Proof.
  revert init; induction ds as [|d ds IH]; intros init H; [reflexivity|].
  cbn [fold_left bind].
  destruct (H d (or_introl eq_refl)) as [Hd ->].
  destruct (Z.eqb_spec d 0) as [E|_]; [contradiction|]. cbn [bind].
  apply IH. intros d' Hd'. apply H. now right.
Qed.

Lemma build_fold_raise {V : Type} (mk : Z -> result V) (e : exn)
    (ds : list Z) (init : dict V) :
  (forall d, (0 < d)%Z -> mk d = Raise e) ->
  (forall d, (d < 0)%Z -> exists bs, mk d = Ok bs) ->
  ~ In 0%Z ds -> (exists d, In d ds /\ (0 < d)%Z) ->
  fold_left
    (fun acc d =>
       bind acc (fun distr =>
         bind (if (d =? 0)%Z then Raise ZeroDivisionError else Ok tt)
           (fun _ => bind (mk d)
                       (fun blocks => Ok (dict_set distr d blocks)))))
    ds (Ok init)
  = Raise e.
Proof.
  intros Hpos Hneg. revert init; induction ds as [|d ds IH];
    intros init H0 [d' [Hin Hd']]; [destruct Hin|].
  cbn [fold_left bind]. destruct (Z.eqb_spec d 0) as [E|Hd];
    [exfalso; apply H0; now left|].
  cbn [bind]. destruct (Z.lt_trichotomy d 0) as [Hlt|[E|Hgt]];
    [|contradiction|].
  - destruct (Hneg d Hlt) as [bs ->]. cbn [bind]. apply IH.
    + intro H. apply H0. now right.
    + exists d'. split; [|exact Hd'].
      destruct Hin as [E|Hin]; [lia | exact Hin].
  - rewrite (Hpos d Hgt). cbn [bind]. now apply fold_left_raise.
Qed.

(** [states2transition_dict] with [indep=True] raises [NameError] in
    the module's namespace, which binds no [outer] (line 228), for
    every list of block counts without 0 that holds a positive one. *)
Theorem states2transition_dict_indep_unbound (states : list Q) (C : nat)
    (dt : Z) (ds : list Z) :
  ~ In 0%Z ds -> (exists d, In d ds /\ (0 < d)%Z) ->
  states2transition_dict module_globals states C dt ds true
  = Raise (NameError "outer").
Proof.
  intros H0 Hpos. unfold states2transition_dict. cbv zeta.
  apply build_fold_raise; try assumption.
  - intros d Hd. unfold range.
    destruct (Z.to_nat d) as [|n] eqn:E; [lia|]. reflexivity.
  - intros d Hd. unfold range.
    replace (Z.to_nat d) with 0%nat by lia. eexists. reflexivity.
Qed.

Lemma states2transition_dict_indep_unbound_witness :
  states2transition_dict module_globals [0; 1; 1; 0; 1]%Q 1 1 [1; 2; 4]%Z true
  = Raise (NameError "outer").
Proof.
  apply (states2transition_dict_indep_unbound [0; 1; 1; 0; 1]%Q 1 1
           [1; 2; 4]%Z).
  - intros [H|[H|[H|[]]]]; discriminate H.
  - exists 1%Z. split; [left; reflexivity | lia].
Defined.

Lemma range_length (d : Z) : List.length (range d) = Z.to_nat d.
Proof. unfold range. now rewrite length_map, length_seq. Qed.

(** On integer states in range of at least one channel, with a
    positive lag and block counts without 0, [states2transition_dict]
    with [indep=False] returns a dictionary with [d] tables under
    every positive key [d], and each table counts
    [len(states)/d - dt] transitions (or none): the transitions from
    one block into the next are in no table. *)
Theorem states2transition_dict_counts (g : globals) (states : list Q)
    (C : nat) (dt : Z) (ds : list Z) :
  integer_states C states -> (1 <= C)%nat -> (0 < dt)%Z -> ~ In 0%Z ds ->
  exists distr : transition_partition,
    states2transition_dict g states C dt ds false = Ok distr
    /\ forall d, In d ds ->
         dict_find distr d = Some (transition_blocks states C dt d)
         /\ List.length (transition_blocks states C dt d) = Z.to_nat d
         /\ Forall (fun m =>
                      qsum (List.concat m)
                      = inject_Z
                          (Z.max 0
                             (Z.of_nat (List.length states) / d - dt)))
              (transition_blocks states C dt d).
Proof.
  intros Hint _ Hdt H0.
  exists (fold_left
            (fun acc d => dict_set acc d (transition_blocks states C dt d))
            ds []).
  split.
  - unfold states2transition_dict. cbv zeta. apply build_fold.
    intros d Hd. split; [intro E; subst d; contradiction|].
    cbn [negb]. apply mapM_Ok.
  - intros d Hd. rewrite dict_find_fold_set.
    apply existsb_eqb_In in Hd. rewrite Hd. split; [reflexivity|].
    unfold transition_blocks. split; [now rewrite length_map, range_length|].
    apply Forall_forall. intros m Hm. apply in_map_iff in Hm.
    destruct Hm as [i [<- Hi]]. apply range_In in Hi.
    destruct (block_bounds (Z.of_nat (List.length states)) d i
                (Nat2Z.is_nonneg _) Hi) as [H1 [H2 H3]].
    rewrite transition_total
      by (try exact Hdt; apply integer_states_slice, Hint).
    rewrite slice_inside_length by (try exact H1; lia). now rewrite H3.
Qed.

Lemma states2transition_dict_counts_witness :
  exists distr : transition_partition,
    states2transition_dict module_globals [0; 1; 1; 0; 1]%Q 1 1 [1; 2]%Z false
    = Ok distr
    /\ forall d, In d [1; 2]%Z ->
         dict_find distr d
         = Some (transition_blocks [0; 1; 1; 0; 1]%Q 1 1 d)
         /\ List.length (transition_blocks [0; 1; 1; 0; 1]%Q 1 1 d)
            = Z.to_nat d
         /\ Forall (fun m =>
                      qsum (List.concat m)
                      = inject_Z (Z.max 0 (Z.of_nat 5 / d - 1)))
              (transition_blocks [0; 1; 1; 0; 1]%Q 1 1 d).
Proof.
  apply (states2transition_dict_counts module_globals [0; 1; 1; 0; 1]%Q 1 1
           [1; 2]%Z).
  - repeat (apply Forall_cons;
            [first [exists 0%Z; split; [reflexivity | cbn; lia]
                   | exists 1%Z; split; [reflexivity | cbn; lia]]|]).
    apply Forall_nil.
  - lia.
  - lia.
  - intros [H|[H|[]]]; discriminate H.
Defined.

(** *** The tables that assume independence in time *)

Lemma qsum_outer_scaled (a b : list Q) (c : Q) :
  (qsum (List.concat (matrix_scale (outer a b) c)) == qsum a * qsum b * c)%Q.
Proof.
  unfold matrix_scale, outer. induction a as [|x a IH].
  - cbn [map List.concat]. unfold qsum at 1 2. cbn [fold_right]. ring.
  - cbn [map List.concat]. rewrite qsum_app, IH, qsum_map_mult_r.
    rewrite (qsum_map_mult_l x (fun y => y) b), map_id.
    change (qsum (x :: a)) with (x + qsum a)%Q. ring.
Qed.

Lemma normed_integer_sum (l : list Q) (C : nat) :
  integer_states C l -> l <> [] -> (qsum (states2distr l C true) == 1)%Q.
Proof.
  intros Hint Hne. unfold states2distr.
  change (fold_right Z.add 0%Z (histogram l (2 ^ C)))
    with (zsum (histogram l (2 ^ C))).
  rewrite qsum_map_div, histogram_total.
  - field. intro H. destruct l as [|s l]; [congruence|].
    cbn [List.length] in H. rewrite Nat2Z.inj_succ in H.
    unfold Qeq, inject_Z in H. cbn in H. lia.
  - pose proof (integer_states_in_range C l Hint) as Hr.
    unfold states_in_range in Hr. revert Hr. apply Forall_impl.
    intros s Hs. rewrite (Nat2Z.inj_pow 2). exact Hs.
Qed.

(** Where [outer] is bound, [states2transition_dict] with [indep=True]
    returns, on integer states in range and block counts between 1 and
    the number of states, tables that sum to [len(states)/d - 1]
    each: the product of the marginals is scaled to the number of
    transitions of lag 1, whatever the lag [dt] is. *)
Theorem states2transition_dict_independent (g : globals) (states : list Q)
    (C : nat) (dt : Z) (ds : list Z) :
  bound g "outer" = true -> integer_states C states ->
  Forall (fun d => 0 < d <= Z.of_nat (List.length states))%Z ds ->
  exists distr : transition_partition,
    states2transition_dict g states C dt ds true = Ok distr
    /\ forall d, In d ds ->
         dict_find distr d = Some (independent_blocks states C d)
         /\ List.length (independent_blocks states C d) = Z.to_nat d
         /\ Forall (fun m =>
                      qsum (List.concat m)
                      == inject_Z (Z.of_nat (List.length states) / d - 1))%Q
              (independent_blocks states C d).
Proof.
  intros Hb Hint Hds. rewrite Forall_forall in Hds.
  exists (fold_left
            (fun acc d => dict_set acc d (independent_blocks states C d))
            ds []).
  split.
  - unfold states2transition_dict. cbv zeta. apply build_fold.
    intros d Hd. split; [specialize (Hds d Hd); lia|].
    cbn [negb]. unfold lookup_name. rewrite Hb. cbn [bind]. apply mapM_Ok.
  - intros d Hd. rewrite dict_find_fold_set. specialize (Hds d Hd).
    apply existsb_eqb_In in Hd. rewrite Hd. split; [reflexivity|].
    unfold independent_blocks. split; [now rewrite length_map, range_length|].
    apply Forall_forall. intros m Hm. apply in_map_iff in Hm.
    destruct Hm as [i [<- Hi]]. apply range_In in Hi. cbv zeta.
    destruct (block_bounds (Z.of_nat (List.length states)) d i
                (Nat2Z.is_nonneg _) Hi) as [H1 [H2 H3]].
    assert (1 <= Z.of_nat (List.length states) / d)%Z as Hbl
        by (apply Z.div_le_lower_bound; lia).
    assert (Z.of_nat
              (List.length
                 (slice states (i * (Z.of_nat (List.length states) / d))
                    ((i + 1) * (Z.of_nat (List.length states) / d))))
            = (Z.of_nat (List.length states) / d)%Z) as Hlen
        by (rewrite slice_inside_length by (try exact H1; lia); exact H3).
    rewrite qsum_outer_scaled, Hlen.
    rewrite normed_integer_sum.
    + ring.
    + apply integer_states_slice, Hint.
    + intro E. rewrite E in Hlen. cbn in Hlen. lia.
Qed.

Lemma states2transition_dict_independent_witness :
  exists distr : transition_partition,
    states2transition_dict ("outer"%string :: module_globals)
      [0; 1; 1; 0; 1]%Q 1 3 [1; 2]%Z true
    = Ok distr
    /\ forall d, In d [1; 2]%Z ->
         dict_find distr d = Some (independent_blocks [0; 1; 1; 0; 1]%Q 1 d)
         /\ List.length (independent_blocks [0; 1; 1; 0; 1]%Q 1 d)
            = Z.to_nat d
         /\ Forall (fun m =>
                      qsum (List.concat m) == inject_Z (Z.of_nat 5 / d - 1))%Q
              (independent_blocks [0; 1; 1; 0; 1]%Q 1 d).
Proof.
  apply (states2transition_dict_independent ("outer"%string :: module_globals)
           [0; 1; 1; 0; 1]%Q 1 3 [1; 2]%Z eq_refl).
  - repeat (apply Forall_cons;
            [first [exists 0%Z; split; [reflexivity | cbn; lia]
                   | exists 1%Z; split; [reflexivity | cbn; lia]]|]).
    apply Forall_nil.
  - repeat (apply Forall_cons; [cbn; lia|]). apply Forall_nil.
Defined.

(** *** The range of the direct entropy *)

Section EntropyRange.

Local Open Scope R_scope.

Lemma array_sum_uniform (C : nat) : array_sum (uniform C) = 1.
Proof.
  unfold uniform. rewrite <- (map_id (repeat (/ 2 ^ C) (2 ^ C))).
  rewrite (array_sum_map_repeat (fun x => x)).
  rewrite pow_INR. change (INR 2) with 2. field. apply pow_nonzero. lra.
Qed.

Lemma uniform_positive (C : nat) : Forall (fun x => 0 < x) (uniform C).
Proof.
  unfold uniform. apply Forall_forall. intros x Hx.
  apply repeat_spec in Hx. subst x. apply Rinv_0_lt_compat, pow_lt. lra.
Qed.

(** On a strictly positive probability vector over the [2^C] states of
    [C] channels, [entropy] returns at least [-C]: the entropy of the
    states of [C] binary channels is at most [C] bits. *)
Theorem entropy_at_most_C_bits (p : list R) (C : nat) :
  Forall (fun x => 0 < x) p -> List.length p = (2 ^ C)%nat ->
  array_sum p = 1 ->
  exists e, entropy p = Ok e /\ - INR C <= e.
Proof.
  intros Hp Hlen Hsum. rewrite entropy_positive by exact Hp.
  eexists. split; [reflexivity|].
  assert (List.length p = List.length (uniform C)) as Hl
      by (unfold uniform; now rewrite repeat_length).
  pose proof (kl_sum_lower p (uniform C) Hp (uniform_positive C) Hl) as H.
  rewrite array_sum_uniform, Hsum in H. unfold uniform in H.
  rewrite (kl_uniform_sum p _ _ Hlen), log2_inv_pow2, Hsum in H.
  unfold Rminus at 1, Rdiv in H. rewrite Rplus_opp_r, Rmult_0_l in H. lra.
Qed.

Lemma entropy_at_most_C_bits_witness :
  exists e, entropy [/ 4; 3 / 4] = Ok e /\ - INR 1 <= e.
Proof.
  apply entropy_at_most_C_bits.
  - repeat constructor; lra.
  - reflexivity.
  - unfold array_sum. cbn [fold_right]. lra.
Defined.

End EntropyRange.

(** *** From the dictionaries of blocks to the estimators *)

Lemma dict_find_real_partition (distr : count_partition) (k : Z) :
  dict_find (real_partition distr) k
  = option_map (map (map Q2R)) (dict_find distr k).
Proof.
  induction distr as [|[k' v] distr IH]; [reflexivity|].
  cbn [real_partition map dict_find fst snd].
  destruct (Z.eqb k k'); [reflexivity | exact IH].
Qed.

Lemma ns_keys (d : Z) : In d ns -> d = 4%Z \/ d = 2%Z \/ d = 1%Z.
Proof. intros [H|[H|[H|[]]]]; subst; auto. Qed.

Lemma has_blocks_real_partition (distr : count_partition)
    (fractions : list Z) (mk : Z -> list (list Q)) :
  In 1%Z fractions -> In 2%Z fractions -> In 4%Z fractions ->
  (forall k, dict_find distr k
             = if existsb (Z.eqb k) fractions then Some (mk k) else None) ->
  (forall k, List.length (mk k) = Z.to_nat k) ->
  has_blocks (real_partition distr).
Proof.
  intros H1 H2 H4 Hfind Hlen d Hd.
  assert (In d fractions) as Hin
      by (destruct (ns_keys d Hd) as [->|[->| ->]]; assumption).
  apply existsb_eqb_In in Hin.
  exists (map (map Q2R) (mk d)). split.
  - now rewrite dict_find_real_partition, Hfind, Hin.
  - now rewrite length_map, Hlen.
Qed.

(** For block counts that hold 1, 2 and 4, the default included, every
    dictionary [states2dict] or [spikes2indep_dict] returns has, under
    each key [d] the estimation loops read, the [d] blocks they read:
    [kl_estimation] and [h_estimation] raise no [KeyError] or
    [IndexError] on it. *)
Theorem built_partitions_have_blocks (fractions : list Z) :
  In 1%Z fractions -> In 2%Z fractions -> In 4%Z fractions ->
  (forall g all_y C npoints shuffle distr,
      states2dict g all_y C npoints fractions shuffle = Ok distr ->
      has_blocks (real_partition distr))
  /\ (forall g spikes C npoints distr,
         Forall binary_row (rows spikes) -> (C <= shape1 spikes)%nat ->
         spikes2indep_dict g spikes C npoints fractions = Ok distr ->
         has_blocks (real_partition distr)).
Proof.
  intros H1 H2 H4. split.
  - intros g all_y C npoints shuffle distr Hret.
    assert (exists ys, shuffled all_y shuffle = Ok ys) as [ys Hs].
    { unfold states2dict in Hret.
      destruct (shuffled all_y shuffle) as [ys|e]; [now exists ys|].
      discriminate Hret. }
    rewrite (states2dict_unfold _ _ _ _ _ _ _ Hs) in Hret.
    apply (has_blocks_real_partition distr fractions
             (blocks_of ys C npoints) H1 H2 H4).
    + exact (states2dict_returned _ _ _ _ _ _ Hret).
    + intro k. apply blocks_of_length.
  - intros g spikes C npoints distr Hbin HC Hret.
    apply (has_blocks_real_partition distr fractions
             (indep_blocks spikes C npoints) H1 H2 H4).
    + exact (spikes2indep_dict_returned g spikes C npoints Hbin HC fractions
               distr Hret).
    + intro k. unfold indep_blocks. apply repeat_length.
Qed.

Lemma built_partitions_have_blocks_witness :
  (forall g all_y C npoints shuffle distr,
      states2dict g all_y C npoints [1; 2; 4]%Z shuffle = Ok distr ->
      has_blocks (real_partition distr))
  /\ (forall g spikes C npoints distr,
         Forall binary_row (rows spikes) -> (C <= shape1 spikes)%nat ->
         spikes2indep_dict g spikes C npoints [1; 2; 4]%Z = Ok distr ->
         has_blocks (real_partition distr)).
Proof.
  apply (built_partitions_have_blocks [1; 2; 4]%Z).
  - left. reflexivity.
  - right. left. reflexivity.
  - right. right. left. reflexivity.
Defined.
